(** * Verification of the synchronisation engine of the desktop client
    ([Client/src/sync.py], class [Sync]).

    The development is a shallow embedding: every method of [Sync] the
    properties talk about is a Rocq function of the same name.  Library
    code the engine calls ([hashlib.md5], [base64]) is modelled from its
    standard ([RFC 1321], [RFC 4648]); collaborators (the API client, the
    rdiff wrapper, the operating system) are a record of operations on an
    abstract world. *)

From Stdlib Require Import ZArith NArith List Bool Lia Lqa QArith Qround.
From Stdlib Require Import Strings.String Strings.Ascii Strings.Byte.
From Stdlib Require Decimal DecimalString DecimalFacts DecimalPos DecimalN.
From Stdlib Require Import Uint63.
Import ListNotations.

Close Scope string_scope.
Close Scope list_scope.
Open Scope string_scope.
Open Scope list_scope.
Open Scope Z_scope.

(* ===================================================================== *)
(** ** [hashlib.md5]: RFC 1321 on 32-bit words held in [N]               *)
(* ===================================================================== *)

Module Hashlib.
Local Open Scope uint63_scope.

(** 32-bit words live in the low half of a machine integer; every
    operation that can overflow 32 bits is masked. *)
Definition mask32 : int := 0xFFFFFFFF.
Definition add32 (a b : int) : int := (a + b) land mask32.
Definition not32 (a : int) : int := a lxor mask32.
Definition rotl32 (x s : int) : int :=
  ((x << s) lor (x >> (32 - s))) land mask32.

Definition sine_table : list int :=
  [ 0xd76aa478; 0xe8c7b756; 0x242070db; 0xc1bdceee;
    0xf57c0faf; 0x4787c62a; 0xa8304613; 0xfd469501;
    0x698098d8; 0x8b44f7af; 0xffff5bb1; 0x895cd7be;
    0x6b901122; 0xfd987193; 0xa679438e; 0x49b40821;
    0xf61e2562; 0xc040b340; 0x265e5a51; 0xe9b6c7aa;
    0xd62f105d; 0x02441453; 0xd8a1e681; 0xe7d3fbc8;
    0x21e1cde6; 0xc33707d6; 0xf4d50d87; 0x455a14ed;
    0xa9e3e905; 0xfcefa3f8; 0x676f02d9; 0x8d2a4c8a;
    0xfffa3942; 0x8771f681; 0x6d9d6122; 0xfde5380c;
    0xa4beea44; 0x4bdecfa9; 0xf6bb4b60; 0xbebfbc70;
    0x289b7ec6; 0xeaa127fa; 0xd4ef3085; 0x04881d05;
    0xd9d4d039; 0xe6db99e5; 0x1fa27cf8; 0xc4ac5665;
    0xf4292244; 0x432aff97; 0xab9423a7; 0xfc93a039;
    0x655b59c3; 0x8f0ccc92; 0xffeff47d; 0x85845dd1;
    0x6fa87e4f; 0xfe2ce6e0; 0xa3014314; 0x4e0811a1;
    0xf7537e82; 0xbd3af235; 0x2ad7d2bb; 0xeb86d391 ].

Definition shift_table : list int :=
  [ 7; 12; 17; 22; 7; 12; 17; 22; 7; 12; 17; 22; 7; 12; 17; 22;
    5;  9; 14; 20; 5;  9; 14; 20; 5;  9; 14; 20; 5;  9; 14; 20;
    4; 11; 16; 23; 4; 11; 16; 23; 4; 11; 16; 23; 4; 11; 16; 23;
    6; 10; 15; 21; 6; 10; 15; 21; 6; 10; 15; 21; 6; 10; 15; 21 ].

(** The four chaining words A, B, C, D. *)
Record regs : Type := Regs { rA : int; rB : int; rC : int; rD : int }.

Definition init_regs : regs :=
  Regs 0x67452301 0xefcdab89 0x98badcfe 0x10325476.

(** Round function and message-word index of step [i] (0..63). *)
Definition round_fun (i b c d : int) : int :=
  if i <? 16 then (b land c) lor (not32 b land d)
  else if i <? 32 then (d land b) lor (not32 d land c)
  else if i <? 48 then b lxor (c lxor d)
  else c lxor (b lor not32 d).

Definition word_index (i : int) : int :=
  if i <? 16 then i
  else if i <? 32 then (5 * i + 1) land 15
  else if i <? 48 then (3 * i + 5) land 15
  else (7 * i) land 15.

Fixpoint word_at (block : list int) (g : int) : int :=
  match block with
  | [] => 0
  | w :: rest => if g =? 0 then w else word_at rest (g - 1)
  end.

Definition md5_step (block : list int) (i : int) (k s : int) (r : regs) : regs :=
  let f := round_fun i (rB r) (rC r) (rD r) in
  let m := word_at block (word_index i) in
  let t := add32 (add32 (add32 (rA r) f) k) m in
  Regs (rD r) (add32 (rB r) (rotl32 t s)) (rB r) (rC r).

Fixpoint md5_steps (block : list int) (i : int) (ks ss : list int) (r : regs) : regs :=
  match ks, ss with
  | k :: ks', s :: ss' => md5_steps block (i + 1) ks' ss' (md5_step block i k s r)
  | _, _ => r
  end.

(** One 512-bit block: 64 steps, then the feed-forward addition. *)
Definition compress (r : regs) (block : list int) : regs :=
  let r' := md5_steps block 0 sine_table shift_table r in
  Regs (add32 (rA r) (rA r')) (add32 (rB r) (rB r'))
       (add32 (rC r) (rC r')) (add32 (rD r) (rD r')).

Definition int_of_byte (b : byte) : int := Uint63.of_Z (Z.of_N (Byte.to_N b)).

Definition byte_of_int (n : int) : byte :=
  match Byte.of_N (Z.to_N (Uint63.to_Z (n land 255))) with
  | Some b => b
  | None => x00
  end.

(** Little-endian packing of bytes into 32-bit words and back. *)
Fixpoint words_of_bytes (bs : list byte) : list int :=
  match bs with
  | b0 :: b1 :: b2 :: b3 :: rest =>
      (int_of_byte b0 lor (int_of_byte b1 << 8) lor (int_of_byte b2 << 16)
         lor (int_of_byte b3 << 24))
        :: words_of_bytes rest
  | _ => []
  end.

Fixpoint le_bytes (count : nat) (n : int) : list byte :=
  match count with
  | O => []
  | S c => byte_of_int n :: le_bytes c (n >> 8)
  end.

(** Padding: one 0x80 byte, zeros up to 56 mod 64, then the bit length
    modulo 2^64 on 8 bytes. *)
Definition padding (len : N) : list byte :=
  let zeros := ((119 - len mod 64) mod 64)%N in
  let bits := ((8 * len) mod 2 ^ 64)%N in
  x80 :: repeat x00 (N.to_nat zeros)
    ++ le_bytes 4 (Uint63.of_Z (Z.of_N (bits mod 2 ^ 32)))
    ++ le_bytes 4 (Uint63.of_Z (Z.of_N (bits / 2 ^ 32))).

(** Runs [compress] over the word stream, sixteen words at a time; [blk]
    holds the words of the current block in reverse, [k] how many are still
    missing. *)
Fixpoint md5_words (r : regs) (blk : list int) (k : nat) (ws : list int) : regs :=
  match ws with
  | [] => r
  | w :: ws' =>
      match k with
      | O => md5_words (compress r (rev (w :: blk))) [] 15%nat ws'
      | S k' => md5_words r (w :: blk) k' ws'
      end
  end.

(** [hashlib.md5(data).digest()]: the 16-byte digest of [data]. *)
Definition md5 (data : list byte) : list byte :=
  let padded := data ++ padding (N.of_nat (List.length data)) in
  let r := md5_words init_regs [] 15%nat (words_of_bytes padded) in
  le_bytes 4 (rA r) ++ le_bytes 4 (rB r) ++ le_bytes 4 (rC r) ++ le_bytes 4 (rD r).

(** A hash object is the data fed to it so far: [update] appends,
    [digest] hashes the concatenation (the documented meaning of repeated
    [update] calls). *)
Definition hash_object : Type := list byte.
Definition new : hash_object := [].
Definition update (h : hash_object) (chunk : list byte) : hash_object := h ++ chunk.
Definition digest (h : hash_object) : list byte := md5 h.

Definition hex_digit (n : N) : ascii :=
  ascii_of_N (if (n <? 10)%N then 48 + n else 87 + n)%N.

Fixpoint hex_of_bytes (bs : list byte) : string :=
  match bs with
  | [] => EmptyString
  | b :: rest =>
      String (hex_digit (Byte.to_N b / 16))
        (String (hex_digit (Byte.to_N b mod 16)) (hex_of_bytes rest))
  end.

Definition hexdigest (h : hash_object) : string := hex_of_bytes (digest h).

End Hashlib.

(* ===================================================================== *)
(** ** [base64.b64encode] / [base64.b64decode]                            *)
(* ===================================================================== *)

Module Base64.
Local Open Scope N_scope.

Definition b64_char (n : N) : ascii :=
  ascii_of_N (if n <? 26 then 65 + n
              else if n <? 52 then 71 + n
              else if n <? 62 then n - 4
              else if n =? 62 then 43 else 47).

Definition pad : ascii := "="%char.

(** [b64encode]: three bytes give four characters, a final group of one
    or two bytes is padded with [=].  The result (ASCII bytes in Python) is
    held as a string. *)
Fixpoint b64encode (bs : list byte) : string :=
  match bs with
  | [] => EmptyString
  | [b0] =>
      let n := Byte.to_N b0 in
      String (b64_char (n / 4))
        (String (b64_char ((n mod 4) * 16)) (String pad (String pad EmptyString)))
  | [b0; b1] =>
      let n := Byte.to_N b0 * 256 + Byte.to_N b1 in
      String (b64_char (n / 1024))
        (String (b64_char ((n / 16) mod 64))
           (String (b64_char ((n mod 16) * 4)) (String pad EmptyString)))
  | b0 :: b1 :: b2 :: rest =>
      let n := (Byte.to_N b0 * 256 + Byte.to_N b1) * 256 + Byte.to_N b2 in
      String (b64_char (n / 262144))
        (String (b64_char ((n / 4096) mod 64))
           (String (b64_char ((n / 64) mod 64))
              (String (b64_char (n mod 64)) (b64encode rest))))
  end.

(** Value of an alphabet character, [None] outside the alphabet. *)
Definition b64_value (c : N) : option N :=
  if (65 <=? c) && (c <=? 90) then Some (c - 65)
  else if (97 <=? c) && (c <=? 122) then Some (c - 71)
  else if (48 <=? c) && (c <=? 57) then Some (c + 4)
  else if c =? 43 then Some 62
  else if c =? 47 then Some 63
  else None.

Definition is_b64_or_pad (c : N) : bool :=
  (c <=? 127) && (match b64_value c with Some _ => true | None => c =? 61 end).

(** The [(num+1)]-th alphabet-or-pad character of [cs]. *)
Fixpoint find_valid (cs : list N) (num : nat) : option N :=
  match cs with
  | [] => None
  | c :: rest =>
      if is_b64_or_pad c
      then match num with O => Some c | S n => find_valid rest n end
      else find_valid rest num
  end.

Definition out_byte (n : N) : byte :=
  match Byte.of_N (n mod 256) with Some b => b | None => x00 end.

(** The lenient decoder of [binascii.a2b_base64]: characters outside the
    alphabet are skipped, a pad that completes a group ends the input, and
    bits left over at the end raise [binascii.Error] (here [None]).
    [out] is the output in reverse. *)
Fixpoint a2b_base64 (cs : list N) (quad_pos leftchar leftbits : N) (out : list byte)
  : option (list byte) :=
  match cs with
  | [] => if leftbits =? 0 then Some (rev out) else None
  | c :: rest =>
      if (127 <? c) || (c =? 13) || (c =? 10) || (c =? 32)
      then a2b_base64 rest quad_pos leftchar leftbits out
      else if c =? 61
      then
        if (quad_pos <? 2)
           || ((quad_pos =? 2)
               && negb (match find_valid cs 1 with Some 61 => true | _ => false end))
        then a2b_base64 rest quad_pos leftchar leftbits out
        else Some (rev out)
      else
        match b64_value c with
        | None => a2b_base64 rest quad_pos leftchar leftbits out
        | Some v =>
            let quad_pos' := (quad_pos + 1) mod 4 in
            let leftchar' := leftchar * 64 + v in
            let leftbits' := leftbits + 6 in
            if 8 <=? leftbits'
            then
              let lb := leftbits' - 8 in
              a2b_base64 rest quad_pos' (leftchar' mod 2 ^ lb) lb
                (out_byte (leftchar' / 2 ^ lb) :: out)
            else a2b_base64 rest quad_pos' leftchar' leftbits' out
        end
  end.

Fixpoint codes (s : string) : list N :=
  match s with
  | EmptyString => []
  | String c rest => N_of_ascii c :: codes rest
  end.

(** [b64decode] of a [str]: a non-ASCII character raises [ValueError],
    otherwise the lenient decoder runs; [None] stands for either exception. *)
Definition b64decode (s : string) : option (list byte) :=
  let cs := codes s in
  if forallb (fun c => c <=? 127) cs then a2b_base64 cs 0 0 0 [] else None.

End Base64.

Definition bytes_of_string (s : string) : list byte := list_byte_of_string s.

(* ===================================================================== *)
(** ** Files, sockets and strings as the engine uses them                 *)
(* ===================================================================== *)

Module FileIO.

(** A file opened for reading is the bytes not read yet.  [fi.read(size)]
    returns the next [size] bytes (fewer at the end of the file, all that
    is left for a negative [size]) and advances. *)
Definition read (size : Z) (rest : list byte) : list byte * list byte :=
  if size <? 0 then (rest, [])
  else (firstn (Z.to_nat size) rest, skipn (Z.to_nat size) rest).

Definition is_empty (bs : list byte) : bool :=
  match bs with [] => true | _ => false end.

(** [iter(lambda: fi.read(size), b"")]: the successive reads up to, and
    without, the first empty one.  [fuel] bounds the number of reads. *)
Fixpoint iter_read (fuel : nat) (size : Z) (rest : list byte) : list (list byte) :=
  match fuel with
  | O => []
  | S fuel' =>
      let (chunk, rest') := read size rest in
      if is_empty chunk then [] else chunk :: iter_read fuel' size rest'
  end.

(** Every non-empty read consumes a byte, so one more read than the file
    has bytes always reaches the empty one. *)
Definition read_chunks (size : Z) (file : list byte) : list (list byte) :=
  iter_read (S (List.length file)) size file.

(** A socket, seen from the receiver: the buffers the coming [recv] calls
    return.  When none is left the call does not return. *)
Definition socket : Type := list (list byte).

Inductive filemode : Type := WB | AB.

End FileIO.

Module Str.

Fixpoint drop (n : nat) (s : string) : string :=
  match n, s with
  | O, _ => s
  | S n', String _ s' => drop n' s'
  | S _, EmptyString => EmptyString
  end.

(** [s.replace(a, b)] for single characters. *)
Fixpoint replace (a b : ascii) (s : string) : string :=
  match s with
  | EmptyString => EmptyString
  | String c s' => String (if Ascii.eqb c a then b else c) (replace a b s')
  end.

Definition backslash : ascii := ascii_of_nat 92.
Definition slash : ascii := "/"%char.

(** [str(n)] for a non-negative integer. *)
Definition str (n : N) : string := DecimalString.NilZero.string_of_uint (N.to_uint n).

Definition digit_value (c : ascii) : option Z :=
  let n := Z.of_N (N_of_ascii c) in
  if (48 <=? n) && (n <=? 57) then Some (n - 48) else None.

Fixpoint parse_digits (acc : Z) (s : string) : option Z :=
  match s with
  | EmptyString => Some acc
  | String c s' =>
      match digit_value c with
      | Some d => parse_digits (10 * acc + d) s'
      | None => None
      end
  end.

(** [float(s)] on a string of decimal digits: the integer they spell (a
    float holds it exactly below 2^53).  [None] stands for [ValueError];
    the engine only ever passes digits. *)
Definition float (s : string) : option Z :=
  match s with
  | EmptyString => None
  | _ => parse_digits 0 s
  end.

End Str.

(** [round(x, 0)]: the nearest integer, ties to the even one.  The result
    is an integral float, held as an integer. *)
Definition py_round (x : Q) : Z :=
  let f := Qfloor x in
  match Qcompare (x - inject_Z f) (1 # 2) with
  | Lt => f
  | Gt => f + 1
  | Eq => if Z.even f then f else f + 1
  end.

(* ===================================================================== *)
(** ** Data model                                                          *)
(* ===================================================================== *)

(** A chunk of a remote listing entry: [e_tag] is the base64 digest,
    [mtime] the store's integer timestamp in nanoseconds. *)
Record Chunk : Type := mkChunk { e_tag : string; mtime : N }.

(** A remote listing entry (the JSON object of the filer). *)
Record RemoteEntry : Type := mkEntry {
  Mode : Z;
  FullPath : string;
  FileSize : Z;
  Md5 : string;
  chunks : list Chunk
}.

Definition set_Md5 (e : RemoteEntry) (v : string) : RemoteEntry :=
  mkEntry (Mode e) (FullPath e) (FileSize e) v (chunks e).

(** Python exceptions the engine can meet and does not catch. *)
Inductive exn : Type :=
| StopIteration
| IndexError
| Base64Error
| ValueError
| OSError (errno : Z).

Definition ENOENT : Z := 2.

(** What the engine asks of its surroundings, in the order it asks. *)
Inductive event : Type :=
| EvGetFolderListing (rel_path : string) (recursive : bool) (status : Z)
| EvBulkTransfer (base_path : string) (local_only remote_only : list string)
| EvGetLock (path owner : string)
| EvSetLock (path : string)
| EvSyncBothFile (filepath remote_path : string)
| EvGetMd5Tag (path tag : string)
| EvSetMd5Tag (path tag : string)
| EvRemoveTags (path : string)
| EvSignature (src sig : string) (status : Z)
| EvDelta (sig new delta : string) (status : Z)
| EvPatch (basis delta out : string) (status : Z)
| EvMakeVersionDelta (sig rel_path : string) (status : Z)
| EvDownloadFile (path dir : string) (status : Z)
| EvUploadNewVersion (delta remote_path : string) (status : Z)
| EvDownloadNewVersion (sig remote_path : string) (status : Z)
| EvRemove (path : string)
| EvRenames (src dst : string)
| EvPrint (text : string)
| EvPrintQueue (paths : list string)
| EvSleep (seconds : Z).

(** The collaborators: the API client ([self.API]), the rdiff wrapper
    ([self.rdiff]) and the operating system, over a world [W] they read
    and change.  Responses are reduced to what the engine looks at (the
    status code, the second component of a returned pair). *)
Record Collaborators (W : Type) : Type := mkCollaborators {
  username : string;
  client_id : string;
  temp_dir_name : string;
  filer_get_folder_listing : string -> bool -> W -> (Z * list RemoteEntry) * W;
  filer_get_file_md5_tag : string -> W -> string * W;
  filer_set_file_md5_tag : string -> string -> W -> W;
  filer_remove_file_tags : string -> W -> W;
  filer_get_file_lock : string -> W -> string * W;
  filer_set_file_lock : string -> W -> W;
  filer_download_file : string -> string -> W -> (Z * string) * W;
  ws_make_version_delta : string -> string -> W -> Z * W;
  ws_upload_new_file_version : string -> string -> W -> Z * W;
  ws_download_new_file_version : string -> string -> W -> (Z * string) * W;
  pool_transfer : string -> list string -> list string -> W -> W;
  rdiff_signature : string -> string -> W -> Z * W;
  rdiff_delta : string -> string -> string -> W -> Z * W;
  rdiff_patch : string -> string -> string -> W -> Z * W;
  os_walk : string -> W -> list (string * list string * list string);
  file_bytes : string -> W -> list byte;
  os_path_getmtime : string -> W -> Q;
  os_remove : string -> W -> option Z * W;
  os_renames : string -> string -> W -> W;
  time_sleep : Z -> W -> W
}.

Arguments username {W}.
Arguments client_id {W}.
Arguments temp_dir_name {W}.
Arguments filer_get_folder_listing {W}.
Arguments filer_get_file_md5_tag {W}.
Arguments filer_set_file_md5_tag {W}.
Arguments filer_remove_file_tags {W}.
Arguments filer_get_file_lock {W}.
Arguments filer_set_file_lock {W}.
Arguments filer_download_file {W}.
Arguments ws_make_version_delta {W}.
Arguments ws_upload_new_file_version {W}.
Arguments ws_download_new_file_version {W}.
Arguments pool_transfer {W}.
Arguments rdiff_signature {W}.
Arguments rdiff_delta {W}.
Arguments rdiff_patch {W}.
Arguments os_walk {W}.
Arguments file_bytes {W}.
Arguments os_path_getmtime {W}.
Arguments os_remove {W}.
Arguments os_renames {W}.
Arguments time_sleep {W}.

(** The state the engine runs in: the world, the trace of what it asked of
    the collaborators (latest first), and the heap of listing entries, which
    Python shares by reference between the [both] list and the retry
    queue. *)
Record state (W : Type) : Type := mkState {
  world : W;
  trace : list event;
  heap : list RemoteEntry
}.

Arguments mkState {W}.
Arguments world {W}.
Arguments trace {W}.
Arguments heap {W}.

Inductive res (A : Type) : Type :=
| Ok (a : A)
| Raise (e : exn).

Arguments Ok {A}.
Arguments Raise {A}.

(** State and exceptions: a raised exception keeps the state reached. *)
Definition M (W A : Type) : Type := state W -> res A * state W.

Definition ret {W A} (a : A) : M W A := fun st => (Ok a, st).

Definition raise {W A} (e : exn) : M W A := fun st => (Raise e, st).

Definition bind {W A B} (m : M W A) (k : A -> M W B) : M W B :=
  fun st =>
    match m st with
    | (Ok a, st') => k a st'
    | (Raise e, st') => (Raise e, st')
    end.

Declare Scope sync_scope.
Delimit Scope sync_scope with sync.
Notation "x <- m ;; k" := (bind m (fun x => k))
  (at level 61, m at next level, right associativity) : sync_scope.
Notation "m ;;; k" := (bind m (fun _ => k))
  (at level 61, right associativity) : sync_scope.
Notation "' pat <- m ;; k" := (bind m (fun x => match x with pat => k end))
  (at level 61, pat pattern, m at next level, right associativity) : sync_scope.
Open Scope sync_scope.

(* ===================================================================== *)
(** ** The engine: class [Sync]                                           *)
(* ===================================================================== *)

(** String concatenation, as [+] and f-strings do it. *)
Infix "+++" := String.append (right associativity, at level 60).

Fixpoint bytes_eqb (a b : list byte) : bool :=
  match a, b with
  | [], [] => true
  | x :: a', y :: b' => Byte.eqb x y && bytes_eqb a' b'
  | _, _ => false
  end.

(** What a digest call returns: [hexdigest()] a [str], [digest()] the
    raw [bytes]. *)
Inductive pyval : Type :=
| PyStr (s : string)
| PyBytes (b : list byte).

(** [md5_whole_file(filename, bytes_)] on the content of the file. *)
Definition md5_whole_file (file : list byte) (bytes_ : bool) : pyval :=
  let hash_md5 :=
    fold_left Hashlib.update (FileIO.read_chunks 16384 file) Hashlib.new in
  if negb bytes_ then PyStr (Hashlib.hexdigest hash_md5)
  else PyBytes (Hashlib.digest hash_md5).

Definition default_size : Z := 1048576.

(** The body of [md5_file_generator]'s loop over the chunks read, as the
    values it yields. *)
Fixpoint md5_file_generator_from (whole_md5 : Hashlib.hash_object)
    (read : list (list byte)) : list (list byte) :=
  match read with
  | [] => [Hashlib.digest whole_md5]
  | chunk :: rest =>
      let whole_md5 := Hashlib.update whole_md5 chunk in
      let chunked_md5 := Hashlib.update Hashlib.new chunk in
      Hashlib.digest chunked_md5 :: md5_file_generator_from whole_md5 rest
  end.

(** [md5_file_generator(filename, size)]: the values the generator yields,
    in order.  A generator object is the values it has not yielded yet. *)
Definition md5_file_generator (file : list byte) (size : Z) : list (list byte) :=
  md5_file_generator_from Hashlib.new (FileIO.read_chunks size file).

Definition generator : Type := list (list byte).

Definition stop_sentinel : list byte := bytes_of_string "stop".

(** The loop of [receive_file]: [written] is the list of buffers passed to
    [file.write] so far.  Returns it with [true] when the loop broke, with
    [false] when [recv] has nothing to return and the call hangs. *)
Fixpoint receive_loop (tcp_socket : FileIO.socket) (written : list (list byte))
  : list (list byte) * bool :=
  match tcp_socket with
  | [] => (written, false)
  | buf :: rest =>
      if FileIO.is_empty buf || bytes_eqb buf stop_sentinel
      then (written, true)
      else receive_loop rest (written ++ [buf])
  end.

(** [receive_file(tcp_socket, filepath, filemode)]: the content of the
    file afterwards ([old] is its content before) and whether the call
    returned. *)
Definition receive_file (tcp_socket : FileIO.socket) (old : list byte)
    (filemode : FileIO.filemode) : list byte * bool :=
  let start := match filemode with FileIO.WB => [] | FileIO.AB => old end in
  let (written, returned) := receive_loop tcp_socket [] in
  (start ++ List.concat written, returned).

(** [remove_prefix(text, prefix)] *)
Definition remove_prefix (text prefix : string) : string :=
  if String.prefix prefix text then Str.drop (String.length prefix) text
  else text.

(** A [dict] keyed by path, in insertion order: assigning to a key that is
    present replaces its value in place. *)
Fixpoint dict_set {V : Type} (d : list (string * V)) (k : string) (v : V)
  : list (string * V) :=
  match d with
  | [] => [(k, v)]
  | (k', v') :: rest =>
      if String.eqb k' k then (k, v) :: rest else (k', v') :: dict_set rest k v
  end.

Definition mem (x : string) (l : list string) : bool :=
  existsb (String.eqb x) l.

Definition keys {V : Type} (d : list (string * V)) : list string := map fst d.

(** [set.add] *)
Definition set_add (s : list string) (x : string) : list string :=
  if mem x s then s else s ++ [x].

(** Where [sync_both_file] returned: at the already-synced exit, after an
    upload, after a download, or with a failure. *)
Inductive outcome : Type :=
| AlreadySynced
| Uploaded
| Downloaded
| Failed.

(** The integer [sync_both_file] returns. *)
Definition ret_code (o : outcome) : Z :=
  match o with Failed => 0 | _ => 1 end.

Inductive direction : Type := Upload | Download.

(** Lines 244-246 of [sync_both_file]: the rounded local mtime against the
    first chunk's mtime cut to ten characters. *)
Definition choose_direction (getmtime : Q) (remote_meta : RemoteEntry)
  : res direction :=
  let local_mtime := py_round getmtime in
  match chunks remote_meta with
  | [] => Raise IndexError
  | chunk0 :: _ =>
      match Str.float (String.substring 0 10 (Str.str (mtime chunk0))) with
      | None => Raise ValueError
      | Some remote_mtime =>
          if remote_mtime + 50 <? local_mtime then Ok Upload else Ok Download
      end
  end.

Section Engine.

Context {W : Type} (C : Collaborators W).

(** A collaborator call that returns a value, one that does not, and a
    read of the world. *)
Definition call {A : Type} (op : W -> A * W) (ev : A -> event) : M W A :=
  fun st =>
    let (a, w) := op (world st) in
    (Ok a, mkState w (ev a :: trace st) (heap st)).

Definition call_ (op : W -> W) (ev : event) : M W unit :=
  fun st => (Ok tt, mkState (op (world st)) (ev :: trace st) (heap st)).

Definition observe {A : Type} (f : W -> A) : M W A :=
  fun st => (Ok (f (world st)), st).

Definition emit (ev : event) : M W unit :=
  fun st => (Ok tt, mkState (world st) (ev :: trace st) (heap st)).

(** Listing entries are objects: they go to the heap and are named by
    their position there. *)
Definition alloc (entries : list RemoteEntry) : M W (list nat) :=
  fun st =>
    (Ok (seq (List.length (heap st)) (List.length entries)),
     mkState (world st) (trace st) (heap st ++ entries)).

Definition empty_entry : RemoteEntry := mkEntry 0 "" 0 "" [].

Definition heap_get (ref : nat) : M W RemoteEntry :=
  fun st => (Ok (nth ref (heap st) empty_entry), st).

Fixpoint list_set {A : Type} (l : list A) (i : nat) (v : A) : list A :=
  match l, i with
  | [], _ => []
  | _ :: rest, O => v :: rest
  | x :: rest, S i' => x :: list_set rest i' v
  end.

Definition heap_set (ref : nat) (e : RemoteEntry) : M W unit :=
  fun st => (Ok tt, mkState (world st) (trace st) (list_set (heap st) ref e)).

(** [silent_remove(filename)]: a missing file is fine, any other error is
    raised again. *)
Definition silent_remove (filename : string) : M W unit :=
  err <- call (os_remove C filename) (fun _ => EvRemove filename) ;;
  match err with
  | None => ret tt
  | Some errno => if errno =? ENOENT then ret tt else raise (OSError errno)
  end.

(** The local relative paths: the loop over [os.walk]. *)
Definition local_files_of (walk : list (string * list string * list string))
    (base_path : string) (recursive : bool) : list string :=
  fold_left
    (fun local_files '(dir_path, _, filenames) =>
       let dir_path := Str.replace Str.backslash Str.slash dir_path in
       let rel_path := remove_prefix dir_path (base_path +++ "/") in
       fold_left (fun s file => set_add s (rel_path +++ "/" +++ file))
                 filenames local_files)
    (if recursive then walk else firstn 1 walk)
    [].

(** The remote relative paths with their entries: the loop over the
    listing. *)
Definition remote_files_of (listing : list (nat * RemoteEntry))
  : list (string * nat) :=
  fold_left
    (fun remote_files '(ref, entry) =>
       if Mode entry <=? 9999
       then dict_set remote_files
              (remove_prefix (FullPath entry) ("/" +++ username C +++ "/")) ref
       else remote_files)
    listing [].

(** [sync_folder_listing]: the response status, [(base_path, local_only)]
    (or the empty tuple), [remote_only] and [both].  The entries of [both]
    are references into the heap. *)
Definition sync_folder_listing (full_folder_path base_path : string)
    (recursive : bool)
  : M W (Z * option (string * list string) * list string * list (string * nat)) :=
  let base_path := Str.replace Str.backslash Str.slash base_path in
  let full_folder_path := Str.replace Str.backslash Str.slash full_folder_path in
  let rel_path := remove_prefix full_folder_path (base_path +++ "/") in
  '(r, listing) <- call (filer_get_folder_listing C rel_path recursive)
                        (fun x => EvGetFolderListing rel_path recursive (fst x)) ;;
  if 300 <=? r then ret (r, None, [], [])
  else
    refs <- alloc listing ;;
    let remote_files := remote_files_of (combine refs listing) in
    walk <- observe (os_walk C full_folder_path) ;;
    let local_files := local_files_of walk base_path recursive in
    let local_only :=
      filter (fun l => negb (mem l (keys remote_files))) local_files in
    let remote_only :=
      filter (fun r => negb (mem r local_files)) (keys remote_files) in
    let both :=
      filter (fun '(path, _) => negb (mem path (remote_only ++ local_only)))
             remote_files in
    ret (r, Some (base_path, local_only), remote_only, both).

Definition _sync_make_version_delta (filepath rel_path : string) : M W Z :=
  let sig_path := temp_dir_name C +++ "/" +++ rel_path +++ ".sig" in
  res <- call (rdiff_signature C filepath sig_path)
              (EvSignature filepath sig_path) ;;
  if negb (res =? 0) then ret 0
  else
    status <- call (ws_make_version_delta C sig_path rel_path)
                   (EvMakeVersionDelta sig_path rel_path) ;;
    if negb (status =? 200) then ret 0 else ret 1.

Definition _sync_both_file_upload (filepath remote_path : string) : M W Z :=
  '(r, sig_path) <- call (filer_download_file C (remote_path +++ ".sig.v")
                                              (temp_dir_name C))
                         (fun x => EvDownloadFile (remote_path +++ ".sig.v")
                                                  (temp_dir_name C) (fst x)) ;;
  let delta_path := temp_dir_name C +++ "/" +++ remote_path +++ ".delta" in
  res <- call (rdiff_delta C sig_path filepath delta_path)
              (EvDelta sig_path filepath delta_path) ;;
  if negb (res =? 0) then ret 0
  else
    status <- call (ws_upload_new_file_version C delta_path remote_path)
                   (EvUploadNewVersion delta_path remote_path) ;;
    if negb (status =? 200) then ret 0 else ret 1.

Definition _sync_both_file_download (filepath remote_path : string) : M W Z :=
  let sig_path := temp_dir_name C +++ "/" +++ remote_path +++ ".sig" in
  _ <- call (rdiff_signature C filepath sig_path)
            (EvSignature filepath sig_path) ;;
  '(r, delta_path) <- call (ws_download_new_file_version C sig_path remote_path)
                           (fun x => EvDownloadNewVersion sig_path remote_path
                                                          (fst x)) ;;
  if negb (r =? 200) then ret 0
  else
    let new_filepath := filepath +++ "_2" in
    res <- call (rdiff_patch C filepath delta_path new_filepath)
                (EvPatch filepath delta_path new_filepath) ;;
    if negb (res =? 0) then ret 0
    else
      silent_remove filepath ;;;
      call_ (os_renames C new_filepath filepath)
            (EvRenames new_filepath filepath) ;;;
      ret 1.

(** [next(file_md5_generator)] *)
Definition next (gen : generator) : M W (list byte * generator) :=
  match gen with
  | [] => raise StopIteration
  | value :: gen' => ret (value, gen')
  end.

(** The closure [chunks_md5s_equals] of [sync_both_file]; the generator it
    shares with [update_remote_md5] is passed in and handed back. *)
Fixpoint chunks_md5s_equals (remote_chunks : list Chunk) (gen : generator)
  : M W (bool * generator) :=
  match remote_chunks with
  | [] => ret (true, gen)
  | remote_chunk_md5 :: rest =>
      match Base64.b64decode (e_tag remote_chunk_md5) with
      | None => raise Base64Error
      | Some remote =>
          '(mine, gen') <- next gen ;;
          if negb (bytes_eqb remote mine) then ret (false, gen')
          else chunks_md5s_equals rest gen'
      end
  end.

(** The closure [update_remote_md5]. *)
Definition update_remote_md5 (remote_md5_is_none : bool) (remote_path : string)
    (gen : generator) : M W generator :=
  if remote_md5_is_none then
    '(value, gen') <- next gen ;;
    let file_md5 := Base64.b64encode value in
    call_ (filer_set_file_md5_tag C remote_path file_md5)
          (EvSetMd5Tag remote_path file_md5) ;;;
    ret gen'
  else ret gen.

(** Lines 219-226: the whole-file digest is taken from the entry, or from
    the store-held tag, which is then written into the entry. *)
Definition resolve_remote_md5 (remote_path : string) (remote_meta : RemoteEntry)
  : M W (RemoteEntry * bool) :=
  if String.eqb (Md5 remote_meta) "None" then
    seaweed_md5 <- call (filer_get_file_md5_tag C remote_path)
                        (EvGetMd5Tag remote_path) ;;
    if negb (String.eqb seaweed_md5 "")
    then ret (set_Md5 remote_meta seaweed_md5, false)
    else ret (remote_meta, true)
  else ret (remote_meta, false).

(** The condition of the [if] on lines 235-237, with its short-circuit
    order. *)
Definition compare_files (file : list byte) (remote_meta : RemoteEntry)
    (remote_md5_is_none : bool) (gen : generator) : M W (bool * generator) :=
  if Z.of_nat (List.length file) =? FileSize remote_meta then
    if negb remote_md5_is_none then
      match md5_whole_file file true, Base64.b64decode (Md5 remote_meta) with
      | _, None => raise Base64Error
      | PyBytes mine, Some remote => ret (bytes_eqb mine remote, gen)
      | PyStr _, Some _ => ret (false, gen)
      end
    else chunks_md5s_equals (chunks remote_meta) gen
  else ret (false, gen).

(** Lines 244-255 of [sync_both_file]: the transfer in the direction the
    modification times choose. *)
Definition transfer (filepath remote_path : string) (remote_meta : RemoteEntry)
  : M W outcome :=
  getmtime <- observe (os_path_getmtime C filepath) ;;
  match choose_direction getmtime remote_meta with
  | Raise e => raise e
  | Ok Upload =>
      made <- _sync_make_version_delta filepath remote_path ;;
      if made =? 0 then ret Failed
      else
        sent <- _sync_both_file_upload filepath remote_path ;;
        if sent =? 0 then ret Failed
        else emit (EvPrint "Success upload!") ;;; ret Uploaded
  | Ok Download =>
      got <- _sync_both_file_download filepath remote_path ;;
      if got =? 0 then ret Failed
      else emit (EvPrint "Success download!") ;;; ret Downloaded
  end.

(** [sync_both_file(filepath, remote_path, remote_meta)].  The entry is
    mutated by the call: the updated entry is returned with the outcome.
    The first event marks the call in the trace. *)
Definition sync_both_file (filepath remote_path : string)
    (remote_meta : RemoteEntry) : M W (outcome * RemoteEntry) :=
  emit (EvSyncBothFile filepath remote_path) ;;;
  '(remote_meta, remote_md5_is_none) <- resolve_remote_md5 remote_path remote_meta ;;
  file <- observe (file_bytes C filepath) ;;
  let file_md5_generator := md5_file_generator file default_size in
  '(synced, gen) <- compare_files file remote_meta remote_md5_is_none
                                  file_md5_generator ;;
  if synced then
    call_ (filer_remove_file_tags C remote_path) (EvRemoveTags remote_path) ;;;
    update_remote_md5 remote_md5_is_none remote_path gen ;;;
    ret (AlreadySynced, remote_meta)
  else
    update_remote_md5 remote_md5_is_none remote_path gen ;;;
    result <- transfer filepath remote_path remote_meta ;;
    ret (result, remote_meta).

(** The closure [sync_both_files] of [sync_folder]: one pass over [both],
    appending to the shared list [repeat], which is handed back. *)
Fixpoint sync_both_files (base_path : string) (both repeat : list (string * nat))
  : M W (list (string * nat)) :=
  match both with
  | [] => ret repeat
  | b :: rest =>
      let '(remote_path, ref) := b in
      held <- call (filer_get_file_lock C remote_path) (EvGetLock remote_path) ;;
      if negb (String.eqb held "") then
        sync_both_files base_path rest (repeat ++ [b])
      else
        call_ (filer_set_file_lock C remote_path) (EvSetLock remote_path) ;;;
        lock <- call (filer_get_file_lock C remote_path) (EvGetLock remote_path) ;;
        if String.eqb lock (client_id C) then
          remote_meta <- heap_get ref ;;
          '(result, remote_meta') <-
             sync_both_file (base_path +++ "/" +++ remote_path) remote_path
                            remote_meta ;;
          heap_set ref remote_meta' ;;;
          if ret_code result =? 0
          then sync_both_files base_path rest (repeat ++ [b])
          else sync_both_files base_path rest repeat
        else sync_both_files base_path rest (repeat ++ [b])
  end.

(** The [while len(repeat) > 0] loop of [sync_folder].  It has no bound in
    the source; [fuel] bounds the rounds here, and [None] says the loop was
    still running when the fuel ran out. *)
Fixpoint retry_loop (fuel : nat) (base_path : string) (repeat_time : Z)
    (repeat : list (string * nat)) : M W (option Z) :=
  match repeat with
  | [] => ret (Some 1)
  | _ :: _ =>
      match fuel with
      | O => ret None
      | S fuel' =>
          call_ (time_sleep C repeat_time) (EvSleep repeat_time) ;;;
          let both := repeat in
          emit (EvPrintQueue (keys both)) ;;;
          repeat' <- sync_both_files base_path both repeat ;;
          retry_loop fuel' base_path repeat_time repeat'
      end
  end.

(** [sync_folder(full_folder_path, base_path, recursive, nthreads,
    repeat_time)].  The worker pool is one collaborator call: its tasks run
    concurrently and their results are not looked at. *)
Definition sync_folder (fuel : nat) (full_folder_path base_path : string)
    (recursive : bool) (repeat_time : Z) : M W (option Z) :=
  '(r, local, remote_only, both) <-
     sync_folder_listing full_folder_path base_path recursive ;;
  if 300 <=? r then ret (Some 0)
  else
    match local with
    | None => raise ValueError
    | Some (base_path, local_only) =>
        call_ (pool_transfer C base_path local_only remote_only)
              (EvBulkTransfer base_path local_only remote_only) ;;;
        repeat <- sync_both_files base_path both [] ;;
        retry_loop fuel base_path repeat_time repeat
    end.

End Engine.

(* ===================================================================== *)
(** ** The rest of the class: chunk reader, push protocol, workspace      *)
(* ===================================================================== *)

(** The loop of [chunk_file_reader]: [chunk] is the last read, [rest] the
    bytes after it; [fuel] bounds the number of reads. *)
Fixpoint chunk_file_reader_loop (fuel : nat) (size : Z) (chunk rest : list byte)
  : list (list byte) :=
  match fuel with
  | O => []
  | S fuel' =>
      if FileIO.is_empty chunk then []
      else
        let (chunk', rest') := FileIO.read size rest in
        chunk :: chunk_file_reader_loop fuel' size chunk' rest'
  end.

(** [chunk_file_reader(filepath, buff_size_mb)]: the chunks the generator
    yields, in order. *)
Definition chunk_file_reader (file : list byte) (buff_size_mb : Z)
  : list (list byte) :=
  let (chunk, rest) := FileIO.read buff_size_mb file in
  chunk_file_reader_loop (S (List.length file)) buff_size_mb chunk rest.

Definition default_buff_size_mb : Z := 3145728.

(** [struct.pack('>q', n)] and its inverse: eight bytes, big-endian, two's
    complement; [None] stands for [struct.error]. *)
Module Struct.

Definition byte_of_Z (z : Z) : byte :=
  match Byte.of_N (Z.to_N (z mod 256)) with
  | Some b => b
  | None => x00
  end.

Fixpoint be_bytes (count : nat) (n : Z) : list byte :=
  match count with
  | O => []
  | S c => byte_of_Z (n / 256 ^ Z.of_nat c) :: be_bytes c n
  end.

Definition be_value (bs : list byte) : Z :=
  fold_left (fun acc b => acc * 256 + Z.of_N (Byte.to_N b)) bs 0.

Definition pack_q (n : Z) : option (list byte) :=
  if (- 2 ^ 63 <=? n) && (n <? 2 ^ 63) then Some (be_bytes 8 (n mod 2 ^ 64))
  else None.

Definition unpack_q (bs : list byte) : option Z :=
  if Nat.eqb (List.length bs) 8 then
    let u := be_value bs in
    Some (if u <? 2 ^ 63 then u else u - 2 ^ 64)
  else None.

End Struct.

Module Protocol.

(** What can interrupt a push: [struct.error], or the [IndexError] of
    indexing an empty string. *)
Inductive error : Type :=
| StructError
| StringIndexError.

(** A call returned, or waits on [ws.recv()] for a message that has not
    come, or raised. *)
Inductive outcome (A : Type) : Type :=
| Returned (a : A)
| Waiting
| Raised (e : error).

Arguments Returned {A}.
Arguments Waiting {A}.
Arguments Raised {A}.

(** The two channels, from the sender's side: the control messages still
    to come, the control messages sent, and the bytes put on the data
    channel. *)
Record channels : Type := mkChannels {
  ws_in : list string;
  ws_out : list string;
  tcp_out : list byte
}.

Definition P (A : Type) : Type := channels -> outcome A * channels.

Definition ret {A : Type} (a : A) : P A := fun ch => (Returned a, ch).

Definition bind {A B : Type} (m : P A) (k : A -> P B) : P B :=
  fun ch =>
    match m ch with
    | (Returned a, ch') => k a ch'
    | (Waiting, ch') => (Waiting, ch')
    | (Raised e, ch') => (Raised e, ch')
    end.

Declare Scope protocol_scope.
Delimit Scope protocol_scope with protocol.
Notation "x <- m ;; k" := (bind m (fun x => k))
  (at level 61, m at next level, right associativity) : protocol_scope.
Notation "m ;;; k" := (bind m (fun _ => k))
  (at level 61, right associativity) : protocol_scope.
Local Open Scope protocol_scope.

(** [ws.recv()] *)
Definition ws_recv : P string :=
  fun ch =>
    match ws_in ch with
    | [] => (Waiting, ch)
    | message :: rest => (Returned message, mkChannels rest (ws_out ch) (tcp_out ch))
    end.

(** [ws.send(message)] *)
Definition ws_send (message : string) : P unit :=
  fun ch => (Returned tt, mkChannels (ws_in ch) (ws_out ch ++ [message]) (tcp_out ch)).

(** [tcp_socket.sendall(data)] and [tcp_socket.sendfile(binf)] *)
Definition sendall (data : list byte) : P unit :=
  fun ch => (Returned tt, mkChannels (ws_in ch) (ws_out ch) (tcp_out ch ++ data)).

Definition pack (n : Z) : P (list byte) :=
  match Struct.pack_q n with
  | Some bs => ret bs
  | None => fun ch => (Raised StructError, ch)
  end.

Section Sender.

(** The content of the local files, by path, and the directory walk. *)
Variable fs : string -> list byte.
Variable os_walk : string -> list (string * list string * list string).

(** [send_file(tcp_socket, filepath)] *)
Definition send_file (filepath : string) : P unit :=
  let binf := fs filepath in
  let filesize := Z.of_nat (List.length binf) in
  header <- pack 8192 ;;
  sendall header ;;;
  size <- pack filesize ;;
  sendall size ;;;
  sendall binf.

(** [upload_file(filepath, full_remote_path, ws, tcp_socket)] *)
Definition upload_file (filepath full_remote_path : string) : P Z :=
  granted <- ws_recv ;;
  if negb (String.eqb granted "next") then ret 0
  else
    ws_send full_remote_path ;;;
    send_file filepath ;;;
    answer <- ws_recv ;;
    if String.eqb answer "stop" then ret 1 else ret 0.

(** The loop over the files of one directory in [upload_folder]; [false]
    says the function returned from inside the loop. *)
Fixpoint upload_folder_files (dir_path : string) (filenames : list string)
  : P bool :=
  match filenames with
  | [] => ret true
  | fi :: rest =>
      granted <- ws_recv ;;
      if negb (String.eqb granted "next") then ret false
      else
        ws_send fi ;;;
        send_file (dir_path +++ "/" +++ fi) ;;;
        upload_folder_files dir_path rest
  end.

(** The loop over the directories of the walk in [upload_folder]. *)
Fixpoint upload_folder_dirs (base_path : string) (recursive : bool)
    (walk : list (string * list string * list string)) : P unit :=
  match walk with
  | [] => ret tt
  | (dir_path, _, filenames) :: rest =>
      granted <- ws_recv ;;
      if negb (String.eqb granted "next") then ret tt
      else
        let rel_path :=
          remove_prefix (Str.replace Str.backslash Str.slash dir_path)
                        (base_path +++ "/") in
        ws_send rel_path ;;;
        ws_send (Str.str (N.of_nat (List.length filenames))) ;;;
        completed <- upload_folder_files dir_path filenames ;;
        if negb completed then ret tt
        else if negb recursive then ret tt
        else upload_folder_dirs base_path recursive rest
  end.

(** [s[-1]] and [s[:-1]] *)
Fixpoint last_char (s : string) : option ascii :=
  match s with
  | EmptyString => None
  | String c EmptyString => Some c
  | String _ rest => last_char rest
  end.

Fixpoint drop_last (s : string) : string :=
  match s with
  | EmptyString => EmptyString
  | String _ EmptyString => EmptyString
  | String c rest => String c (drop_last rest)
  end.

(** [upload_folder(root_dir, base_path, ws, tcp_socket, recursive)] *)
Definition upload_folder (root_dir base_path : string) (recursive : bool)
  : P unit :=
  let root_dir := Str.replace Str.backslash Str.slash root_dir in
  match last_char root_dir with
  | None => fun ch => (Raised StringIndexError, ch)
  | Some c =>
      let root_dir := if Ascii.eqb c Str.slash then drop_last root_dir else root_dir in
      let base_path := Str.replace Str.backslash Str.slash base_path in
      upload_folder_dirs base_path recursive (os_walk root_dir)
  end.

End Sender.

End Protocol.

(** The scratch workspace. *)
Module Workspace.

(** [needle in hay] for strings. *)
Fixpoint contains (needle hay : string) : bool :=
  String.prefix needle hay
  || match hay with
     | EmptyString => false
     | String _ rest => contains needle rest
     end.

Fixpoint has_slash (s : string) : bool :=
  match s with
  | EmptyString => false
  | String c rest => Ascii.eqb c Str.slash || has_slash rest
  end.

(** [os.path.basename] of a path whose separators are [/]: what follows
    the last one. *)
Fixpoint basename (p : string) : string :=
  match p with
  | EmptyString => EmptyString
  | String c rest =>
      if has_slash rest then basename rest
      else if Ascii.eqb c Str.slash then rest else p
  end.

Definition temp_dir_prefix : string := "Seaweed_Cloud_Storage_".

Section Cleaning.

(** [os.path.join], and [shutil.rmtree] by its outcome on a path ([Some
    errno] when it raises [OSError]). *)
Variable join : string -> string -> string.
Variable rmtree : string -> option Z.

(** The loop of [clean_temp_dir] over the folders of the temp root:
    [removed] lists the folders whose tree has been removed. *)
Fixpoint clean_folders (temp_dir_name dir_path : string) (folders : list string)
    (removed : list string) : list string * res unit :=
  match folders with
  | [] => (removed, Ok tt)
  | folder :: rest =>
      if contains temp_dir_prefix folder
         && negb (contains (basename temp_dir_name) folder)
      then
        match rmtree (join dir_path folder) with
        | None => clean_folders temp_dir_name dir_path rest (removed ++ [folder])
        | Some errno => (removed, Raise (OSError errno))
        end
      else clean_folders temp_dir_name dir_path rest removed
  end.

(** [clean_temp_dir()]: [walk] is [os.walk(gettempdir())], of which only
    the first item is taken. *)
Definition clean_temp_dir (temp_dir_name : string)
    (walk : list (string * list string * list string))
  : list string * res unit :=
  match walk with
  | [] => ([], Raise StopIteration)
  | (dir_path, folders, _) :: _ =>
      clean_folders temp_dir_name dir_path folders []
  end.

End Cleaning.

End Workspace.

(* ===================================================================== *)
(** ** A scripted world, to run the engine on concrete inputs             *)
(* ===================================================================== *)

Module Sim.

(** The collaborators answer from scripts: each kind of call takes the
    next answer of its list, and the default once the list is used up. *)
Record world : Type := mkWorld {
  files : list (string * list byte);
  mtimes : list (string * Q);
  walk : list (string * list string * list string);
  listing : Z * list RemoteEntry;
  locks : list string;
  tags : list string;
  rdiff : list Z;
  statuses : list Z;
  removes : list (option Z)
}.

Fixpoint lookup {V : Type} (d : list (string * V)) (k : string) (default : V) : V :=
  match d with
  | [] => default
  | (k', v) :: rest => if String.eqb k' k then v else lookup rest k default
  end.

Definition pop_lock (w : world) : string * world :=
  match locks w with
  | [] => ("", w)
  | a :: rest =>
      (a, mkWorld (files w) (mtimes w) (walk w) (listing w) rest (tags w)
                  (rdiff w) (statuses w) (removes w))
  end.

Definition pop_tag (w : world) : string * world :=
  match tags w with
  | [] => ("", w)
  | a :: rest =>
      (a, mkWorld (files w) (mtimes w) (walk w) (listing w) (locks w) rest
                  (rdiff w) (statuses w) (removes w))
  end.

Definition pop_rdiff (w : world) : Z * world :=
  match rdiff w with
  | [] => (0, w)
  | a :: rest =>
      (a, mkWorld (files w) (mtimes w) (walk w) (listing w) (locks w) (tags w)
                  rest (statuses w) (removes w))
  end.

Definition pop_status (w : world) : Z * world :=
  match statuses w with
  | [] => (200, w)
  | a :: rest =>
      (a, mkWorld (files w) (mtimes w) (walk w) (listing w) (locks w) (tags w)
                  (rdiff w) rest (removes w))
  end.

Definition pop_remove (w : world) : option Z * world :=
  match removes w with
  | [] => (None, w)
  | a :: rest =>
      (a, mkWorld (files w) (mtimes w) (walk w) (listing w) (locks w) (tags w)
                  (rdiff w) (statuses w) rest)
  end.

Definition with_path (path : string) (p : Z * world) : (Z * string) * world :=
  ((fst p, path), snd p).

Definition collaborators (user me tmp : string) : Collaborators world :=
  {| username := user;
     client_id := me;
     temp_dir_name := tmp;
     filer_get_folder_listing := fun _ _ w => (listing w, w);
     filer_get_file_md5_tag := fun _ w => pop_tag w;
     filer_set_file_md5_tag := fun _ _ w => w;
     filer_remove_file_tags := fun _ w => w;
     filer_get_file_lock := fun _ w => pop_lock w;
     filer_set_file_lock := fun _ w => w;
     filer_download_file := fun path dir w => with_path (dir +++ "/" +++ path) (pop_status w);
     ws_make_version_delta := fun _ _ w => pop_status w;
     ws_upload_new_file_version := fun _ _ w => pop_status w;
     ws_download_new_file_version :=
       fun sig _ w => with_path (sig +++ ".delta") (pop_status w);
     pool_transfer := fun _ _ _ w => w;
     rdiff_signature := fun _ _ w => pop_rdiff w;
     rdiff_delta := fun _ _ _ w => pop_rdiff w;
     rdiff_patch := fun _ _ _ w => pop_rdiff w;
     os_walk := fun _ w => walk w;
     file_bytes := fun path w => lookup (files w) path [];
     os_path_getmtime := fun path w => lookup (mtimes w) path 0%Q;
     os_remove := fun _ w => pop_remove w;
     os_renames := fun _ _ w => w;
     time_sleep := fun _ w => w |}.

Definition start (w : world) : state world := mkState w [] [].

End Sim.

(* ===================================================================== *)
(** ** Vocabulary of the properties                                        *)
(* ===================================================================== *)

(** A buffer that ends the receiver loop. *)
Definition is_sentinel (buf : list byte) : Prop :=
  buf = [] \/ buf = stop_sentinel.

Section PathVocabulary.

Context {W : Type} (C : Collaborators W).

(** The remote relative path of a listing entry. *)
Definition remote_rel_path (entry : RemoteEntry) : string :=
  remove_prefix (FullPath entry) ("/" +++ username C +++ "/").

End PathVocabulary.

(** The local relative path of a file found by the walk. *)
Definition local_rel_path (base_path dir_path file : string) : string :=
  remove_prefix (Str.replace Str.backslash Str.slash dir_path) (base_path +++ "/")
  +++ "/" +++ file.

(** The directories the loop over [os.walk] visits. *)
Definition walked (walk : list (string * list string * list string))
    (recursive : bool) : list (string * list string * list string) :=
  if recursive then walk else firstn 1 walk.

(** Value of a digit sequence read from the left, after [acc]. *)
Fixpoint uval (acc : Z) (u : Decimal.uint) : Z :=
  match u with
  | Decimal.Nil => acc
  | Decimal.D0 u' => uval (10 * acc + 0) u'
  | Decimal.D1 u' => uval (10 * acc + 1) u'
  | Decimal.D2 u' => uval (10 * acc + 2) u'
  | Decimal.D3 u' => uval (10 * acc + 3) u'
  | Decimal.D4 u' => uval (10 * acc + 4) u'
  | Decimal.D5 u' => uval (10 * acc + 5) u'
  | Decimal.D6 u' => uval (10 * acc + 6) u'
  | Decimal.D7 u' => uval (10 * acc + 7) u'
  | Decimal.D8 u' => uval (10 * acc + 8) u'
  | Decimal.D9 u' => uval (10 * acc + 9) u'
  end.

(** The first [k] digits. *)
Fixpoint utake (k : nat) (u : Decimal.uint) : Decimal.uint :=
  match k, u with
  | O, _ => Decimal.Nil
  | S _, Decimal.Nil => Decimal.Nil
  | S k', Decimal.D0 u' => Decimal.D0 (utake k' u')
  | S k', Decimal.D1 u' => Decimal.D1 (utake k' u')
  | S k', Decimal.D2 u' => Decimal.D2 (utake k' u')
  | S k', Decimal.D3 u' => Decimal.D3 (utake k' u')
  | S k', Decimal.D4 u' => Decimal.D4 (utake k' u')
  | S k', Decimal.D5 u' => Decimal.D5 (utake k' u')
  | S k', Decimal.D6 u' => Decimal.D6 (utake k' u')
  | S k', Decimal.D7 u' => Decimal.D7 (utake k' u')
  | S k', Decimal.D8 u' => Decimal.D8 (utake k' u')
  | S k', Decimal.D9 u' => Decimal.D9 (utake k' u')
  end.

(** [d] is the number of decimal digits of [m]. *)
Definition decimal_length (m : N) (d : nat) : Prop :=
  (1 <= d)%nat
  /\ Z.of_N m < 10 ^ Z.of_nat d
  /\ ((m = 0%N /\ d = 1%nat) \/ 10 ^ Z.of_nat (d - 1) <= Z.of_N m).

(** The number spelled by the first [k] of the [d] digits of [m]. *)
Definition first_digits (k : nat) (m : N) (d : nat) : Z :=
  Z.of_N m / 10 ^ Z.of_nat (d - k).

(** The [i]-th range of [size] bytes of a file. *)
Definition byte_range (file : list byte) (size : Z) (i : nat) : list byte :=
  firstn (Z.to_nat size) (skipn (i * Z.to_nat size) file).

(** Every remote chunk digest is the MD5 of the local byte range at the
    same position, and that range is there. *)
Definition chunk_digests_match (file : list byte) (remote_chunks : list Chunk)
  : Prop :=
  forall (i : nat) (c : Chunk),
    nth_error remote_chunks i = Some c ->
    byte_range file default_size i <> []
    /\ Base64.b64decode (e_tag c)
       = Some (Hashlib.md5 (byte_range file default_size i)).

(** The whole-file digest the comparison knows, as base64: the entry's
    [Md5] unless it is the marker, else the store-held tag unless it is
    empty. *)
Definition known_digest (remote_meta : RemoteEntry) (tag : string)
  : option string :=
  if String.eqb (Md5 remote_meta) "None"
  then (if String.eqb tag "" then None else Some tag)
  else Some (Md5 remote_meta).

(** Every event but the mark of a [sync_both_file] call. *)
Definition quiet (ev : event) : Prop :=
  match ev with
  | EvSyncBothFile _ _ => False
  | _ => True
  end.

(** [m] only adds events, all of them in [P]. *)
Definition emits {W A : Type} (P : event -> Prop) (m : M W A) : Prop :=
  forall st : state W,
  exists evs, trace (snd (m st)) = evs ++ trace st /\ Forall P evs.

(** Traces (latest event first) in which every [sync_both_file] call comes
    right after this client read its own identity back from the lock it
    had found free and then set. *)
Inductive guarded (cid : string) : list event -> Prop :=
| guarded_nil : guarded cid []
| guarded_quiet (ev : event) (evs : list event) :
    quiet ev -> guarded cid evs -> guarded cid (ev :: evs)
| guarded_sync (filepath remote_path : string) (evs : list event) :
    guarded cid evs ->
    guarded cid (EvSyncBothFile filepath remote_path
                 :: EvGetLock remote_path cid
                 :: EvSetLock remote_path
                 :: EvGetLock remote_path "" :: evs).

(** The same, said of each call in the trace. *)
Definition lock_confirmed (cid : string) (evs : list event) : Prop :=
  forall (later : list event) (filepath remote_path : string)
         (earlier : list event),
    evs = later ++ EvSyncBothFile filepath remote_path :: earlier ->
    exists before,
      earlier = EvGetLock remote_path cid :: EvSetLock remote_path
                :: EvGetLock remote_path "" :: before.

(** The tags stored by [filer_set_file_md5_tag], latest first. *)
Definition persisted_tags (evs : list event) : list string :=
  flat_map (fun ev => match ev with EvSetMd5Tag _ tag => [tag] | _ => [] end) evs.

(** How many times [sync_both_file] was called. *)
Definition sync_calls (evs : list event) : nat :=
  List.length
    (filter (fun ev => match ev with EvSyncBothFile _ _ => true | _ => false end)
            evs).

(** The frame [send_file] puts on the data channel for a file: the buffer
    size hint 8192 and the byte length, eight bytes each, then the
    bytes. *)
Definition framed (file : list byte) : list byte :=
  Struct.be_bytes 8 8192
  ++ Struct.be_bytes 8 (Z.of_nat (List.length file))
  ++ file.

(** What [upload_folder] says on the control channel for one directory of
    the walk, and for all of them, when nothing stops it: the relative
    path, the number of files, the file names. *)
Definition dir_messages (base_path : string)
    (dir : string * list string * list string) : list string :=
  let '(dir_path, _, filenames) := dir in
  remove_prefix (Str.replace Str.backslash Str.slash dir_path) (base_path +++ "/")
  :: Str.str (N.of_nat (List.length filenames))
  :: filenames.

Definition transcript (base_path : string)
    (dirs : list (string * list string * list string)) : list string :=
  flat_map (dir_messages base_path) dirs.

(** What it puts on the data channel: the frames of the files, in order. *)
Definition dir_payload (fs : string -> list byte)
    (dir : string * list string * list string) : list byte :=
  let '(dir_path, _, filenames) := dir in
  List.concat (map (fun fi => framed (fs (dir_path +++ "/" +++ fi))) filenames).

Definition payload (fs : string -> list byte)
    (dirs : list (string * list string * list string)) : list byte :=
  List.concat (map (dir_payload fs) dirs).

(** The grants it needs: one per directory and one per file. *)
Definition grants_needed (dirs : list (string * list string * list string))
  : nat :=
  fold_right (fun dir n => S (List.length (snd dir) + n)) O dirs.

Definition is_prefix {A : Type} (l full : list A) : Prop :=
  exists rest, full = l ++ rest.

(** [l] is [full] with some elements left out, the order kept. *)
Inductive subseq {A : Type} : list A -> list A -> Prop :=
| subseq_nil : subseq [] []
| subseq_skip (x : A) (l full : list A) : subseq l full -> subseq l (x :: full)
| subseq_take (x : A) (l full : list A) : subseq l full -> subseq (x :: l) (x :: full).

(** Events by which [sync_both_file] transfers or changes a file. *)
Definition transfer_event (ev : event) : Prop :=
  match ev with
  | EvSignature _ _ _ | EvDelta _ _ _ _ | EvPatch _ _ _ _
  | EvMakeVersionDelta _ _ _ | EvDownloadFile _ _ _
  | EvUploadNewVersion _ _ _ | EvDownloadNewVersion _ _ _
  | EvRemove _ | EvRenames _ _ => True
  | _ => False
  end.

(** Events of the content-hash tag. *)
Definition tag_event (ev : event) : Prop :=
  match ev with
  | EvGetMd5Tag _ _ | EvSetMd5Tag _ _ => True
  | _ => False
  end.

Section ListingVocabulary.

Context {W : Type} (C : Collaborators W).

(** [entry], at position [i], is the last file entry of [listing] whose
    relative path is [path]. *)
Definition last_file_entry (listing : list RemoteEntry) (path : string)
    (i : nat) (entry : RemoteEntry) : Prop :=
  nth_error listing i = Some entry
  /\ Mode entry <= 9999
  /\ remote_rel_path C entry = path
  /\ forall (j : nat) (e : RemoteEntry),
       (i < j)%nat -> nth_error listing j = Some e -> Mode e <= 9999 ->
       remote_rel_path C e <> path.

End ListingVocabulary.

(** Every event but a sleep between two rounds of retries. *)
Definition awake (ev : event) : Prop := forall seconds, ev <> EvSleep seconds.

(** The folders [clean_temp_dir] removes: those named with the prefix of
    the scratch directories and not with the base name of this run's own
    one. *)
Definition stale_folder (temp_dir_name folder : string) : bool :=
  Workspace.contains Workspace.temp_dir_prefix folder
  && negb (Workspace.contains (Workspace.basename temp_dir_name) folder).

(** The directory [upload_folder] walks: separators turned to [/] and one
    trailing [/] removed. *)
Definition normal_root (root_dir : string) : string :=
  let root_dir := Str.replace Str.backslash Str.slash root_dir in
  match Protocol.last_char root_dir with
  | Some c => if Ascii.eqb c Str.slash then Protocol.drop_last root_dir else root_dir
  | None => root_dir
  end.

(* ===================================================================== *)
(** ** Concrete inputs                                                     *)
(* ===================================================================== *)

Module Runs.

Definition me : string := "client-1".

Definition collab : Collaborators Sim.world :=
  Sim.collaborators "u" me "/tmp/scratch".

(** The digest of "abc" in base64. *)
Definition abc_md5 : string := "kAFQmDzST7DWlj99KOF/cg==".

(** The digest of "a" in base64. *)
Definition a_md5 : string := "DMF1ucDxtqgxw5niaXcmYQ==".

Definition entry_abc : RemoteEntry :=
  mkEntry 420 "/u/docs/f" 3 abc_md5 [mkChunk abc_md5 1617000000123456789%N].

(** [docs/f] is "abd" here and "abc" (by its digest) there; the lock is
    free and then ours; the first rdiff call of the attempt, the signature,
    fails with status 1, the patch succeeds. *)
Definition signature_fails : state Sim.world :=
  mkState
    (Sim.mkWorld [("base/docs/f", bytes_of_string "abd")] [] [] (200, [])
                 [""; me] [] [1; 0] [] [])
    [] [entry_abc].

(** [docs/f] is "abc" on both sides.  Another client holds the lock in the
    first pass; in each later round the lock is free and then ours. *)
Definition contended_then_free : Sim.world :=
  Sim.mkWorld [("base/docs/f", bytes_of_string "abc")] []
              [("base/docs", [], ["f"])] (200, [entry_abc])
              ["other"; ""; me; ""; me; ""; me] [] [] [] [].

(** A local file of 1 MiB + 1 zero bytes: two chunks.  The entry has no
    whole-file digest, the store holds no tag, the sizes agree, and the
    digest of the first remote chunk differs from the local one. *)
Definition two_chunks : list byte := repeat x00 (N.to_nat 1048577).

Definition entry_two_chunks : RemoteEntry :=
  mkEntry 420 "/u/docs/big" 1048577 "None"
          [mkChunk a_md5 1617000000123456789%N;
           mkChunk a_md5 1617000000123456789%N].

Definition early_exit : state Sim.world :=
  mkState
    (Sim.mkWorld [("base/docs/big", two_chunks)] [] [] (200, [])
                 [] [] [] [] [])
    [] [].

(** Three entries: [a] is locked by another client, [b] is free but read
    back as another client's, [c] is free and read back as ours. *)
Definition three_files : state Sim.world :=
  mkState
    (Sim.mkWorld [("base/a", bytes_of_string "abc");
                  ("base/b", bytes_of_string "abc");
                  ("base/c", bytes_of_string "abc")] [] [] (200, [])
                 ["other"; ""; "other"; ""; me] [] [] [] [])
    [] [entry_abc; entry_abc; entry_abc].

(** [docs/f] is "xyz" here; the entry has no digest, no tag and no chunk. *)
Definition no_chunks : state Sim.world :=
  mkState
    (Sim.mkWorld [("base/docs/f", bytes_of_string "xyz")] [] [] (200, [])
                 [] [] [] [] [])
    [] [].

Definition entry_no_chunks : RemoteEntry := mkEntry 420 "/u/docs/f" 3 "None" [].

(** One file on each side only, one on both; a directory entry is not a
    file. *)
Definition listing_world : Sim.world :=
  Sim.mkWorld [] []
    [("base\docs", ["sub"], ["f"; "mine"]); ("base\docs\sub", [], ["g"])]
    (200, [entry_abc;
           mkEntry 420 "/u/docs/theirs" 0 "None" [];
           mkEntry 2147484141 "/u/docs/sub" 0 "None" []])
    [] [] [] [] [].

Definition listing_refused : Sim.world :=
  Sim.mkWorld [] [] [("base/docs", [], ["f"])] (404, [entry_abc])
              [] [] [] [] [].

(** [docs/f] is "abc" here: a single chunk. *)
Definition one_chunk : state Sim.world :=
  mkState
    (Sim.mkWorld [("base/docs/f", bytes_of_string "abc")] [] [] (200, [])
                 [] [] [] [] [])
    [] [].

(** An entry without digest whose only chunk has the digest [tag]. *)
Definition entry_one_chunk (tag : string) : RemoteEntry :=
  mkEntry 420 "/u/docs/f" 3 "None" [mkChunk tag 1617000000123456789%N].

End Runs.

(** Further inputs: a small tree to push, and worlds for single calls. *)
Module Cases.

(** Two files, the second of which holds the four bytes "stop". *)
Definition files (path : string) : list byte :=
  if String.eqb path "root/a.txt" then bytes_of_string "abc"
  else if String.eqb path "root/sub/b.txt" then bytes_of_string "stop"
  else [].

Definition tree (root : string) : list (string * list string * list string) :=
  [(root, ["sub"], ["a.txt"]); (root +++ "/sub", [], ["b.txt"])].

(** Nothing received, nothing sent. *)
Definition idle : Protocol.channels := Protocol.mkChannels [] [] [].

(** The frame of [root/sub/b.txt] as three reads of the receiver. *)
Definition reads_of_b : FileIO.socket :=
  [Struct.be_bytes 8 8192 ++ Struct.be_bytes 8 4;
   bytes_of_string "st"; bytes_of_string "op"].

(** [docs/f] is "abd"; every call succeeds but the removal of the old
    file, which is refused (errno 13). *)
Definition remove_denied : state Sim.world :=
  mkState
    (Sim.mkWorld [("base/docs/f", bytes_of_string "abd")] [] [] (200, [])
                 [] [] [] [] [Some 13])
    [] [].

(** [docs/f] is "abc" and the store holds its digest as the tag. *)
Definition tagged : state Sim.world :=
  mkState
    (Sim.mkWorld [("base/docs/f", bytes_of_string "abc")] [] [] (200, [])
                 [] [Runs.abc_md5] [] [] [])
    [] [].

(** An entry without chunks, one byte longer than the local file. *)
Definition entry_wrong_size : RemoteEntry := mkEntry 420 "/u/docs/f" 4 "None" [].


(** [docs/f] is "abc" on both sides and its lock is free, then ours. *)
Definition in_sync : Sim.world :=
  Sim.mkWorld [("base/docs/f", bytes_of_string "abc")] []
              [("base/docs", [], ["f"])] (200, [Runs.entry_abc])
              [""; Runs.me] [] [] [] [].

End Cases.

(* ===================================================================== *)
(** * Properties                                                           *)
(* ===================================================================== *)

(** ** Library models against their test vectors *)

Example md5_test_vectors :
  Hashlib.hexdigest [] = "d41d8cd98f00b204e9800998ecf8427e"
  /\ Hashlib.hexdigest (bytes_of_string "a") = "0cc175b9c0f1b6a831c399e269772661"
  /\ Hashlib.hexdigest (bytes_of_string "abc") = "900150983cd24fb0d6963f7d28e17f72"
  /\ Hashlib.hexdigest (bytes_of_string "message digest")
     = "f96b697d7cb7938d525a2f31aaf161d0"
  /\ Hashlib.hexdigest (bytes_of_string "abcdefghijklmnopqrstuvwxyz")
     = "c3fcd3d76192e4007dfb496cca67e13b"
  /\ Hashlib.hexdigest
       (bytes_of_string
          "12345678901234567890123456789012345678901234567890123456789012345678901234567890")
     = "57edf4a22be3c955ac49da2e2107b67a".
Proof. vm_compute. repeat split; reflexivity. Qed.

Example base64_test_vectors :
  Base64.b64encode (Hashlib.md5 (bytes_of_string "a")) = "DMF1ucDxtqgxw5niaXcmYQ=="
  /\ Base64.b64decode "DMF1ucDxtqgxw5niaXcmYQ==" = Some (Hashlib.md5 (bytes_of_string "a"))
  /\ Base64.b64decode "QUJD" = Some (bytes_of_string "ABC")
  /\ Base64.b64decode "QUI=" = Some (bytes_of_string "AB")
  /\ Base64.b64decode "QUI" = None
  /\ Base64.b64encode (bytes_of_string "AB") = "QUI="
  /\ Base64.b64encode (bytes_of_string "ABCD") = "QUJDRA==".
Proof. vm_compute. repeat split; reflexivity. Qed.

(** ** Reading a file in chunks *)

Section Reading.

Import FileIO.

Lemma is_empty_true (bs : list byte) : is_empty bs = true <-> bs = [].
Proof. destruct bs; simpl; split; congruence. Qed.

Lemma read_app (size : Z) (rest : list byte) :
  fst (read size rest) ++ snd (read size rest) = rest.
Proof.
  unfold read. destruct (size <? 0); simpl.
  - apply app_nil_r.
  - apply firstn_skipn.
Qed.

(** Away from size 0, a read is empty only at the end of the file. *)
Lemma read_empty (size : Z) (rest : list byte) :
  size <> 0 -> fst (read size rest) = [] -> rest = [].
Proof.
  intros Hsize. unfold read. destruct (size <? 0) eqn:Hneg; simpl.
  - auto.
  - apply Z.ltb_ge in Hneg.
    destruct (Z.to_nat size) eqn:Hn; [lia|].
    destruct rest; simpl; congruence.
Qed.

Lemma read_rest_shorter (size : Z) (rest : list byte) :
  fst (read size rest) <> [] ->
  (List.length (snd (read size rest)) < List.length rest)%nat.
Proof.
  intros Hne.
  rewrite <- (read_app size rest) at 2. rewrite length_app.
  destruct (fst (read size rest)); [congruence|]. simpl. lia.
Qed.

Lemma iter_read_unfold (fuel : nat) (size : Z) (rest : list byte) :
  iter_read (S fuel) size rest =
  if is_empty (fst (read size rest)) then []
  else fst (read size rest) :: iter_read fuel size (snd (read size rest)).
Proof. simpl. destruct (read size rest). reflexivity. Qed.

(** With more fuel than bytes the reads put together are the file, and
    none of them is empty. *)
Lemma iter_read_concat (size : Z) :
  size <> 0 ->
  forall (fuel : nat) (rest : list byte),
    (List.length rest < fuel)%nat ->
    List.concat (iter_read fuel size rest) = rest
    /\ Forall (fun chunk => chunk <> []) (iter_read fuel size rest).
Proof.
  intros Hsize. induction fuel as [|fuel IH]; intros rest Hlen; [lia|].
  rewrite iter_read_unfold.
  destruct (is_empty (fst (read size rest))) eqn:Hempty.
  - apply is_empty_true in Hempty. apply read_empty in Hempty; [|assumption].
    subst rest. split; [reflexivity | constructor].
  - assert (Hne : fst (read size rest) <> []).
    { intro H. apply is_empty_true in H. congruence. }
    pose proof (read_rest_shorter size rest Hne) as Hshort.
    destruct (IH (snd (read size rest))) as [Hcat Hall]; [lia|].
    split.
    + simpl. rewrite Hcat. apply read_app.
    + constructor; assumption.
Qed.

Lemma read_chunks_concat (size : Z) (file : list byte) :
  size <> 0 -> List.concat (read_chunks size file) = file.
Proof. intros H. apply iter_read_concat; [assumption | lia]. Qed.

Lemma read_chunks_nonempty (size : Z) (file : list byte) :
  size <> 0 -> Forall (fun chunk => chunk <> []) (read_chunks size file).
Proof. intros H. apply iter_read_concat; [assumption | lia]. Qed.

(** At size 0 the first read is already empty. *)
Lemma read_chunks_zero (file : list byte) : read_chunks 0 file = [].
Proof. unfold read_chunks. rewrite iter_read_unfold. reflexivity. Qed.

(** A negative size reads the whole file as one chunk. *)
Lemma read_chunks_negative (size : Z) (file : list byte) :
  size < 0 -> file <> [] -> read_chunks size file = [file].
Proof.
  intros Hneg Hfile. unfold read_chunks. rewrite iter_read_unfold.
  unfold read. apply Z.ltb_lt in Hneg. rewrite Hneg. simpl.
  destruct file as [|b file]; [congruence|]. simpl.
  destruct (List.length file); simpl; unfold read; rewrite Hneg; reflexivity.
Qed.

End Reading.

(** ** Digests *)

Lemma fold_update (chunks : list (list byte)) (h : Hashlib.hash_object) :
  fold_left Hashlib.update chunks h = h ++ List.concat chunks.
Proof.
  revert h. induction chunks as [|c chunks IH]; intros h; simpl.
  - symmetry. apply app_nil_r.
  - rewrite IH. unfold Hashlib.update. symmetry. apply app_assoc.
Qed.

(** [md5_whole_file] hashes the content of the file, whatever the size of
    its reads. *)
Lemma md5_whole_file_bytes (file : list byte) :
  md5_whole_file file true = PyBytes (Hashlib.md5 file).
Proof.
  unfold md5_whole_file. simpl negb. cbv iota.
  rewrite fold_update. unfold Hashlib.new, Hashlib.digest. simpl app.
  rewrite read_chunks_concat by discriminate. reflexivity.
Qed.

Lemma md5_whole_file_hex (file : list byte) :
  md5_whole_file file false = PyStr (Hashlib.hex_of_bytes (Hashlib.md5 file)).
Proof.
  unfold md5_whole_file. simpl negb. cbv iota.
  rewrite fold_update. unfold Hashlib.new, Hashlib.hexdigest, Hashlib.digest.
  simpl app.
  rewrite read_chunks_concat by discriminate. reflexivity.
Qed.

Lemma md5_file_generator_from_spec (read : list (list byte))
    (whole_md5 : Hashlib.hash_object) :
  md5_file_generator_from whole_md5 read =
  map Hashlib.md5 read ++ [Hashlib.md5 (whole_md5 ++ List.concat read)].
Proof.
  revert whole_md5. induction read as [|chunk rest IH]; intros whole_md5; simpl.
  - rewrite app_nil_r. reflexivity.
  - rewrite IH. unfold Hashlib.update, Hashlib.new, Hashlib.digest. simpl app.
    rewrite <- app_assoc. reflexivity.
Qed.

(** The values the generator yields: one digest per chunk read, then the
    digest of everything read. *)
Lemma md5_file_generator_spec (file : list byte) (size : Z) :
  md5_file_generator file size =
  map Hashlib.md5 (FileIO.read_chunks size file)
  ++ [Hashlib.md5 (List.concat (FileIO.read_chunks size file))].
Proof. unfold md5_file_generator. apply md5_file_generator_from_spec. Qed.

(** C5: for every file and every chunk size, the generator yields one
    digest for each chunk read, none of them of an empty chunk, the chunks
    make up the file, and the final value it yields is the whole-file
    digest [md5_whole_file] computes ([digest()] form; the [hexdigest()]
    form is its hexadecimal spelling). *)
Theorem md5_file_generator_last_is_whole (file : list byte) (size : positive) :
  let chunks := FileIO.read_chunks (Z.pos size) file in
  exists whole : list byte,
    md5_file_generator file (Z.pos size) = map Hashlib.md5 chunks ++ [whole]
    /\ md5_whole_file file true = PyBytes whole
    /\ md5_whole_file file false = PyStr (Hashlib.hex_of_bytes whole)
    /\ last (md5_file_generator file (Z.pos size)) [] = whole
    /\ Forall (fun chunk => chunk <> []) chunks
    /\ List.concat chunks = file.
Proof.
  intros chunks. exists (Hashlib.md5 file).
  assert (Hcat : List.concat chunks = file)
    by (apply read_chunks_concat; discriminate).
  assert (Hgen : md5_file_generator file (Z.pos size)
                 = map Hashlib.md5 chunks ++ [Hashlib.md5 file]).
  { rewrite md5_file_generator_spec. fold chunks. rewrite Hcat. reflexivity. }
  repeat split.
  - exact Hgen.
  - apply md5_whole_file_bytes.
  - apply md5_whole_file_hex.
  - rewrite Hgen. apply last_last.
  - apply read_chunks_nonempty. discriminate.
  - exact Hcat.
Qed.

(** The same for a negative size, where the whole file is one read. *)
Lemma md5_file_generator_negative_size (file : list byte) (size : Z) :
  size < 0 ->
  last (md5_file_generator file size) [] = Hashlib.md5 file.
Proof.
  intros Hneg. rewrite md5_file_generator_spec.
  rewrite read_chunks_concat by lia. apply last_last.
Qed.

(** Sizes of chunks: a positive size cuts the file into ranges of that
    many bytes. *)
Example md5_file_generator_abc :
  md5_file_generator (bytes_of_string "abc") 2
  = [Hashlib.md5 (bytes_of_string "ab"); Hashlib.md5 (bytes_of_string "c");
     Hashlib.md5 (bytes_of_string "abc")]
  /\ md5_file_generator [] 2 = [Hashlib.md5 []]
  /\ md5_file_generator (bytes_of_string "ab") 2
     = [Hashlib.md5 (bytes_of_string "ab"); Hashlib.md5 (bytes_of_string "ab")].
Proof. vm_compute. repeat split; reflexivity. Qed.

(** ** The data-channel receiver *)

Lemma bytes_eqb_eq (a b : list byte) : bytes_eqb a b = true <-> a = b.
Proof.
  revert b. induction a as [|x a IH]; intros [|y b]; simpl;
    try (split; congruence).
  rewrite andb_true_iff, IH. split.
  - intros [Hxy Hab]. apply Byte.byte_dec_bl in Hxy. congruence.
  - intros H. injection H as Hxy Hab. split; [|assumption].
    apply Byte.byte_dec_lb. assumption.
Qed.

Lemma bytes_eqb_refl (a : list byte) : bytes_eqb a a = true.
Proof. apply bytes_eqb_eq. reflexivity. Qed.

Lemma bytes_eqb_neq (a b : list byte) : bytes_eqb a b = false <-> a <> b.
Proof.
  rewrite <- bytes_eqb_eq. destruct (bytes_eqb a b); split; congruence.
Qed.

Lemma sentinel_test (buf : list byte) :
  FileIO.is_empty buf || bytes_eqb buf stop_sentinel = true <-> is_sentinel buf.
Proof.
  unfold is_sentinel. rewrite orb_true_iff, bytes_eqb_eq.
  destruct buf; simpl; intuition congruence.
Qed.

Lemma receive_loop_stops (pre : list (list byte)) :
  forall (buf : list byte) (later : FileIO.socket) (written : list (list byte)),
    Forall (fun b => ~ is_sentinel b) pre ->
    is_sentinel buf ->
    receive_loop (pre ++ buf :: later) written = (written ++ pre, true).
Proof.
  induction pre as [|b pre IH]; intros buf later written Hpre Hbuf; simpl.
  - apply sentinel_test in Hbuf. rewrite Hbuf, app_nil_r. reflexivity.
  - inversion Hpre as [|? ? Hb Hrest]; subst.
    destruct (FileIO.is_empty b || bytes_eqb b stop_sentinel) eqn:Htest.
    + apply sentinel_test in Htest. contradiction.
    + rewrite (IH buf later (written ++ [b]) Hrest Hbuf).
      rewrite <- app_assoc. reflexivity.
Qed.

(** Without a sentinel every buffer is written and the loop is still
    waiting. *)
Lemma receive_loop_waits (reads : FileIO.socket) :
  forall written : list (list byte),
    Forall (fun b => ~ is_sentinel b) reads ->
    receive_loop reads written = (written ++ reads, false).
Proof.
  induction reads as [|b reads IH]; intros written Hall; simpl.
  - rewrite app_nil_r. reflexivity.
  - inversion Hall as [|? ? Hb Hrest]; subst.
    destruct (FileIO.is_empty b || bytes_eqb b stop_sentinel) eqn:Htest.
    + apply sentinel_test in Htest. contradiction.
    + rewrite (IH (written ++ [b]) Hrest). rewrite <- app_assoc. reflexivity.
Qed.

(** C9: whatever the data channel delivers, the receiver writes exactly
    the buffers received before the first read that is empty or is the
    bytes "stop", in their order, then returns: the sentinel and everything
    after it are not written, however few bytes came before. *)
Theorem receive_file_stops_at_sentinel
    (pre : list (list byte)) (buf : list byte) (later : FileIO.socket)
    (old : list byte) :
  Forall (fun b => ~ is_sentinel b) pre ->
  is_sentinel buf ->
  receive_loop (pre ++ buf :: later) [] = (pre, true)
  /\ receive_file (pre ++ buf :: later) old FileIO.WB = (List.concat pre, true)
  /\ receive_file (pre ++ buf :: later) old FileIO.AB
     = (old ++ List.concat pre, true).
Proof.
  intros Hpre Hbuf.
  pose proof (receive_loop_stops pre buf later [] Hpre Hbuf) as Hloop.
  simpl in Hloop. unfold receive_file. rewrite Hloop.
  repeat split; reflexivity.
Qed.

Lemma receive_file_stops_at_sentinel_witness :
  let pre := [bytes_of_string "he"; bytes_of_string "llo"] in
  let later := [bytes_of_string "late"] in
  receive_file (pre ++ stop_sentinel :: later) (bytes_of_string "old") FileIO.WB
  = (bytes_of_string "hello", true).
Proof.
  intros pre later.
  refine (proj1 (proj2 (receive_file_stops_at_sentinel
                          pre stop_sentinel later (bytes_of_string "old") _ _))).
  - repeat constructor; intros [H | H]; discriminate H.
  - right. reflexivity.
Defined.

(** ** Sets and dictionaries of paths *)

Lemma mem_In (x : string) (l : list string) : mem x l = true <-> In x l.
Proof.
  unfold mem. rewrite existsb_exists. split.
  - intros [y [Hy Heq]]. apply String.eqb_eq in Heq. subst. assumption.
  - intros H. exists x. split; [assumption | apply String.eqb_refl].
Qed.

Lemma mem_not_In (x : string) (l : list string) : mem x l = false <-> ~ In x l.
Proof.
  rewrite <- mem_In. destruct (mem x l); split; congruence.
Qed.

Lemma set_add_In (s : list string) (x y : string) :
  In y (set_add s x) <-> y = x \/ In y s.
Proof.
  unfold set_add. destruct (mem x s) eqn:Hmem.
  - apply mem_In in Hmem. split; [auto | intros [-> | H]; assumption].
  - rewrite in_app_iff. simpl. intuition congruence.
Qed.

Lemma set_add_NoDup (s : list string) (x : string) :
  NoDup s -> NoDup (set_add s x).
Proof.
  intros Hs. unfold set_add. destruct (mem x s) eqn:Hmem; [assumption|].
  apply mem_not_In in Hmem.
  apply NoDup_app; [assumption | repeat constructor; simpl; tauto |].
  intros a Ha [<- | []]. contradiction.
Qed.

Section Dict.

Context {V : Type}.

Lemma keys_dict_set (d : list (string * V)) (k : string) (v : V) (x : string) :
  In x (keys (dict_set d k v)) <-> x = k \/ In x (keys d).
Proof.
  induction d as [|[k' v'] d IH]; simpl.
  - intuition congruence.
  - destruct (String.eqb_spec k' k) as [-> | Hne]; simpl.
    + intuition congruence.
    + rewrite IH. intuition congruence.
Qed.

Lemma keys_dict_set_NoDup (d : list (string * V)) (k : string) (v : V) :
  NoDup (keys d) -> NoDup (keys (dict_set d k v)).
Proof.
  induction d as [|[k' v'] d IH]; simpl; intros Hd.
  - repeat constructor. simpl. tauto.
  - inversion Hd as [|? ? Hnotin Hrest]; subst.
    destruct (String.eqb_spec k' k) as [-> | Hne]; simpl.
    + constructor; assumption.
    + constructor; [|apply IH; assumption].
      change (~ In k' (keys (dict_set d k v))).
      rewrite keys_dict_set. intros [Heq | Hin]; [congruence | contradiction].
Qed.

Lemma keys_filter_In (f : string * V -> bool) (d : list (string * V)) (x : string) :
  (forall k v v', f (k, v) = f (k, v')) ->
  In x (keys (filter f d)) <-> In x (keys d) /\ exists v, f (x, v) = true /\ In (x, v) d.
Proof.
  intros Hf. unfold keys. rewrite !in_map_iff. split.
  - intros [[k v] [Hk Hin]]. simpl in Hk. subst k.
    apply filter_In in Hin. destruct Hin as [Hin Hfx].
    split; [exists (x, v); auto | exists v; auto].
  - intros [_ [v [Hfx Hin]]]. exists (x, v). split; [reflexivity|].
    apply filter_In. auto.
Qed.

Lemma keys_filter_NoDup (f : string * V -> bool) (d : list (string * V)) :
  NoDup (keys d) -> NoDup (keys (filter f d)).
Proof.
  induction d as [|[k v] d IH]; simpl; intros Hd; [constructor|].
  inversion Hd as [|? ? Hnotin Hrest]; subst.
  destruct (f (k, v)); simpl; [|apply IH; assumption].
  constructor; [|apply IH; assumption].
  intros Hin. apply Hnotin. unfold keys in *.
  apply in_map_iff in Hin. destruct Hin as [[k' v'] [Hk Hin]].
  apply filter_In in Hin. apply in_map_iff. exists (k', v'). tauto.
Qed.

End Dict.

Lemma filter_NoDup (f : string -> bool) (l : list string) :
  NoDup l -> NoDup (filter f l).
Proof. apply NoDup_filter. Qed.

(** [remove_prefix] strips the prefix when it is there. *)
Lemma drop_append (p t : string) : Str.drop (String.length p) (p +++ t) = t.
Proof. induction p as [|c p IH]; simpl; [destruct t; reflexivity | exact IH]. Qed.

Lemma prefix_append (p t : string) : String.prefix p (p +++ t) = true.
Proof.
  induction p as [|c p IH]; simpl.
  - destruct t; reflexivity.
  - destruct (ascii_dec c c); [exact IH | congruence].
Qed.

Lemma remove_prefix_append (p t : string) : remove_prefix (p +++ t) p = t.
Proof. unfold remove_prefix. rewrite prefix_append. apply drop_append. Qed.

Section Listing.

Context {W : Type} (C : Collaborators W).

Lemma remote_files_of_keys (listing : list (nat * RemoteEntry)) :
  forall (acc : list (string * nat)) (p : string),
    In p (keys (fold_left
                  (fun remote_files '(ref, entry) =>
                     if Mode entry <=? 9999
                     then dict_set remote_files (remote_rel_path C entry) ref
                     else remote_files) listing acc))
    <-> In p (keys acc)
        \/ exists ref entry, In (ref, entry) listing /\ Mode entry <= 9999
                             /\ p = remote_rel_path C entry.
Proof.
  induction listing as [|[ref entry] listing IH]; intros acc p; simpl.
  - split; [auto | intros [H | [? [? [[] _]]]]; assumption].
  - rewrite IH. destruct (Mode entry <=? 9999) eqn:Hmode.
    + rewrite keys_dict_set. apply Z.leb_le in Hmode. split.
      * intros [[-> | Hin] | [r [e [Hin [Hm ->]]]]].
        -- right. exists ref, entry. auto.
        -- left. assumption.
        -- right. exists r, e. auto.
      * intros [Hin | [r [e [[Heq | Hin] [Hm ->]]]]].
        -- left. right. assumption.
        -- injection Heq as -> ->. left. left. reflexivity.
        -- right. exists r, e. auto.
    + apply Z.leb_gt in Hmode. split.
      * intros [Hin | [r [e [Hin [Hm ->]]]]]; [left; assumption|].
        right. exists r, e. auto.
      * intros [Hin | [r [e [[Heq | Hin] [Hm ->]]]]].
        -- left. assumption.
        -- injection Heq as -> ->. lia.
        -- right. exists r, e. auto.
Qed.

Lemma remote_files_of_In (listing : list (nat * RemoteEntry)) (p : string) :
  In p (keys (remote_files_of C listing))
  <-> exists ref entry, In (ref, entry) listing /\ Mode entry <= 9999
                        /\ p = remote_rel_path C entry.
Proof.
  unfold remote_files_of.
  rewrite (remote_files_of_keys listing [] p). simpl. tauto.
Qed.

Lemma remote_files_of_NoDup (listing : list (nat * RemoteEntry)) :
  NoDup (keys (remote_files_of C listing)).
Proof.
  unfold remote_files_of.
  assert (H : forall acc, NoDup (keys acc) ->
            NoDup (keys (fold_left
                     (fun remote_files '(ref, entry) =>
                        if Mode entry <=? 9999
                        then dict_set remote_files
                               (remove_prefix (FullPath entry)
                                              ("/" +++ username C +++ "/")) ref
                        else remote_files) listing acc))).
  { induction listing as [|[ref entry] listing IH]; intros acc Hacc; simpl.
    - assumption.
    - apply IH. destruct (Mode entry <=? 9999); [|assumption].
      apply keys_dict_set_NoDup. assumption. }
  apply H. constructor.
Qed.

End Listing.

Lemma add_files_In (rel_path : string) (filenames : list string) :
  forall (acc : list string) (p : string),
    In p (fold_left (fun s file => set_add s (rel_path +++ "/" +++ file))
                    filenames acc)
    <-> In p acc \/ exists file, In file filenames /\ p = rel_path +++ "/" +++ file.
Proof.
  induction filenames as [|f filenames IH]; intros acc p; simpl.
  - split; [auto | intros [H | [? [[] _]]]; assumption].
  - rewrite IH, set_add_In. split.
    + intros [[-> | Hin] | [file [Hin ->]]].
      * right. exists f. auto.
      * left. assumption.
      * right. exists file. auto.
    + intros [Hin | [file [[<- | Hin] ->]]].
      * left. right. assumption.
      * left. left. reflexivity.
      * right. exists file. auto.
Qed.

Lemma add_files_NoDup (rel_path : string) (filenames : list string) :
  forall acc : list string,
    NoDup acc ->
    NoDup (fold_left (fun s file => set_add s (rel_path +++ "/" +++ file))
                     filenames acc).
Proof.
  induction filenames as [|f filenames IH]; intros acc Hacc; simpl.
  - assumption.
  - apply IH, set_add_NoDup, Hacc.
Qed.

Lemma local_files_fold (base_path : string)
    (dirs : list (string * list string * list string)) :
  forall (acc : list string),
    let result :=
      fold_left
        (fun local_files '(dir_path, _, filenames) =>
           let dir_path := Str.replace Str.backslash Str.slash dir_path in
           let rel_path := remove_prefix dir_path (base_path +++ "/") in
           fold_left (fun s file => set_add s (rel_path +++ "/" +++ file))
                     filenames local_files)
        dirs acc in
    (NoDup acc -> NoDup result)
    /\ forall p, In p result
         <-> In p acc
             \/ exists dir_path folders filenames file,
                  In (dir_path, folders, filenames) dirs /\ In file filenames
                  /\ p = local_rel_path base_path dir_path file.
Proof.
  induction dirs as [|[[dir_path folders] filenames] dirs IH]; intros acc; simpl.
  - split; [auto|]. intros p.
    split; [auto | intros [H | [? [? [? [? [[] _]]]]]]; assumption].
  - match goal with |- context [fold_left _ dirs ?a] => destruct (IH a) as [Hnd Hin] end.
    split.
    + intros Hacc. apply Hnd, add_files_NoDup, Hacc.
    + intros p. rewrite Hin, add_files_In. split.
      * intros [[Hp | [file [Hf ->]]] | [d [fo [fs [file [Hd [Hf ->]]]]]]].
        -- left. assumption.
        -- right. exists dir_path, folders, filenames, file. auto.
        -- right. exists d, fo, fs, file. auto.
      * intros [Hp | [d [fo [fs [file [[Heq | Hd] [Hf ->]]]]]]].
        -- left. left. assumption.
        -- injection Heq as -> -> ->. left. right. exists file. auto.
        -- right. exists d, fo, fs, file. auto.
Qed.

Lemma local_files_of_In (walk : list (string * list string * list string))
    (base_path : string) (recursive : bool) (p : string) :
  In p (local_files_of walk base_path recursive)
  <-> exists dir_path folders filenames file,
        In (dir_path, folders, filenames) (walked walk recursive)
        /\ In file filenames
        /\ p = local_rel_path base_path dir_path file.
Proof.
  unfold local_files_of.
  destruct (local_files_fold base_path (walked walk recursive) []) as [_ Hin].
  unfold walked in *. rewrite Hin. simpl. tauto.
Qed.

Lemma local_files_of_NoDup (walk : list (string * list string * list string))
    (base_path : string) (recursive : bool) :
  NoDup (local_files_of walk base_path recursive).
Proof.
  unfold local_files_of.
  destruct (local_files_fold base_path (walked walk recursive) []) as [Hnd _].
  unfold walked in *. apply Hnd. constructor.
Qed.

(** ** The difference detector *)

Section Detector.

Context {W : Type} (C : Collaborators W).

(** C4: the listing fetch decides the result.  On a status of 300 or more
    the response comes back with the empty tuple and two empty lists.
    Otherwise [local_only], [remote_only] and the paths of [both] have no
    repetition, are pairwise disjoint, and together are exactly the local
    and the remote relative paths; a path is local when the walk finds a
    file whose path is it once the base prefix is stripped, remote when a
    listed file entry's path is it once the user prefix is stripped, and
    membership is equality of these paths. *)
Theorem sync_folder_listing_partition
    (full_folder_path base_path : string) (recursive : bool) (st : state W) :
  let base := Str.replace Str.backslash Str.slash base_path in
  let full := Str.replace Str.backslash Str.slash full_folder_path in
  let response :=
    filer_get_folder_listing C (remove_prefix full (base +++ "/")) recursive
                             (world st) in
  let status := fst (fst response) in
  let listing := snd (fst response) in
  let dirs := walked (os_walk C full (snd response)) recursive in
  let is_local p :=
    exists dir_path folders filenames file,
      In (dir_path, folders, filenames) dirs /\ In file filenames
      /\ p = local_rel_path base dir_path file in
  let is_remote p :=
    exists entry, In entry listing /\ Mode entry <= 9999
                  /\ p = remote_rel_path C entry in
  exists local_result remote_only both st',
    sync_folder_listing C full_folder_path base_path recursive st
    = (Ok (status, local_result, remote_only, both), st')
    /\ (300 <= status ->
        local_result = None /\ remote_only = [] /\ both = [])
    /\ (status < 300 ->
        exists local_only,
          local_result = Some (base, local_only)
          /\ NoDup local_only /\ NoDup remote_only /\ NoDup (keys both)
          /\ (forall p, In p local_only <-> is_local p /\ ~ is_remote p)
          /\ (forall p, In p remote_only <-> is_remote p /\ ~ is_local p)
          /\ (forall p, In p (keys both) <-> is_remote p /\ is_local p)
          /\ (forall p, ~ (In p local_only /\ In p remote_only))
          /\ (forall p, ~ (In p local_only /\ In p (keys both)))
          /\ (forall p, ~ (In p remote_only /\ In p (keys both)))
          /\ (forall p, In p local_only \/ In p remote_only \/ In p (keys both)
                        <-> is_local p \/ is_remote p)).
Proof.
  intros base full response status listing dirs is_local is_remote.
  unfold sync_folder_listing, bind, call.
  change (filer_get_folder_listing C _ recursive (world st)) with response.
  change (Str.replace Str.backslash Str.slash full_folder_path) with full.
  change (Str.replace Str.backslash Str.slash base_path) with base.
  clearbody response base full.
  destruct response as [[r entries] w1].
  subst status listing. cbn [fst snd world trace heap] in *.
  destruct (300 <=? r) eqn:Hr.
  - apply Z.leb_le in Hr. unfold ret.
    eexists _, _, _, _. split; [reflexivity|]. split; [auto | lia].
  - apply Z.leb_gt in Hr. unfold alloc, observe, ret.
    cbn [fst snd world trace heap].
    set (refs := seq (List.length (heap st)) (List.length entries)).
    set (remote_files := remote_files_of C (combine refs entries)).
    set (local_files := local_files_of (os_walk C full w1) base recursive).
    set (local_only := filter (fun l => negb (mem l (keys remote_files))) local_files).
    set (remote_only := filter (fun r0 => negb (mem r0 local_files)) (keys remote_files)).
    eexists _, _, _, _. split; [reflexivity|]. split; [lia|]. intros _.
    exists local_only. split; [reflexivity|].
    (* membership in the two path sets *)
    assert (Hlocal : forall p, In p local_files <-> is_local p).
    { intros p. subst local_files is_local dirs. apply local_files_of_In. }
    assert (Hremote : forall p, In p (keys remote_files) <-> is_remote p).
    { intros p. subst remote_files is_remote.
      rewrite remote_files_of_In. split.
      - intros [ref [entry [Hin [Hm Hp]]]]. exists entry.
        apply in_combine_r in Hin. auto.
      - intros [entry [Hin [Hm Hp]]].
        destruct (In_nth entries entry entry Hin) as [i [Hi Hnth]].
        exists (nth i refs 0%nat), entry. split; [|auto].
        assert (Hlen : List.length refs = List.length entries)
          by (subst refs; apply length_seq).
        replace (nth i refs 0%nat, entry)
          with (nth i (combine refs entries) (0%nat, entry))
          by (rewrite combine_nth by exact Hlen; rewrite Hnth; reflexivity).
        apply nth_In. rewrite length_combine, Hlen. lia. }
    assert (Hlo : forall p, In p local_only <-> is_local p /\ ~ is_remote p).
    { intros p. subst local_only. rewrite filter_In, negb_true_iff, mem_not_In.
      rewrite Hlocal, Hremote. tauto. }
    assert (Hro : forall p, In p remote_only <-> is_remote p /\ ~ is_local p).
    { intros p. subst remote_only. rewrite filter_In, negb_true_iff, mem_not_In.
      rewrite Hlocal, Hremote. tauto. }
    assert (Hboth : forall p,
               In p (keys (filter
                             (fun '(path, _) =>
                                negb (mem path (remote_only ++ local_only)))
                             remote_files))
               <-> is_remote p /\ is_local p).
    { intros p. rewrite keys_filter_In by reflexivity.
      rewrite Hremote. split.
      - intros [Hr' [v [Hf _]]]. split; [assumption|].
        apply negb_true_iff, mem_not_In in Hf.
        rewrite in_app_iff, Hro, Hlo in Hf.
        destruct (in_dec string_dec p local_files) as [Hin | Hnin].
        + apply Hlocal. assumption.
        + exfalso. apply Hf. left. split; [assumption|].
          intro Hl. apply Hnin, Hlocal, Hl.
      - intros [Hr' Hl]. split; [assumption|].
        pose proof Hr' as Hrem.
        apply Hremote in Hr'. unfold keys in Hr'.
        apply in_map_iff in Hr'. destruct Hr' as [[k v] [Hk Hin]].
        simpl in Hk. subst k. exists v. split; [|assumption].
        apply negb_true_iff, mem_not_In.
        rewrite in_app_iff, Hro, Hlo. tauto. }
    assert (Hdec : forall p, is_local p \/ ~ is_local p).
    { intros p. destruct (in_dec string_dec p local_files) as [Hin | Hnin].
      - left. apply Hlocal, Hin.
      - right. intro Hl. apply Hnin, Hlocal, Hl. }
    assert (Hdec' : forall p, is_remote p \/ ~ is_remote p).
    { intros p. destruct (in_dec string_dec p (keys remote_files)) as [Hin | Hnin].
      - left. apply Hremote, Hin.
      - right. intro Hl. apply Hnin, Hremote, Hl. }
    split; [apply filter_NoDup, local_files_of_NoDup|].
    split; [apply filter_NoDup, remote_files_of_NoDup|].
    split; [apply keys_filter_NoDup, remote_files_of_NoDup|].
    split; [exact Hlo|]. split; [exact Hro|]. split; [exact Hboth|].
    split; [intros p [H1 H2]; apply Hlo in H1; apply Hro in H2; tauto|].
    split; [intros p [H1 H2]; apply Hlo in H1; apply Hboth in H2; tauto|].
    split; [intros p [H1 H2]; apply Hro in H1; apply Hboth in H2; tauto|].
    intros p. rewrite Hlo, Hro, Hboth. split; [tauto|].
    intros [Hl | Hr']; [destruct (Hdec' p) | destruct (Hdec p)]; tauto.
Qed.

End Detector.

(** ** Decimal strings: [str], slicing and [float] *)

Section DecimalStrings.

Import Decimal.

Lemma parse_digits_string_of_uint (u : uint) :
  forall acc : Z,
    Str.parse_digits acc (DecimalString.NilEmpty.string_of_uint u)
    = Some (uval acc u).
Proof.
  induction u as [|u IH|u IH|u IH|u IH|u IH|u IH|u IH|u IH|u IH|u IH];
    intros acc; simpl; try reflexivity; apply IH.
Qed.

Lemma substring_string_of_uint (k : nat) :
  forall u : uint,
    String.substring 0 k (DecimalString.NilEmpty.string_of_uint u)
    = DecimalString.NilEmpty.string_of_uint (utake k u).
Proof.
  induction k as [|k IH]; intros u.
  - destruct u; reflexivity.
  - destruct u; simpl; try reflexivity; rewrite IH; reflexivity.
Qed.

Lemma uval_linear (u : uint) :
  forall acc : Z,
    uval acc u = acc * 10 ^ Z.of_nat (nb_digits u) + uval 0 u
    /\ 0 <= uval 0 u < 10 ^ Z.of_nat (nb_digits u).
Proof.
  induction u as [|u IH|u IH|u IH|u IH|u IH|u IH|u IH|u IH|u IH|u IH];
    intros acc;
    try (simpl uval; simpl; lia);
    cbn [uval nb_digits]; rewrite Nat2Z.inj_succ, Z.pow_succ_r by lia;
    match goal with
    | |- context [uval (10 * acc + ?k) u] =>
        destruct (IH (10 * acc + k)) as [-> Hb];
        destruct (IH (10 * 0 + k)) as [-> _]
    end; split; lia.
Qed.

Lemma uval_utake (k : nat) :
  forall (u : uint) (acc : Z),
    uval acc (utake k u) = uval acc u / 10 ^ Z.of_nat (nb_digits u - k).
Proof.
  induction k as [|k IH]; intros u acc.
  - rewrite Nat.sub_0_r. cbn [utake uval].
    destruct (uval_linear u acc) as [-> Hb].
    rewrite Z.div_add_l by lia. rewrite Z.div_small by lia. lia.
  - destruct u; cbn [utake uval nb_digits Nat.sub];
      try apply IH.
    simpl. symmetry. apply Z.div_1_r.
Qed.

Lemma uval_of_lu (u : uint) :
  forall d : uint,
    Z.of_N (DecimalPos.Unsigned.of_lu (revapp u d))
    = uval (Z.of_N (DecimalPos.Unsigned.of_lu d)) u.
Proof.
  induction u as [|u IH|u IH|u IH|u IH|u IH|u IH|u IH|u IH|u IH|u IH];
    intros d; cbn [revapp uval]; try reflexivity;
    rewrite IH; f_equal; cbn [DecimalPos.Unsigned.of_lu]; lia.
Qed.

Lemma uval_of_uint (u : uint) : uval 0 u = Z.of_N (N.of_uint u).
Proof.
  change (N.of_uint u) with (Pos.of_uint u).
  rewrite DecimalPos.Unsigned.of_uint_alt. unfold rev.
  rewrite uval_of_lu. reflexivity.
Qed.

Lemma uval_to_uint (n : N) : uval 0 (N.to_uint n) = Z.of_N n.
Proof. rewrite uval_of_uint, DecimalN.Unsigned.of_to. reflexivity. Qed.

(** A normalised digit sequence is "0" or starts with a digit that is not
    0. *)
Lemma unorm_fixed_bound (u : uint) :
  unorm u = u ->
  u = D0 Nil \/ 10 ^ Z.of_nat (nb_digits u - 1) <= uval 0 u.
Proof.
  intros Hnorm. destruct u as [|u|u|u|u|u|u|u|u|u|u];
    try (right; cbn [uval nb_digits Nat.sub]; rewrite Nat.sub_0_r;
         match goal with
         | |- context [uval ?a u] => destruct (uval_linear u a) as [-> Hb]
         end; lia).
  - discriminate Hnorm.
  - left. destruct u as [|u|u|u|u|u|u|u|u|u|u]; [reflexivity| | | | | | | | | |];
      exfalso;
      rewrite DecimalFacts.unorm_D0 in Hnorm;
      match type of Hnorm with
      | unorm ?v = _ =>
          assert (Hv : v <> Nil) by discriminate;
          pose proof (DecimalFacts.nb_digits_unorm v Hv) as Hle;
          rewrite Hnorm in Hle; cbn [nb_digits] in Hle; lia
      end.
Qed.

(** How many characters [str(n)] has. *)
Lemma str_length_bounds (n : N) :
  let d := nb_digits (N.to_uint n) in
  (1 <= d)%nat
  /\ Z.of_N n < 10 ^ Z.of_nat d
  /\ (n = 0%N \/ 10 ^ Z.of_nat (d - 1) <= Z.of_N n).
Proof.
  intros d. subst d.
  pose proof (uval_to_uint n) as Hval.
  destruct (uval_linear (N.to_uint n) 0) as [_ Hb].
  assert (Hnorm : unorm (N.to_uint n) = N.to_uint n).
  { rewrite <- (DecimalN.Unsigned.of_to n) at 2.
    symmetry. apply DecimalN.Unsigned.to_of. }
  destruct (unorm_fixed_bound _ Hnorm) as [Hzero | Hlow].
  - rewrite Hzero in *. cbn [nb_digits uval] in *. simpl in Hval.
    split; [lia|]. split; [lia|]. left. lia.
  - split; [|split; [lia | right; lia]].
    destruct (nb_digits (N.to_uint n)) eqn:Hd; [|lia].
    apply DecimalFacts.nb_digits_0 in Hd. rewrite Hd in Hnorm. discriminate.
Qed.

Lemma float_utake (k : nat) (u : uint) :
  u <> Nil ->
  Str.float (DecimalString.NilEmpty.string_of_uint (utake (S k) u))
  = Some (uval 0 (utake (S k) u)).
Proof.
  intros Hu. rewrite <- parse_digits_string_of_uint.
  destruct u; [congruence | | | | | | | | | |]; reflexivity.
Qed.

Lemma string_of_uint_nonnil (u : uint) :
  u <> Nil ->
  DecimalString.NilZero.string_of_uint u
  = DecimalString.NilEmpty.string_of_uint u.
Proof. destruct u; [congruence | | | | | | | | | |]; reflexivity. Qed.

(** [float(str(n)[:10])] never fails, and cuts [n] down to its first ten
    digits. *)
Lemma float_str_prefix (n : N) :
  Str.float (String.substring 0 10 (Str.str n))
  = Some (Z.of_N n / 10 ^ Z.of_nat (nb_digits (N.to_uint n) - 10)).
Proof.
  unfold Str.str.
  destruct (str_length_bounds n) as [Hd _].
  assert (Hu : N.to_uint n <> Nil).
  { apply DecimalFacts.nb_digits_n0. lia. }
  rewrite string_of_uint_nonnil by exact Hu.
  rewrite substring_string_of_uint.
  rewrite (float_utake 9 _ Hu).
  rewrite uval_utake, uval_to_uint. reflexivity.
Qed.

End DecimalStrings.

(** ** The direction decision *)

Lemma py_round_integral (z : Z) : py_round (inject_Z z) = z.
Proof.
  unfold py_round. rewrite Qfloor_Z.
  assert (H : (inject_Z z - inject_Z z ?= 1 # 2)%Q = Lt).
  { rewrite <- Qlt_alt. unfold Qminus.
    rewrite Qplus_opp_r. reflexivity. }
  rewrite H. reflexivity.
Qed.

(** [py_round] is within half a unit, and a tie goes to the even side. *)
Lemma py_round_nearest (x : Q) :
  (inject_Z (py_round x) - (1 # 2) <= x)%Q
  /\ (x <= inject_Z (py_round x) + (1 # 2))%Q
  /\ ((x == inject_Z (py_round x) + (1 # 2))%Q
      \/ (x == inject_Z (py_round x) - (1 # 2))%Q -> Z.even (py_round x) = true).
Proof.
  unfold py_round.
  pose proof (Qfloor_le x) as Hlo. pose proof (Qlt_floor x) as Hhi.
  set (f := Qfloor x) in *.
  rewrite inject_Z_plus in Hhi.
  destruct (Qcompare_spec (x - inject_Z f) (1 # 2)) as [Heq | Hlt | Hgt].
  - assert (Hx : (x == inject_Z f + (1 # 2))%Q).
    { rewrite <- Heq. ring. }
    destruct (Z.even f) eqn:Hev.
    + rewrite Hx. repeat split.
      * apply Qle_minus_iff. ring_simplify. discriminate.
      * apply Qle_refl.
      * intros _. exact Hev.
    + rewrite inject_Z_plus. rewrite Hx. repeat split.
      * apply Qle_minus_iff. ring_simplify. discriminate.
      * apply Qle_minus_iff. ring_simplify. discriminate.
      * intros _. rewrite Z.even_add, Hev. reflexivity.
  - assert (Hx : (x < inject_Z f + (1 # 2))%Q).
    { apply Qlt_minus_iff. apply Qlt_minus_iff in Hlt.
      setoid_replace (inject_Z f + (1 # 2) + - x)%Q
        with ((1 # 2) + - (x - inject_Z f))%Q by ring.
      exact Hlt. }
    repeat split.
    + apply Qle_trans with (inject_Z f); [|exact Hlo].
      apply Qle_minus_iff. ring_simplify. discriminate.
    + apply Qlt_le_weak. exact Hx.
    + intros [Htie | Htie].
      * rewrite Htie in Hx. exfalso. apply (Qlt_irrefl _ Hx).
      * rewrite Htie in Hlo. exfalso.
        apply Qle_minus_iff in Hlo. ring_simplify in Hlo.
        apply Hlo. reflexivity.
  - assert (Hx : (inject_Z f + (1 # 2) < x)%Q).
    { apply Qlt_minus_iff. apply Qlt_minus_iff in Hgt.
      setoid_replace (x + - (inject_Z f + (1 # 2)))%Q
        with (x - inject_Z f + - (1 # 2))%Q by ring.
      exact Hgt. }
    rewrite inject_Z_plus. repeat split.
    + apply Qlt_le_weak.
      setoid_replace (inject_Z f + inject_Z 1 - (1 # 2))%Q
        with (inject_Z f + (1 # 2))%Q by ring.
      exact Hx.
    + apply Qlt_le_weak. apply Qlt_le_trans with (inject_Z f + inject_Z 1)%Q.
      * exact Hhi.
      * apply Qle_minus_iff. ring_simplify. discriminate.
    + intros [Htie | Htie].
      * rewrite Htie in Hhi. exfalso.
        apply Qlt_minus_iff in Hhi. ring_simplify in Hhi.
        revert Hhi. apply Qle_not_lt. discriminate.
      * rewrite Htie in Hx. exfalso.
        apply Qlt_minus_iff in Hx. ring_simplify in Hx.
        revert Hx. apply Qle_not_lt. discriminate.
Qed.

Lemma decimal_length_str (m : N) (d : nat) :
  decimal_length m d -> Decimal.nb_digits (N.to_uint m) = d.
Proof.
  intros [Hd [Hup Hlow]].
  destruct (str_length_bounds m) as [Hd' [Hup' Hlow']].
  set (d' := Decimal.nb_digits (N.to_uint m)) in *.
  assert (Hmono : forall a b : nat,
             (a < b)%nat -> 10 ^ Z.of_nat a <= 10 ^ Z.of_nat (b - 1)).
  { intros a b Hab. apply Z.pow_le_mono_r; lia. }
  destruct Hlow as [[-> ->] | Hlow].
  - destruct Hlow' as [_ | Hlow']; simpl in *.
    + destruct (Nat.lt_trichotomy d' 1) as [H | [H | H]]; [lia | lia |].
      subst d'. clear - H.
      exfalso. revert H. vm_compute. lia.
    + destruct (Nat.lt_trichotomy d' 1) as [H | [H | H]]; [lia | lia |].
      pose proof (Hmono 1%nat d' H). simpl in *. lia.
  - destruct Hlow' as [-> | Hlow'].
    + assert (0 < 10 ^ Z.of_nat (d - 1)) by (apply Z.pow_pos_nonneg; lia).
      simpl in Hlow. lia.
    + destruct (Nat.lt_trichotomy d' d) as [H | [H | H]]; [|assumption|].
      * pose proof (Hmono d' d H). lia.
      * pose proof (Hmono d d' H). lia.
Qed.

(** The remote reference time: the first ten digits of the mtime. *)
Lemma remote_reference_time (m : N) (d : nat) :
  decimal_length m d ->
  Str.float (String.substring 0 10 (Str.str m)) = Some (first_digits 10 m d).
Proof.
  intros Hd. rewrite float_str_prefix, (decimal_length_str m d Hd). reflexivity.
Qed.

(** C3 (amended): the decision compares the local mtime rounded to whole
    seconds (ties to even) with the remote reference time, the number
    spelled by the first ten decimal digits of the first chunk's mtime: it
    is upload exactly when the rounded local time exceeds the reference by
    more than 50, download otherwise, the boundary included. *)
Theorem choose_direction_rounded (getmtime : Q) (remote_meta : RemoteEntry)
    (chunk0 : Chunk) (rest : list Chunk) (d : nat) :
  chunks remote_meta = chunk0 :: rest ->
  decimal_length (mtime chunk0) d ->
  let remote := first_digits 10 (mtime chunk0) d in
  (choose_direction getmtime remote_meta = Ok Upload
   <-> remote + 50 < py_round getmtime)
  /\ (choose_direction getmtime remote_meta = Ok Download
      <-> py_round getmtime <= remote + 50)
  /\ (py_round getmtime = remote + 50 ->
      choose_direction getmtime remote_meta = Ok Download).
Proof.
  intros Hchunks Hd remote. unfold choose_direction.
  rewrite Hchunks, (remote_reference_time _ _ Hd). fold remote.
  destruct (remote + 50 <? py_round getmtime) eqn:Hcmp.
  - apply Z.ltb_lt in Hcmp. repeat split; try congruence; lia.
  - apply Z.ltb_ge in Hcmp. repeat split; try congruence; lia.
Qed.

(** A nanosecond timestamp of 19 digits and a local mtime 100.5 s later. *)
Lemma choose_direction_rounded_witness :
  choose_direction (3234000201 # 2)
    (mkEntry 420 "/u/a.txt" 3 "None"
             [mkChunk "kAFQmDzST7DWlj99KOF/cg==" 1617000000123456789%N])
  = Ok Upload.
Proof.
  refine (proj2 (proj1 (choose_direction_rounded
            (3234000201 # 2)
            (mkEntry 420 "/u/a.txt" 3 "None"
               [mkChunk "kAFQmDzST7DWlj99KOF/cg==" 1617000000123456789%N])
            (mkChunk "kAFQmDzST7DWlj99KOF/cg==" 1617000000123456789%N)
            [] 19 eq_refl _)) _).
  - unfold decimal_length. simpl. lia.
  - vm_compute. reflexivity.
Defined.

(** For a local mtime that is a whole number of seconds the rounding does
    nothing. *)
Lemma choose_direction_whole_seconds (seconds : Z) (remote_meta : RemoteEntry)
    (chunk0 : Chunk) (rest : list Chunk) (d : nat) :
  chunks remote_meta = chunk0 :: rest ->
  decimal_length (mtime chunk0) d ->
  choose_direction (inject_Z seconds) remote_meta
  = Ok (if first_digits 10 (mtime chunk0) d + 50 <? seconds
        then Upload else Download).
Proof.
  intros Hchunks Hd. unfold choose_direction.
  rewrite Hchunks, (remote_reference_time _ _ Hd), py_round_integral.
  destruct (_ <? _); reflexivity.
Qed.

(** C3 as stated fails: a local mtime 50.25 s after the reference exceeds
    it by more than 50 s, yet it rounds to the boundary and the decision
    is download. *)
Lemma choose_direction_fraction_counterexample :
  let remote_meta :=
    mkEntry 420 "/u/a.txt" 3 "None"
            [mkChunk "kAFQmDzST7DWlj99KOF/cg==" 1000000000000000000%N] in
  let local_mtime := (4000000201 # 4)%Q in
  first_digits 10 1000000000000000000%N 19 = 1000000000
  /\ (inject_Z (1000000000 + 50) < local_mtime)%Q
  /\ choose_direction local_mtime remote_meta = Ok Download.
Proof. vm_compute. repeat split; reflexivity. Qed.

(** ** The comparison phase of [sync_both_file] *)

Lemma byte_range_nil (size : Z) (i : nat) : byte_range [] size i = [].
Proof. unfold byte_range. rewrite skipn_nil. apply firstn_nil. Qed.

(** The chunks read are the non-empty byte ranges, in order. *)
Lemma iter_read_nth (size : Z) :
  0 < size ->
  forall (i fuel : nat) (rest : list byte),
    (List.length rest < fuel)%nat ->
    nth_error (FileIO.iter_read fuel size rest) i
    = if FileIO.is_empty (byte_range rest size i) then None
      else Some (byte_range rest size i).
Proof.
  intros Hsize.
  assert (Hread : forall rest,
             FileIO.read size rest
             = (firstn (Z.to_nat size) rest, skipn (Z.to_nat size) rest)).
  { intros rest. unfold FileIO.read.
    destruct (size <? 0) eqn:H; [apply Z.ltb_lt in H; lia | reflexivity]. }
  induction i as [|i IH]; intros fuel rest Hfuel;
    (destruct fuel as [|fuel]; [lia|]);
    rewrite iter_read_unfold;
    destruct (FileIO.is_empty (fst (FileIO.read size rest))) eqn:Hempty.
  - apply is_empty_true in Hempty. apply read_empty in Hempty; [|lia].
    subst rest. rewrite byte_range_nil. reflexivity.
  - rewrite Hread in *. simpl in *. unfold byte_range. simpl.
    rewrite Hempty. reflexivity.
  - apply is_empty_true in Hempty. apply read_empty in Hempty; [|lia].
    subst rest. rewrite byte_range_nil. reflexivity.
  - assert (Hne : fst (FileIO.read size rest) <> []).
    { intro H. apply is_empty_true in H. congruence. }
    pose proof (read_rest_shorter size rest Hne) as Hshort.
    cbn [nth_error]. rewrite IH by lia.
    rewrite Hread. cbn [snd]. unfold byte_range.
    rewrite skipn_skipn.
    replace (i * Z.to_nat size + Z.to_nat size)%nat
      with (S i * Z.to_nat size)%nat by lia.
    reflexivity.
Qed.

Lemma read_chunks_nth (size : Z) (file : list byte) (i : nat) (range : list byte) :
  0 < size ->
  nth_error (FileIO.read_chunks size file) i = Some range
  <-> range = byte_range file size i /\ range <> [].
Proof.
  intros Hsize. unfold FileIO.read_chunks.
  rewrite (iter_read_nth size Hsize) by lia.
  destruct (FileIO.is_empty (byte_range file size i)) eqn:Hempty.
  - apply is_empty_true in Hempty. split; [discriminate|].
    intros [-> H]. congruence.
  - split.
    + intros [= <-]. split; [reflexivity|].
      intro H. apply is_empty_true in H. congruence.
    + intros [-> _]. reflexivity.
Qed.

Section Comparison.

Context {W : Type} (C : Collaborators W).

(** The closure does not touch the world. *)
Lemma chunks_md5s_equals_state (remote_chunks : list Chunk) :
  forall (gen : generator) (st : state W),
    snd (chunks_md5s_equals remote_chunks gen st) = st.
Proof.
  induction remote_chunks as [|c rest IH]; intros gen st; simpl.
  - reflexivity.
  - destruct (Base64.b64decode (e_tag c)); [|reflexivity].
    unfold bind, next. destruct gen as [|mine gen']; [reflexivity|].
    unfold ret. destruct (negb (bytes_eqb l mine)); [reflexivity|]. apply IH.
Qed.

(** Once the generator is used up, the closure cannot come back with a
    generator that still has a value. *)
Lemma chunks_md5s_equals_exhausted (remote_chunks : list Chunk) (st : state W) :
  forall gen' : generator,
    fst (chunks_md5s_equals remote_chunks [] st) = Ok (true, gen') ->
    gen' = [].
Proof.
  destruct remote_chunks as [|c rest]; simpl; intros gen'.
  - unfold ret. simpl. congruence.
  - destruct (Base64.b64decode (e_tag c)); discriminate.
Qed.

(** Against the values the generator yields for [locals] (their digests,
    then [whole]): the closure answers [True] and leaves a value for
    [update_remote_md5] exactly when every remote chunk has its local
    chunk and the digests agree. *)
Lemma chunks_md5s_equals_spec (remote_chunks : list Chunk) :
  forall (locals : list (list byte)) (whole : list byte) (st : state W),
    (exists value gen',
        fst (chunks_md5s_equals remote_chunks
                                (map Hashlib.md5 locals ++ [whole]) st)
        = Ok (true, value :: gen'))
    <-> (forall i c, nth_error remote_chunks i = Some c ->
           exists range, nth_error locals i = Some range
                         /\ Base64.b64decode (e_tag c) = Some (Hashlib.md5 range)).
Proof.
  induction remote_chunks as [|c rest IH]; intros locals whole st.
  - simpl. split.
    + intros _ i c H. destruct i; discriminate.
    + intros _. destruct locals as [|l locals]; simpl; eauto.
  - cbn [chunks_md5s_equals].
    destruct (Base64.b64decode (e_tag c)) as [remote|] eqn:Hdec.
    + destruct locals as [|l locals].
      * cbn [map app]. unfold bind, next, ret. cbn [fst snd].
        split.
        -- intros [value [gen' H]].
           destruct (negb (bytes_eqb remote whole)); [discriminate|].
           apply chunks_md5s_equals_exhausted in H. discriminate.
        -- intros H. destruct (H 0%nat c eq_refl) as [range [Hnth _]].
           discriminate.
      * cbn [map app]. unfold bind, next, ret. cbn [fst snd].
        destruct (bytes_eqb remote (Hashlib.md5 l)) eqn:Heq; cbn [negb].
        -- apply bytes_eqb_eq in Heq. subst remote.
           rewrite IH. split.
           ++ intros H [|i] c' Hnth.
              ** injection Hnth as <-. exists l. auto.
              ** apply (H i c' Hnth).
           ++ intros H i c' Hnth. apply (H (S i) c' Hnth).
        -- apply bytes_eqb_neq in Heq. split.
           ++ intros [value [gen' H]]. discriminate.
           ++ intros H. destruct (H 0%nat c eq_refl) as [range [Hnth Hd]].
              injection Hnth as <-. congruence.
    + unfold raise. cbn [fst]. split.
      * intros [value [gen' H]]. discriminate.
      * intros H. destruct (H 0%nat c eq_refl) as [range [_ Hd]]. congruence.
Qed.

(** The same against the generator of a file. *)
Lemma chunks_md5s_equals_file (remote_chunks : list Chunk) (file : list byte)
    (st : state W) :
  (exists value gen',
      fst (chunks_md5s_equals remote_chunks
                              (md5_file_generator file default_size) st)
      = Ok (true, value :: gen'))
  <-> chunk_digests_match file remote_chunks.
Proof.
  rewrite md5_file_generator_spec, chunks_md5s_equals_spec.
  unfold chunk_digests_match. split.
  - intros H i c Hnth. destruct (H i c Hnth) as [range [Hr Hd]].
    apply read_chunks_nth in Hr; [|reflexivity]. destruct Hr as [-> Hne]. auto.
  - intros H i c Hnth. destruct (H i c Hnth) as [Hne Hd].
    exists (byte_range file default_size i). split; [|assumption].
    apply read_chunks_nth; [reflexivity | auto].
Qed.

End Comparison.

(** ** [sync_both_file] as a whole *)

(** Runs the monad's plumbing. *)
Ltac run :=
  cbv beta iota zeta delta [bind call call_ observe emit ret raise next];
  cbn [fst snd world trace heap].

Section SyncBothFile.

Context {W : Type} (C : Collaborators W).

(** A transfer ends uploaded, downloaded or failed. *)
Lemma transfer_outcome (filepath remote_path : string) (remote_meta : RemoteEntry)
    (st : state W) :
  fst (transfer C filepath remote_path remote_meta st) <> Ok AlreadySynced.
Proof.
  unfold transfer, bind, observe. cbn [fst snd].
  destruct (choose_direction _ remote_meta) as [[|]|e]; [| |discriminate].
  - destruct (_sync_make_version_delta C filepath remote_path st) as [[made|e] st1];
      [|discriminate].
    destruct (made =? 0); [discriminate|].
    destruct (_sync_both_file_upload C filepath remote_path st1) as [[sent|e] st2];
      [|discriminate].
    destruct (sent =? 0); discriminate.
  - destruct (_sync_both_file_download C filepath remote_path st) as [[got|e] st1];
      [|discriminate].
    destruct (got =? 0); discriminate.
Qed.

Lemma set_Md5_fields (remote_meta : RemoteEntry) (v : string) :
  Md5 (set_Md5 remote_meta v) = v
  /\ FileSize (set_Md5 remote_meta v) = FileSize remote_meta
  /\ chunks (set_Md5 remote_meta v) = chunks remote_meta.
Proof. repeat split. Qed.

(** What follows the comparison when the whole-file digest is known. *)
Lemma compare_known (file : list byte) (remote_meta : RemoteEntry)
    (gen : generator) (st : state W) :
  compare_files file remote_meta false gen st
  = if Z.of_nat (List.length file) =? FileSize remote_meta
    then match Base64.b64decode (Md5 remote_meta) with
         | None => (Raise Base64Error, st)
         | Some remote => (Ok (bytes_eqb (Hashlib.md5 file) remote, gen), st)
         end
    else (Ok (false, gen), st).
Proof.
  unfold compare_files. cbn [negb]. rewrite md5_whole_file_bytes.
  destruct (_ =? _); [|reflexivity].
  destruct (Base64.b64decode (Md5 remote_meta)); reflexivity.
Qed.

(** The run of the already-synced branch. *)
Lemma synced_branch (remote_path : string) (remote_md5_is_none : bool)
    (gen : generator) (remote_meta : RemoteEntry) (st : state W) :
  (exists remote_meta',
      fst ((call_ (filer_remove_file_tags C remote_path) (EvRemoveTags remote_path) ;;;
            update_remote_md5 C remote_md5_is_none remote_path gen ;;;
            ret (AlreadySynced, remote_meta)) st)
      = Ok (AlreadySynced, remote_meta'))
  <-> (remote_md5_is_none = true -> gen <> []).
Proof.
  unfold update_remote_md5.
  destruct remote_md5_is_none.
  - destruct gen as [|value gen']; run; split.
    + intros [m H]. discriminate H.
    + intros H. exfalso. apply H; reflexivity.
    + intros _ _. discriminate.
    + intros _. eauto.
  - run. split; [intros _ H; discriminate H | eauto].
Qed.

Lemma not_synced_branch (filepath remote_path : string) (remote_md5_is_none : bool)
    (gen : generator) (remote_meta remote_meta' : RemoteEntry) (st : state W) :
  fst ((update_remote_md5 C remote_md5_is_none remote_path gen ;;;
        result <- transfer C filepath remote_path remote_meta ;;
        ret (result, remote_meta)) st)
  <> Ok (AlreadySynced, remote_meta').
Proof.
  unfold bind.
  destruct (update_remote_md5 C remote_md5_is_none remote_path gen st)
    as [[gen'|e] st1]; [|discriminate].
  pose proof (transfer_outcome filepath remote_path remote_meta st1) as Ht.
  destruct (transfer C filepath remote_path remote_meta st1) as [[o|e] st2];
    [|discriminate].
  unfold ret. cbn [fst] in *. congruence.
Qed.

(** From the read of the local file on. *)
Lemma compare_then_act (filepath remote_path : string)
    (remote_meta : RemoteEntry) (remote_md5_is_none : bool) (st : state W) :
  let file := file_bytes C filepath (world st) in
  (exists remote_meta',
      fst ((file <- observe (file_bytes C filepath) ;;
            '(synced, gen) <- compare_files file remote_meta remote_md5_is_none
                                (md5_file_generator file default_size) ;;
            if synced then
              call_ (filer_remove_file_tags C remote_path)
                    (EvRemoveTags remote_path) ;;;
              update_remote_md5 C remote_md5_is_none remote_path gen ;;;
              ret (AlreadySynced, remote_meta)
            else
              update_remote_md5 C remote_md5_is_none remote_path gen ;;;
              result <- transfer C filepath remote_path remote_meta ;;
              ret (result, remote_meta)) st)
      = Ok (AlreadySynced, remote_meta'))
  <-> Z.of_nat (List.length file) = FileSize remote_meta
      /\ if remote_md5_is_none
         then chunk_digests_match file (chunks remote_meta)
         else Base64.b64decode (Md5 remote_meta) = Some (Hashlib.md5 file).
Proof.
  intros file.
  unfold bind at 1. unfold observe at 1. fold file.
  unfold bind at 1.
  destruct remote_md5_is_none.
  - (* no whole-file digest: the chunks decide *)
    unfold compare_files. cbn [negb].
    destruct (Z.of_nat (List.length file) =? FileSize remote_meta) eqn:Hsize.
    + apply Z.eqb_eq in Hsize.
      pose proof (chunks_md5s_equals_file (chunks remote_meta) file st) as Hspec.
      pose proof (chunks_md5s_equals_state (chunks remote_meta)
                    (md5_file_generator file default_size) st) as Hst.
      destruct (chunks_md5s_equals (chunks remote_meta)
                  (md5_file_generator file default_size) st)
        as [[[synced gen]|e] st1]; cbn [fst snd] in *.
      * subst st1. destruct synced.
        -- rewrite synced_branch. rewrite <- Hspec. split.
           ++ intros Hgen. split; [assumption|].
              destruct gen as [|value gen']; [exfalso; apply Hgen; reflexivity|].
              eauto.
           ++ intros [_ [value [gen' Heq]]] _. injection Heq as ->. discriminate.
        -- split.
           ++ intros [m H]. exfalso. revert H. apply not_synced_branch.
           ++ intros [_ H]. apply Hspec in H. destruct H as [v [g H]]. discriminate H.
      * split.
        -- intros [m H]. discriminate H.
        -- intros [_ H]. apply Hspec in H. destruct H as [v [g H]]. discriminate H.
    + apply Z.eqb_neq in Hsize. unfold ret at 1. split.
      * intros [m H]. exfalso. revert H. apply not_synced_branch.
      * intros [H _]. contradiction.
  - (* a whole-file digest is known *)
    rewrite compare_known.
    destruct (Z.of_nat (List.length file) =? FileSize remote_meta) eqn:Hsize.
    + apply Z.eqb_eq in Hsize.
      destruct (Base64.b64decode (Md5 remote_meta)) as [remote|].
      * destruct (bytes_eqb (Hashlib.md5 file) remote) eqn:Heq.
        -- apply bytes_eqb_eq in Heq. subst remote. rewrite synced_branch.
           split; [auto | intros _ H; discriminate H].
        -- apply bytes_eqb_neq in Heq. split.
           ++ intros [m H]. exfalso. revert H. apply not_synced_branch.
           ++ intros [_ H]. congruence.
      * split; [intros [m H]; discriminate H | intros [_ H]; discriminate H].
    + apply Z.eqb_neq in Hsize. split.
      * intros [m H]. exfalso. revert H. apply not_synced_branch.
      * intros [H _]. contradiction.
Qed.

(** C1: [sync_both_file] leaves through its already-synced exit exactly
    when the local size equals [FileSize] and, with a whole-file digest
    known (the entry's [Md5] when it is not the marker, else the store-held
    tag when it is not empty), the local whole-file MD5 is that digest, or,
    with none known, every remote chunk digest is the MD5 of the local byte
    range at the same position, the ranges being read in order. *)
Theorem already_synced_iff (filepath remote_path : string)
    (remote_meta : RemoteEntry) (st : state W) :
  let answer := filer_get_file_md5_tag C remote_path (world st) in
  let tag := fst answer in
  let file :=
    file_bytes C filepath
      (if String.eqb (Md5 remote_meta) "None" then snd answer else world st) in
  (exists remote_meta',
      fst (sync_both_file C filepath remote_path remote_meta st)
      = Ok (AlreadySynced, remote_meta'))
  <-> Z.of_nat (List.length file) = FileSize remote_meta
      /\ match known_digest remote_meta tag with
         | Some digest => Base64.b64decode digest = Some (Hashlib.md5 file)
         | None => chunk_digests_match file (chunks remote_meta)
         end.
Proof.
  intros answer tag file.
  unfold sync_both_file.
  unfold bind at 1. unfold emit at 1. cbn [fst snd].
  unfold bind at 1. unfold resolve_remote_md5, known_digest.
  subst file tag.
  destruct (String.eqb (Md5 remote_meta) "None") eqn:Hnone.
  - unfold bind at 1. unfold call at 1. cbn [world trace heap].
    fold answer. destruct answer as [tag w1]. cbn [fst snd].
    destruct (String.eqb tag "") eqn:Htag; cbn [negb]; unfold ret at 1.
    + rewrite compare_then_act. cbn [world]. reflexivity.
    + split.
      * intros [m H].
        assert (Hex : exists m', fst _ = Ok (AlreadySynced, m')) by (exists m; exact H).
        apply compare_then_act in Hex. cbn [world] in Hex.
        rewrite !(proj1 (set_Md5_fields remote_meta tag)) in Hex.
        exact Hex.
      * intros Hspec.
        pose proof (compare_then_act filepath remote_path
                      (set_Md5 remote_meta tag) false
                      {| world := w1;
                         trace := EvGetMd5Tag remote_path tag
                                  :: EvSyncBothFile filepath remote_path :: trace st;
                         heap := heap st |}) as Hc.
        cbn [world] in Hc. apply Hc. exact Hspec.
  - unfold ret at 1. rewrite compare_then_act. cbn [world]. reflexivity.
Qed.

(** [update_remote_md5] stores whatever value the generator yields next. *)
Lemma update_remote_md5_stores_next (remote_path : string) (value : list byte)
    (gen' : generator) (st : state W) :
  update_remote_md5 C true remote_path (value :: gen') st
  = (Ok gen',
     mkState
       (filer_set_file_md5_tag C remote_path (Base64.b64encode value) (world st))
       (EvSetMd5Tag remote_path (Base64.b64encode value) :: trace st)
       (heap st)).
Proof. reflexivity. Qed.

(** C10: with the digest unset, an empty tag and an empty chunk list, a
    local size equal to [FileSize] is all it takes: the file is reported
    already synced whatever its content, the first value of the generator
    is stored as the tag, and the entry is unchanged. *)
Theorem empty_chunk_list_synced (filepath remote_path : string)
    (remote_meta : RemoteEntry) (st : state W) :
  Md5 remote_meta = "None" ->
  fst (filer_get_file_md5_tag C remote_path (world st)) = "" ->
  chunks remote_meta = [] ->
  Z.of_nat (List.length
              (file_bytes C filepath
                 (snd (filer_get_file_md5_tag C remote_path (world st)))))
  = FileSize remote_meta ->
  fst (sync_both_file C filepath remote_path remote_meta st)
  = Ok (AlreadySynced, remote_meta).
Proof.
  intros Hmd5 Htag Hchunks Hsize.
  unfold sync_both_file, resolve_remote_md5, compare_files, update_remote_md5.
  rewrite Hmd5, String.eqb_refl. run.
  destruct (filer_get_file_md5_tag C remote_path (world st)) as [tag w1].
  cbn [fst snd] in *. subst tag. run. rewrite String.eqb_refl. cbn [negb]. run.
  rewrite (proj2 (Z.eqb_eq _ _) Hsize), Hchunks. cbn [chunks_md5s_equals]. run.
  rewrite md5_file_generator_spec.
  destruct (map Hashlib.md5 (FileIO.read_chunks default_size (file_bytes C filepath w1))
            ++ [Hashlib.md5 (List.concat (FileIO.read_chunks default_size
                                            (file_bytes C filepath w1)))])
    as [|value gen'] eqn:Hgen.
  - apply app_eq_nil in Hgen. destruct Hgen as [_ Hgen]. discriminate Hgen.
  - reflexivity.
Qed.
End SyncBothFile.

(** ** What the engine asks of its collaborators: traces *)

Section Traces.

Context {W : Type}.

Variable P : event -> Prop.

Lemma emits_ret {A : Type} (a : A) : emits P (@ret W A a).
Proof. intros st. exists []. split; [reflexivity | constructor]. Qed.

Lemma emits_raise {A : Type} (e : exn) : emits P (@raise W A e).
Proof. intros st. exists []. split; [reflexivity | constructor]. Qed.

Lemma emits_bind {A B : Type} (m : M W A) (k : A -> M W B) :
  emits P m -> (forall a, emits P (k a)) -> emits P (bind m k).
Proof.
  intros Hm Hk st. unfold bind.
  destruct (Hm st) as [evs [Ht Hall]].
  destruct (m st) as [[a|e] st1]; cbn [snd] in *.
  - destruct (Hk a st1) as [evs' [Ht' Hall']].
    exists (evs' ++ evs). rewrite Ht', Ht, app_assoc.
    split; [reflexivity | apply Forall_app; auto].
  - exists evs. auto.
Qed.

Lemma emits_call {A : Type} (op : W -> A * W) (ev : A -> event) :
  (forall a, P (ev a)) -> emits P (call op ev).
Proof.
  intros Hev st. unfold call. destruct (op (world st)) as [a w].
  exists [ev a]. split; [reflexivity | repeat constructor; apply Hev].
Qed.

Lemma emits_call_ (op : W -> W) (ev : event) : P ev -> emits P (call_ op ev).
Proof.
  intros Hev st. exists [ev]. split; [reflexivity | repeat constructor; exact Hev].
Qed.

Lemma emits_emit (ev : event) : P ev -> emits P (@emit W ev).
Proof.
  intros Hev st. exists [ev]. split; [reflexivity | repeat constructor; exact Hev].
Qed.

Lemma emits_observe {A : Type} (f : W -> A) : emits P (observe f).
Proof. intros st. exists []. split; [reflexivity | constructor]. Qed.

Lemma emits_heap_get (ref : nat) : emits P (@heap_get W ref).
Proof. intros st. exists []. split; [reflexivity | constructor]. Qed.

Lemma emits_heap_set (ref : nat) (e : RemoteEntry) : emits P (@heap_set W ref e).
Proof. intros st. exists []. split; [reflexivity | constructor]. Qed.

Lemma emits_next (gen : generator) : emits P (@next W gen).
Proof. destruct gen; [apply emits_raise | apply emits_ret]. Qed.

Lemma emits_if {A : Type} (b : bool) (m1 m2 : M W A) :
  emits P m1 -> emits P m2 -> emits P (if b then m1 else m2).
Proof. destruct b; auto. Qed.

End Traces.

Create HintDb emits discriminated.

#[export] Hint Resolve emits_ret emits_raise emits_call emits_call_ emits_emit
  emits_observe emits_heap_get emits_heap_set emits_next emits_if : emits.

#[export] Hint Extern 1 (quiet _) => exact I : emits.

(** Splits binds and branches, then closes the leaves from the hints. *)
Ltac emits_auto :=
  repeat first
    [ apply emits_bind; [| intros ?]
    | apply emits_if
    | match goal with
      | |- emits _ (match ?x with _ => _ end) => destruct x
      end ];
  auto with emits; try (intros; exact I).

Section QuietParts.

Context {W : Type} (C : Collaborators W).

Lemma quiet_silent_remove (filename : string) :
  emits quiet (silent_remove C filename).
Proof. unfold silent_remove. emits_auto. Qed.

Lemma quiet_make_version_delta (filepath rel_path : string) :
  emits quiet (_sync_make_version_delta C filepath rel_path).
Proof. unfold _sync_make_version_delta. emits_auto. Qed.

Lemma quiet_upload (filepath remote_path : string) :
  emits quiet (_sync_both_file_upload C filepath remote_path).
Proof. unfold _sync_both_file_upload. emits_auto. Qed.

Lemma quiet_download (filepath remote_path : string) :
  emits quiet (_sync_both_file_download C filepath remote_path).
Proof.
  unfold _sync_both_file_download. emits_auto.
Qed.

Lemma quiet_chunks_md5s_equals (remote_chunks : list Chunk) :
  forall gen : generator,
    emits quiet (@chunks_md5s_equals W remote_chunks gen).
Proof.
  induction remote_chunks as [|c rest IH]; intros gen; cbn [chunks_md5s_equals].
  - auto with emits.
  - emits_auto.
Qed.

Lemma quiet_update_remote_md5 (none : bool) (remote_path : string)
    (gen : generator) :
  emits quiet (update_remote_md5 C none remote_path gen).
Proof. unfold update_remote_md5. emits_auto. Qed.

Lemma quiet_resolve_remote_md5 (remote_path : string) (remote_meta : RemoteEntry) :
  emits quiet (resolve_remote_md5 C remote_path remote_meta).
Proof. unfold resolve_remote_md5. emits_auto. Qed.

Lemma quiet_compare_files (file : list byte) (remote_meta : RemoteEntry)
    (none : bool) (gen : generator) :
  emits quiet (@compare_files W file remote_meta none gen).
Proof.
  unfold compare_files. emits_auto. apply quiet_chunks_md5s_equals.
Qed.

Lemma quiet_transfer (filepath remote_path : string) (remote_meta : RemoteEntry) :
  emits quiet (transfer C filepath remote_path remote_meta).
Proof.
  unfold transfer. emits_auto;
    first [apply quiet_make_version_delta | apply quiet_upload
          | apply quiet_download].
Qed.

(** [sync_both_file] marks its call first; nothing it does afterwards is
    such a mark. *)
Lemma sync_both_file_trace (filepath remote_path : string)
    (remote_meta : RemoteEntry) (st : state W) :
  exists evs,
    trace (snd (sync_both_file C filepath remote_path remote_meta st))
    = evs ++ EvSyncBothFile filepath remote_path :: trace st
    /\ Forall quiet evs.
Proof.
  unfold sync_both_file. unfold bind at 1. unfold emit at 1.
  match goal with
  | |- context [snd (?m ?s)] =>
      assert (Hm : emits quiet m); [| destruct (Hm s) as [evs [Ht Hall]]]
  end.
  - emits_auto. apply quiet_chunks_md5s_equals.
  - exists evs. auto.
Qed.

End QuietParts.

(** ** The lock protocol of a conflict-resolution pass *)

Lemma guarded_app (cid : string) (newer older : list event) :
  guarded cid newer -> guarded cid older -> guarded cid (newer ++ older).
Proof.
  intros Hnew Hold. induction Hnew; cbn [app].
  - exact Hold.
  - apply guarded_quiet; assumption.
  - apply guarded_sync. assumption.
Qed.

Lemma guarded_all_quiet (cid : string) (evs : list event) :
  Forall quiet evs -> guarded cid evs.
Proof.
  induction 1 as [|ev evs Hq _ IH]; [constructor | apply guarded_quiet; assumption].
Qed.

Lemma guarded_lock_confirmed (cid : string) (evs : list event) :
  guarded cid evs -> lock_confirmed cid evs.
Proof.
  induction 1 as [|ev evs Hq Hg IH|fp rp evs Hg IH];
    intros later filepath remote_path earlier Heq.
  - destruct later; discriminate Heq.
  - destruct later as [|ev' later]; cbn [app] in Heq.
    + injection Heq as -> _. destruct Hq.
    + injection Heq as _ Heq. apply (IH _ _ _ _ Heq).
  - destruct later as [|e1 later]; cbn [app] in Heq.
    + injection Heq as <- <- <-. eauto.
    + injection Heq as _ Heq.
      destruct later as [|e2 later]; cbn [app] in Heq; [discriminate Heq|].
      injection Heq as _ Heq.
      destruct later as [|e3 later]; cbn [app] in Heq; [discriminate Heq|].
      injection Heq as _ Heq.
      destruct later as [|e4 later]; cbn [app] in Heq; [discriminate Heq|].
      injection Heq as _ Heq. apply (IH _ _ _ _ Heq).
Qed.

Section Locks.

Context {W : Type} (C : Collaborators W).

(** A pass only ever appends to the retry queue. *)
Lemma sync_both_files_appends (base_path : string) (both : list (string * nat)) :
  forall (repeat repeat' : list (string * nat)) (st : state W),
    fst (sync_both_files C base_path both repeat st) = Ok repeat' ->
    exists added, repeat' = repeat ++ added.
Proof.
  induction both as [|[remote_path ref] rest IH]; intros repeat repeat' st;
    cbn [sync_both_files].
  - run. intros [= <-]. exists []. symmetry. apply app_nil_r.
  - unfold bind at 1. unfold call at 1.
    destruct (filer_get_file_lock C remote_path (world st)) as [held w1].
    assert (Hdefer : forall st1,
               fst (sync_both_files C base_path rest
                      (repeat ++ [(remote_path, ref)]) st1) = Ok repeat' ->
               exists added, repeat' = repeat ++ added).
    { intros st1 H. apply IH in H. destruct H as [added ->].
      rewrite <- app_assoc. eauto. }
    destruct (negb (String.eqb held "")); [apply Hdefer|].
    unfold bind at 1. unfold call_ at 1. unfold bind at 1. unfold call at 1.
    cbn [world trace heap].
    destruct (filer_get_file_lock C remote_path _) as [lock w3].
    destruct (String.eqb lock (client_id C)); [|apply Hdefer].
    unfold bind at 1. unfold heap_get at 1. unfold bind at 1.
    destruct (sync_both_file C _ remote_path _ _) as [[[result meta']|e] st4];
      [|discriminate].
    unfold bind at 1. unfold heap_set at 1.
    destruct (ret_code result =? 0); [apply Hdefer | apply IH].
Qed.

(** The trace of a pass is guarded. *)
Lemma sync_both_files_guarded (base_path : string) (both : list (string * nat)) :
  forall (repeat : list (string * nat)) (st : state W),
  exists evs,
    trace (snd (sync_both_files C base_path both repeat st)) = evs ++ trace st
    /\ guarded (client_id C) evs.
Proof.
  induction both as [|[remote_path ref] rest IH]; intros repeat st;
    cbn [sync_both_files].
  - exists []. split; [reflexivity | constructor].
  - unfold bind at 1. unfold call at 1.
    destruct (filer_get_file_lock C remote_path (world st)) as [held w1].
    destruct (String.eqb held "") eqn:Hheld; cbn [negb].
    + apply String.eqb_eq in Hheld. subst held.
      unfold bind at 1. unfold call_ at 1. unfold bind at 1. unfold call at 1.
      cbn [world trace heap].
      destruct (filer_get_file_lock C remote_path _) as [lock w3].
      destruct (String.eqb lock (client_id C)) eqn:Hlock.
      * apply String.eqb_eq in Hlock. subst lock.
        unfold bind at 1. unfold heap_get at 1. unfold bind at 1.
        cbn [world trace heap].
        match goal with
        | |- context [sync_both_file C ?fp remote_path ?m ?s] =>
            destruct (sync_both_file_trace C fp remote_path m s)
              as [evs_s [Hts Hq]];
            destruct (sync_both_file C fp remote_path m s)
              as [[[result meta']|e] st4]
        end; destruct st4 as [w4 t4 h4]; cbn [snd trace] in Hts; subst t4;
          cbn [world trace heap].
        -- match goal with
           | |- context [{| world := w4; trace := ?t; heap := _ |}] =>
               set (t4 := t) in *
           end.
           assert (Hnext : forall rep,
                     exists evs,
                       trace (snd (sync_both_files C base_path rest rep
                                     {| world := w4; trace := t4;
                                        heap := list_set h4 ref meta' |}))
                       = evs ++ trace st
                       /\ guarded (client_id C) evs).
           { intros rep. destruct (IH rep
                 {| world := w4; trace := t4;
                    heap := list_set h4 ref meta' |}) as [evs [Ht Hg]].
             cbn [trace] in Ht. subst t4.
             exists (evs ++ evs_s
                     ++ [EvSyncBothFile (base_path +++ "/" +++ remote_path) remote_path;
                         EvGetLock remote_path (client_id C);
                         EvSetLock remote_path; EvGetLock remote_path ""]).
             split.
             - rewrite Ht. rewrite <- !app_assoc. reflexivity.
             - apply guarded_app; [exact Hg|].
               apply guarded_app; [apply guarded_all_quiet; exact Hq|].
               apply guarded_sync. constructor. }
           unfold bind at 1. unfold heap_set at 1.
           destruct (ret_code result =? 0); apply Hnext.
        -- cbn [snd trace].
           exists (evs_s
                   ++ [EvSyncBothFile (base_path +++ "/" +++ remote_path) remote_path;
                       EvGetLock remote_path (client_id C);
                       EvSetLock remote_path; EvGetLock remote_path ""]).
           split.
           ++ rewrite <- !app_assoc. reflexivity.
           ++ apply guarded_app; [apply guarded_all_quiet; exact Hq|].
              apply guarded_sync. constructor.
      * match goal with
        | |- context [sync_both_files C base_path rest ?rep ?s] =>
            destruct (IH rep s) as [evs [Ht Hg]]
        end.
        cbn [trace] in Ht.
        exists (evs ++ [EvGetLock remote_path lock; EvSetLock remote_path;
                        EvGetLock remote_path ""]).
        split.
        -- rewrite Ht, <- app_assoc. reflexivity.
        -- apply guarded_app; [exact Hg|].
           apply guarded_all_quiet. repeat constructor.
    + match goal with
      | |- context [sync_both_files C base_path rest ?rep ?s] =>
          destruct (IH rep s) as [evs [Ht Hg]]
      end.
      cbn [trace] in Ht.
      exists (evs ++ [EvGetLock remote_path held]).
      split.
      * rewrite Ht, <- app_assoc. reflexivity.
      * apply guarded_app; [exact Hg|].
        apply guarded_all_quiet. repeat constructor.
Qed.

(** A file whose lock is held is put on the retry queue at once. *)
Lemma sync_both_files_held (base_path remote_path : string) (ref : nat)
    (rest repeat : list (string * nat)) (st : state W) :
  fst (filer_get_file_lock C remote_path (world st)) <> "" ->
  sync_both_files C base_path ((remote_path, ref) :: rest) repeat st
  = sync_both_files C base_path rest (repeat ++ [(remote_path, ref)])
      {| world := snd (filer_get_file_lock C remote_path (world st));
         trace := EvGetLock remote_path
                    (fst (filer_get_file_lock C remote_path (world st)))
                  :: trace st;
         heap := heap st |}.
Proof.
  intros Hheld. cbn [sync_both_files]. unfold bind at 1. unfold call at 1.
  destruct (filer_get_file_lock C remote_path (world st)) as [held w1].
  cbn [fst snd] in *. apply String.eqb_neq in Hheld. rewrite Hheld. reflexivity.
Qed.

(** So is a file whose lock, once set, reads back as someone else's. *)
Lemma sync_both_files_lost_race (base_path remote_path : string) (ref : nat)
    (rest repeat : list (string * nat)) (st : state W) :
  let first := filer_get_file_lock C remote_path (world st) in
  let second :=
    filer_get_file_lock C remote_path
                        (filer_set_file_lock C remote_path (snd first)) in
  fst first = "" ->
  fst second <> client_id C ->
  sync_both_files C base_path ((remote_path, ref) :: rest) repeat st
  = sync_both_files C base_path rest (repeat ++ [(remote_path, ref)])
      {| world := snd second;
         trace := EvGetLock remote_path (fst second)
                  :: EvSetLock remote_path
                  :: EvGetLock remote_path "" :: trace st;
         heap := heap st |}.
Proof.
  intros first second Hfree Hlost. subst second first.
  cbn [sync_both_files]. unfold bind at 1. unfold call at 1.
  destruct (filer_get_file_lock C remote_path (world st)) as [held w1].
  cbn [fst snd] in *. subst held. cbn [String.eqb negb].
  unfold bind at 1. unfold call_ at 1. unfold bind at 1. unfold call at 1.
  cbn [world trace heap].
  destruct (filer_get_file_lock C remote_path _) as [lock w3].
  cbn [fst snd] in *. apply String.eqb_neq in Hlost. rewrite Hlost. reflexivity.
Qed.

End Locks.

Section LockTheorem.

Context {W : Type} (C : Collaborators W).

(** C6: in a pass over [both], every call of [sync_both_file] comes right
    after the lock, found free and then set, read back as this client's
    identity.  A file whose first lock query shows an owner, or whose lock
    reads back as another identity, is appended to the retry queue with
    nothing done to it but the lock calls, and it is still in the queue
    when the pass returns. *)
Theorem lock_guards_mutation (base_path : string)
    (both repeat : list (string * nat)) (st : state W) :
  let pass := sync_both_files C base_path both repeat st in
  (exists evs,
      trace (snd pass) = evs ++ trace st /\ lock_confirmed (client_id C) evs)
  /\ (forall remote_path ref rest,
        both = (remote_path, ref) :: rest ->
        let first := filer_get_file_lock C remote_path (world st) in
        let second :=
          filer_get_file_lock C remote_path
                              (filer_set_file_lock C remote_path (snd first)) in
        (fst first <> "" ->
         pass = sync_both_files C base_path rest (repeat ++ [(remote_path, ref)])
                  {| world := snd first;
                     trace := EvGetLock remote_path (fst first) :: trace st;
                     heap := heap st |}
         /\ forall repeat', fst pass = Ok repeat' -> In (remote_path, ref) repeat')
        /\ (fst first = "" -> fst second <> client_id C ->
            pass = sync_both_files C base_path rest (repeat ++ [(remote_path, ref)])
                     {| world := snd second;
                        trace := EvGetLock remote_path (fst second)
                                 :: EvSetLock remote_path
                                 :: EvGetLock remote_path "" :: trace st;
                        heap := heap st |}
            /\ forall repeat', fst pass = Ok repeat' -> In (remote_path, ref) repeat')).
Proof.
  intros pass. split.
  - destruct (sync_both_files_guarded C base_path both repeat st) as [evs [Ht Hg]].
    exists evs. split; [exact Ht | apply guarded_lock_confirmed, Hg].
  - intros remote_path ref rest -> first second. subst pass.
    assert (Hin : forall st1 repeat',
               fst (sync_both_files C base_path rest
                      (repeat ++ [(remote_path, ref)]) st1) = Ok repeat' ->
               In (remote_path, ref) repeat').
    { intros st1 repeat' H. apply sync_both_files_appends in H.
      destruct H as [added ->]. rewrite !in_app_iff. left. right. left. reflexivity. }
    split.
    + intros Hheld.
      rewrite (sync_both_files_held C base_path remote_path ref rest repeat st Hheld).
      split; [reflexivity | apply Hin].
    + intros Hfree Hlost.
      rewrite (sync_both_files_lost_race C base_path remote_path ref rest repeat st
                 Hfree Hlost).
      split; [reflexivity | apply Hin].
Qed.

End LockTheorem.

(** ** Failures of the delta engine *)

Section DeltaFailures.

Context {W : Type} (C : Collaborators W).

(** On the upload path a failed signature ends the attempt with 0. *)
Lemma make_version_delta_signature_failure (filepath rel_path : string)
    (st : state W) :
  fst (rdiff_signature C filepath (temp_dir_name C +++ "/" +++ rel_path +++ ".sig")
                       (world st)) <> 0 ->
  fst (_sync_make_version_delta C filepath rel_path st) = Ok 0.
Proof.
  intros Hfail. unfold _sync_make_version_delta. run.
  destruct (rdiff_signature C filepath _ (world st)) as [status w1].
  cbn [fst] in Hfail. apply Z.eqb_neq in Hfail. run. rewrite Hfail. reflexivity.
Qed.

(** So does a failed delta. *)
Lemma upload_delta_failure (filepath remote_path : string) (st : state W) :
  let fetched :=
    filer_download_file C (remote_path +++ ".sig.v") (temp_dir_name C) (world st) in
  fst (rdiff_delta C (snd (fst fetched)) filepath
                   (temp_dir_name C +++ "/" +++ remote_path +++ ".delta")
                   (snd fetched)) <> 0 ->
  fst (_sync_both_file_upload C filepath remote_path st) = Ok 0.
Proof.
  intros fetched Hfail. subst fetched. unfold _sync_both_file_upload. run.
  destruct (filer_download_file C _ _ (world st)) as [[r sig_path] w1]. run.
  cbn [fst snd] in Hfail.
  destruct (rdiff_delta C sig_path filepath _ w1) as [status w2].
  cbn [fst] in Hfail. apply Z.eqb_neq in Hfail. run. rewrite Hfail. reflexivity.
Qed.

(** On the download path a failed patch ends the attempt with 0. *)
Lemma download_patch_failure (filepath remote_path : string) (st : state W) :
  let sig_path := temp_dir_name C +++ "/" +++ remote_path +++ ".sig" in
  let signed := rdiff_signature C filepath sig_path (world st) in
  let answer := ws_download_new_file_version C sig_path remote_path (snd signed) in
  fst (fst answer) = 200 ->
  fst (rdiff_patch C filepath (snd (fst answer)) (filepath +++ "_2") (snd answer))
  <> 0 ->
  fst (_sync_both_file_download C filepath remote_path st) = Ok 0.
Proof.
  intros sig_path signed answer Hok Hfail. subst answer signed sig_path.
  unfold _sync_both_file_download. run.
  destruct (rdiff_signature C filepath _ (world st)) as [s w1]. run.
  cbn [fst snd] in *.
  destruct (ws_download_new_file_version C _ remote_path w1)
    as [[r delta_path] w2]. run.
  cbn [fst snd] in *. subst r. cbn [Z.eqb Pos.eqb negb]. run.
  destruct (rdiff_patch C filepath delta_path _ w2) as [status w3].
  cbn [fst] in Hfail. apply Z.eqb_neq in Hfail. run. rewrite Hfail. reflexivity.
Qed.

(** The status of the signature made on the download path is not looked
    at: with the delta received, the patch applied and the old file
    removed, the attempt ends with 1 whatever that status was. *)
Lemma download_ignores_signature (filepath remote_path : string) (st : state W) :
  let sig_path := temp_dir_name C +++ "/" +++ remote_path +++ ".sig" in
  let signed := rdiff_signature C filepath sig_path (world st) in
  let answer := ws_download_new_file_version C sig_path remote_path (snd signed) in
  let patched :=
    rdiff_patch C filepath (snd (fst answer)) (filepath +++ "_2") (snd answer) in
  fst (fst answer) = 200 ->
  fst patched = 0 ->
  fst (os_remove C filepath (snd patched)) = None ->
  fst (_sync_both_file_download C filepath remote_path st) = Ok 1.
Proof.
  intros sig_path signed answer patched Hok Hpatch Hrm.
  subst patched answer signed sig_path.
  unfold _sync_both_file_download, silent_remove. run.
  destruct (rdiff_signature C filepath _ (world st)) as [s w1]. run.
  cbn [fst snd] in *.
  destruct (ws_download_new_file_version C _ remote_path w1)
    as [[r delta_path] w2]. run.
  cbn [fst snd] in *. subst r. cbn [Z.eqb Pos.eqb negb]. run.
  destruct (rdiff_patch C filepath delta_path _ w2) as [status w3]. run.
  cbn [fst snd] in *. subst status. cbn [Z.eqb negb]. run.
  destruct (os_remove C filepath w3) as [err w4]. run.
  cbn [fst] in Hrm. subst err. reflexivity.
Qed.

End DeltaFailures.

(** ** The retry loop *)

Section Retry.

Context {W : Type} (C : Collaborators W).

(** A pass never takes anything off the retry queue, so once the loop is
    entered with a file waiting it does not come to its [return 1]: with
    any number of rounds allowed it is still running, or has raised. *)
Lemma retry_loop_never_returns (base_path : string) (repeat_time : Z) :
  forall (fuel : nat) (repeat : list (string * nat)) (st : state W) (code : Z),
    repeat <> [] ->
    fst (retry_loop C fuel base_path repeat_time repeat st) <> Ok (Some code).
Proof.
  induction fuel as [|fuel IH]; intros repeat st code Hne;
    destruct repeat as [|b repeat]; try congruence; cbn [retry_loop].
  - discriminate.
  - unfold bind at 1. unfold call_ at 1. unfold bind at 1. unfold emit at 1.
    unfold bind at 1.
    match goal with
    | |- context [sync_both_files C base_path ?both ?rep ?s] =>
        pose proof (sync_both_files_appends C base_path both rep) as Happ;
        destruct (sync_both_files C base_path both rep s) as [[repeat'|e] st1] eqn:Hpass
    end; [|discriminate].
    specialize (Happ repeat' _ (f_equal fst Hpass)).
    destruct Happ as [added ->]. apply IH. discriminate.
Qed.

End Retry.

(** ** Concrete runs *)

(** C7, at a failing input: on the download path the signature fails
    (status 1), the attempt goes on to the delta and the patch, ends with
    success and the file is not put on the retry queue. *)
Theorem signature_failure_on_download_not_requeued :
  sync_both_files Runs.collab "base" [("docs/f", 0%nat)] [] Runs.signature_fails
  = (Ok [],
     mkState
       (Sim.mkWorld [("base/docs/f", bytes_of_string "abd")] [] [] (200, [])
                    [] [] [] [] [])
       [EvPrint "Success download!";
        EvRenames "base/docs/f_2" "base/docs/f";
        EvRemove "base/docs/f";
        EvPatch "base/docs/f" "/tmp/scratch/docs/f.sig.delta" "base/docs/f_2" 0;
        EvDownloadNewVersion "/tmp/scratch/docs/f.sig" "docs/f" 200;
        EvSignature "base/docs/f" "/tmp/scratch/docs/f.sig" 1;
        EvSyncBothFile "base/docs/f" "docs/f";
        EvGetLock "docs/f" Runs.me; EvSetLock "docs/f"; EvGetLock "docs/f" ""]
       [Runs.entry_abc]).
Proof. vm_compute. reflexivity. Qed.

(** C8, at a failing input: the file is deferred in the first pass; the
    re-run over the queue syncs it successfully and the queue still holds
    it; and with three retry rounds, each of which syncs the file, the
    loop is still running. *)
Theorem retry_queue_is_never_drained :
  let b := ("docs/f", 0%nat) in
  let first_pass :=
    sync_both_files Runs.collab "base" [b] []
      (mkState Runs.contended_then_free [] [Runs.entry_abc]) in
  let second_pass :=
    sync_both_files Runs.collab "base" [b] [b] (snd first_pass) in
  let run :=
    sync_folder Runs.collab 3 "base/docs" "base" true 60
                (Sim.start Runs.contended_then_free) in
  fst first_pass = Ok [b]
  /\ sync_calls (trace (snd first_pass)) = 0%nat
  /\ fst second_pass = Ok [b]
  /\ trace (snd second_pass)
     = [EvRemoveTags "docs/f"; EvSyncBothFile "base/docs/f" "docs/f";
        EvGetLock "docs/f" Runs.me; EvSetLock "docs/f"; EvGetLock "docs/f" "";
        EvGetLock "docs/f" "other"]
  /\ fst run = Ok None
  /\ sync_calls (trace (snd run)) = 3%nat
  /\ filter (fun ev => match ev with EvSleep _ => true | _ => false end)
            (trace (snd run))
     = [EvSleep 60; EvSleep 60; EvSleep 60].
Proof. vm_compute. repeat split; reflexivity. Qed.

(** C2, at a failing input: the comparison leaves at the first chunk, and
    the tag stored afterwards is the digest of the second chunk (a single
    zero byte), not that of the file. *)
Theorem md5_tag_after_early_exit :
  persisted_tags
    (trace (snd (sync_both_file Runs.collab "base/docs/big" "docs/big"
                                Runs.entry_two_chunks Runs.early_exit)))
  = ["k7iFrf4NoInN9jSQT9WfcQ=="]
  /\ Base64.b64encode (Hashlib.md5 [x00]) = "k7iFrf4NoInN9jSQT9WfcQ=="
  /\ Base64.b64encode (Hashlib.md5 Runs.two_chunks) = "lYexSf85LKaIegXZIec+cg==".
Proof. vm_compute. repeat split; reflexivity. Qed.

Lemma empty_chunk_list_synced_witness :
  fst (sync_both_file Runs.collab "base/docs/f" "docs/f"
                      Runs.entry_no_chunks Runs.no_chunks)
  = Ok (AlreadySynced, Runs.entry_no_chunks).
Proof.
  apply (empty_chunk_list_synced Runs.collab "base/docs/f" "docs/f"
           Runs.entry_no_chunks Runs.no_chunks); reflexivity.
Defined.

(** The detector on a small tree. *)
Example sync_folder_listing_run :
  fst (sync_folder_listing Runs.collab "base\docs" "base" true
                           (Sim.start Runs.listing_world))
  = Ok (200, Some ("base", ["docs/mine"; "docs/sub/g"]), ["docs/theirs"],
        [("docs/f", 0%nat)])
  /\ fst (sync_folder_listing Runs.collab "base/docs" "base" true
                              (Sim.start Runs.listing_refused))
     = Ok (404, None, [], []).
Proof. vm_compute. split; reflexivity. Qed.

(** A pass over three files: two deferred, one synced. *)
Example sync_both_files_run :
  let pass :=
    sync_both_files Runs.collab "base" [("a", 0%nat); ("b", 1%nat); ("c", 2%nat)]
                    [] Runs.three_files in
  fst pass = Ok [("a", 0%nat); ("b", 1%nat)]
  /\ trace (snd pass)
     = [EvRemoveTags "c"; EvSyncBothFile "base/c" "c";
        EvGetLock "c" Runs.me; EvSetLock "c"; EvGetLock "c" "";
        EvGetLock "b" "other"; EvSetLock "b"; EvGetLock "b" "";
        EvGetLock "a" "other"].
Proof. vm_compute. split; reflexivity. Qed.

(** The comparison on small files: by chunks when they agree, and the tag
    stored then is the whole-file digest; a file of a single chunk gets
    the right tag even when the comparison leaves early. *)
Example sync_both_file_small_files :
  let agree :=
    sync_both_file Runs.collab "base/docs/f" "docs/f"
                   (Runs.entry_one_chunk Runs.abc_md5) Runs.one_chunk in
  let differ :=
    sync_both_file Runs.collab "base/docs/f" "docs/f"
                   (Runs.entry_one_chunk Runs.a_md5) Runs.one_chunk in
  fst agree = Ok (AlreadySynced, Runs.entry_one_chunk Runs.abc_md5)
  /\ persisted_tags (trace (snd agree)) = [Runs.abc_md5]
  /\ fst differ = Ok (Downloaded, Runs.entry_one_chunk Runs.a_md5)
  /\ persisted_tags (trace (snd differ)) = [Runs.abc_md5].
Proof. vm_compute. repeat split; reflexivity. Qed.

(** More remote chunks than local ones: the extra chunk is compared with
    the whole-file digest, and the call then fails for want of a value to
    store. *)
Example sync_both_file_extra_remote_chunk :
  fst (sync_both_file Runs.collab "base/docs/f" "docs/f"
         (mkEntry 420 "/u/docs/f" 3 "None"
                  [mkChunk Runs.abc_md5 1617000000123456789%N;
                   mkChunk Runs.abc_md5 1617000000123456789%N])
         Runs.one_chunk)
  = Raise StopIteration.
Proof. vm_compute. reflexivity. Qed.

(* ===================================================================== *)
(** * Further properties of the class                                     *)
(* ===================================================================== *)

(** ** The chunk reader *)

Lemma chunk_file_reader_loop_reads (size : Z) :
  forall (fuel : nat) (rest : list byte),
    chunk_file_reader_loop fuel size (fst (FileIO.read size rest))
                           (snd (FileIO.read size rest))
    = FileIO.iter_read fuel size rest.
Proof.
  induction fuel as [|fuel IH]; intros rest; [reflexivity|].
  rewrite iter_read_unfold. cbn [chunk_file_reader_loop].
  destruct (FileIO.is_empty (fst (FileIO.read size rest))); [reflexivity|].
  rewrite <- IH.
  destruct (FileIO.read size (snd (FileIO.read size rest))). reflexivity.
Qed.

(** [chunk_file_reader] and the loops of the digest functions read a file
    the same way. *)
Lemma chunk_file_reader_reads (file : list byte) (size : Z) :
  chunk_file_reader file size = FileIO.read_chunks size file.
Proof.
  unfold chunk_file_reader, FileIO.read_chunks.
  rewrite <- chunk_file_reader_loop_reads.
  destruct (FileIO.read size file). reflexivity.
Qed.

Lemma byte_range_length (file : list byte) (size : Z) (i : nat) :
  List.length (byte_range file size i)
  = Nat.min (Z.to_nat size) (List.length file - i * Z.to_nat size).
Proof. unfold byte_range. rewrite length_firstn, length_skipn. reflexivity. Qed.

Lemma byte_range_nonempty (file : list byte) (size : Z) (i : nat) :
  0 < size ->
  byte_range file size i <> [] <-> (i * Z.to_nat size < List.length file)%nat.
Proof.
  intros Hsize. pose proof (byte_range_length file size i) as Hlen.
  destruct (byte_range file size i) as [|b range]; cbn [List.length] in Hlen.
  - split; [congruence | lia].
  - split; [lia | discriminate].
Qed.

Lemma read_chunks_index (file : list byte) (size : Z) (i : nat) :
  0 < size ->
  (i < List.length (FileIO.read_chunks size file))%nat
  <-> (i * Z.to_nat size < List.length file)%nat.
Proof.
  intros Hsize. rewrite <- byte_range_nonempty by exact Hsize.
  rewrite <- nth_error_Some. split.
  - intros H. destruct (nth_error _ i) as [range|] eqn:Hnth; [|congruence].
    apply read_chunks_nth in Hnth; [|exact Hsize]. destruct Hnth as [<- Hne].
    exact Hne.
  - intros Hne.
    rewrite (proj2 (read_chunks_nth size file i (byte_range file size i) Hsize));
      [discriminate | auto].
Qed.

(** As many chunks as the length divided by the size, rounded up. *)
Lemma read_chunks_count (file : list byte) (size : positive) :
  Z.of_nat (List.length (FileIO.read_chunks (Z.pos size) file))
  = (Z.of_nat (List.length file) + Z.pos size - 1) / Z.pos size.
Proof.
  assert (Hsize : 0 < Z.pos size) by lia.
  assert (Hn : Z.to_nat (Z.pos size) = Pos.to_nat size) by reflexivity.
  set (L := List.length (FileIO.read_chunks (Z.pos size) file)).
  pose proof (read_chunks_index file (Z.pos size) L Hsize) as HL.
  fold L in HL. rewrite Hn in HL.
  assert (Hup : (List.length file <= L * Pos.to_nat size)%nat) by lia.
  assert (Hlow : L = 0%nat \/ ((L - 1) * Pos.to_nat size < List.length file)%nat).
  { destruct L as [|L'] eqn:HLeq; [left; reflexivity | right].
    rewrite <- Hn.
    apply (read_chunks_index file (Z.pos size) (S L' - 1) Hsize).
    fold L. lia. }
  pose proof (Pos2Nat.is_pos size) as Hpos.
  apply Z.div_unique with
    (r := Z.of_nat (List.length file) + Z.pos size - 1 - Z.pos size * Z.of_nat L).
  - left. rewrite <- positive_nat_Z. nia.
  - lia.
Qed.

(** X1: [chunk_file_reader] cuts a file into consecutive ranges of the
    buffer size: the chunks put together are the file, the [i]-th chunk is
    the [i]-th range, no chunk is empty or longer than the buffer, every
    chunk but the last fills it, and there are as many chunks as the file
    length divided by the buffer size, rounded up. *)
Theorem chunk_file_reader_cuts (file : list byte) (size : positive) :
  let chunks := chunk_file_reader file (Z.pos size) in
  List.concat chunks = file
  /\ (forall i chunk,
        nth_error chunks i = Some chunk ->
        chunk = byte_range file (Z.pos size) i
        /\ (0 < List.length chunk <= Pos.to_nat size)%nat
        /\ ((S i < List.length chunks)%nat -> List.length chunk = Pos.to_nat size))
  /\ Z.of_nat (List.length chunks)
     = (Z.of_nat (List.length file) + Z.pos size - 1) / Z.pos size.
Proof.
  intros chunks. subst chunks. rewrite chunk_file_reader_reads.
  assert (Hsize : 0 < Z.pos size) by lia.
  assert (Hn : Z.to_nat (Z.pos size) = Pos.to_nat size) by reflexivity.
  split; [apply read_chunks_concat; discriminate|]. split.
  - intros i chunk Hnth.
    apply read_chunks_nth in Hnth; [|exact Hsize]. destruct Hnth as [-> Hne].
    split; [reflexivity|].
    pose proof (byte_range_length file (Z.pos size) i) as Hlen.
    pose proof (proj1 (byte_range_nonempty file (Z.pos size) i Hsize) Hne) as Hi.
    rewrite Hn in *. split; [lia|].
    intros Hnext. apply read_chunks_index in Hnext; [|exact Hsize].
    rewrite Hn in Hnext. lia.
  - apply read_chunks_count.
Qed.

(** X2: [md5_file_generator] never comes empty: it yields one value per
    chunk [chunk_file_reader] would yield for the same size, each the
    digest of that chunk, and one more, so a first [next] always has a
    value. *)
Theorem md5_file_generator_length (file : list byte) (size : positive) :
  md5_file_generator file (Z.pos size)
  = map Hashlib.md5 (chunk_file_reader file (Z.pos size)) ++ [Hashlib.md5 file]
  /\ Z.of_nat (List.length (md5_file_generator file (Z.pos size)))
     = (Z.of_nat (List.length file) + Z.pos size - 1) / Z.pos size + 1
  /\ md5_file_generator file (Z.pos size) <> [].
Proof.
  rewrite md5_file_generator_spec, chunk_file_reader_reads.
  rewrite read_chunks_concat by discriminate.
  split; [reflexivity|]. split.
  - rewrite length_app, length_map, Nat2Z.inj_add, read_chunks_count.
    reflexivity.
  - intros H. apply app_eq_nil in H. destruct H as [_ H]. discriminate H.
Qed.

(** ** The frame of [send_file] *)

Lemma byte_of_Z_value (z : Z) :
  Z.of_N (Byte.to_N (Struct.byte_of_Z z)) = z mod 256.
Proof.
  unfold Struct.byte_of_Z.
  assert (Hrange : 0 <= z mod 256 < 256) by (apply Z.mod_pos_bound; lia).
  destruct (Byte.of_N (Z.to_N (z mod 256))) as [b|] eqn:Hb.
  - apply Byte.to_of_N in Hb. rewrite Hb. lia.
  - apply Byte.of_N_None_iff in Hb. lia.
Qed.

Lemma be_bytes_length (count : nat) (n : Z) :
  List.length (Struct.be_bytes count n) = count.
Proof. induction count as [|c IH]; simpl; [reflexivity | rewrite IH; reflexivity]. Qed.

Lemma be_value_be_bytes (count : nat) (n : Z) :
  forall acc : Z,
    fold_left (fun a b => a * 256 + Z.of_N (Byte.to_N b))
              (Struct.be_bytes count n) acc
    = acc * 256 ^ Z.of_nat count + n mod 256 ^ Z.of_nat count.
Proof.
  induction count as [|c IH]; intros acc.
  - simpl. rewrite Z.mod_1_r. lia.
  - cbn [Struct.be_bytes fold_left]. rewrite IH, byte_of_Z_value.
    rewrite Nat2Z.inj_succ, Z.pow_succ_r by lia.
    assert (Hc : 0 < 256 ^ Z.of_nat c) by (apply Z.pow_pos_nonneg; lia).
    rewrite (Z.mul_comm 256 (256 ^ Z.of_nat c)).
    rewrite (Z.rem_mul_r n (256 ^ Z.of_nat c) 256) by lia.
    ring.
Qed.

(** Unpacking what was packed gives the number back. *)
Lemma unpack_pack (n : Z) :
  - 2 ^ 63 <= n < 2 ^ 63 ->
  exists bs, Struct.pack_q n = Some bs /\ List.length bs = 8%nat
             /\ Struct.unpack_q bs = Some n.
Proof.
  intros Hrange. unfold Struct.pack_q.
  assert (Hin : (- 2 ^ 63 <=? n) && (n <? 2 ^ 63) = true).
  { apply andb_true_iff. split; [apply Z.leb_le | apply Z.ltb_lt]; lia. }
  rewrite Hin. eexists. split; [reflexivity|]. split; [apply be_bytes_length|].
  unfold Struct.unpack_q, Struct.be_value.
  rewrite be_bytes_length, be_value_be_bytes. cbn [Nat.eqb].
  change (256 ^ Z.of_nat 8) with (2 ^ 64). rewrite Z.mul_0_l, Z.add_0_l.
  rewrite Z.mod_mod by lia.
  destruct (Z.neg_nonneg_cases n) as [Hneg | Hpos].
  - replace (n mod 2 ^ 64) with (n + 2 ^ 64).
    + destruct (n + 2 ^ 64 <? 2 ^ 63) eqn:H; [apply Z.ltb_lt in H; lia|].
      f_equal. lia.
    + apply Z.mod_unique with (q := -1); lia.
  - rewrite Z.mod_small by lia.
    destruct (n <? 2 ^ 63) eqn:H; [reflexivity | apply Z.ltb_ge in H; lia].
Qed.

Lemma pack_q_small (n : Z) :
  0 <= n < 2 ^ 63 -> Struct.pack_q n = Some (Struct.be_bytes 8 n).
Proof.
  intros Hrange. unfold Struct.pack_q.
  assert (Hin : (- 2 ^ 63 <=? n) && (n <? 2 ^ 63) = true).
  { apply andb_true_iff. split; [apply Z.leb_le | apply Z.ltb_lt]; lia. }
  rewrite Hin, Z.mod_small by lia. reflexivity.
Qed.

(** Runs the protocol's plumbing. *)
Ltac prun :=
  cbv beta iota zeta
      delta [Protocol.bind Protocol.ret Protocol.ws_recv Protocol.ws_send
             Protocol.sendall Protocol.pack];
  cbn [Protocol.ws_in Protocol.ws_out Protocol.tcp_out].

Section Sending.

Variable fs : string -> list byte.

Lemma send_file_frames (filepath : string) (ch : Protocol.channels) :
  Z.of_nat (List.length (fs filepath)) < 2 ^ 63 ->
  Protocol.send_file fs filepath ch
  = (Protocol.Returned tt,
     Protocol.mkChannels (Protocol.ws_in ch) (Protocol.ws_out ch)
                         (Protocol.tcp_out ch ++ framed (fs filepath))).
Proof.
  intros Hsize. unfold Protocol.send_file, framed.
  unfold Protocol.pack at 1.
  rewrite (pack_q_small 8192) by (split; [lia | reflexivity]).
  unfold Protocol.pack.
  rewrite (pack_q_small (Z.of_nat (List.length (fs filepath)))) by lia.
  prun. rewrite <- !app_assoc. reflexivity.
Qed.

(** X3: [send_file] puts on the data channel 16 bytes of header and then
    the file, nothing on the control channel; the header unpacks to the
    buffer size hint 8192 and to the exact byte length of the file. *)
Theorem send_file_wire_format (filepath : string) (ch : Protocol.channels) :
  Z.of_nat (List.length (fs filepath)) < 2 ^ 63 ->
  exists hint size,
    Protocol.send_file fs filepath ch
    = (Protocol.Returned tt,
       Protocol.mkChannels (Protocol.ws_in ch) (Protocol.ws_out ch)
                           (Protocol.tcp_out ch ++ hint ++ size ++ fs filepath))
    /\ List.length hint = 8%nat /\ List.length size = 8%nat
    /\ Struct.unpack_q hint = Some 8192
    /\ Struct.unpack_q size = Some (Z.of_nat (List.length (fs filepath))).
Proof.
  intros Hsize.
  destruct (unpack_pack 8192) as [hint [Hp1 [Hl1 Hu1]]];
    [split; [lia | reflexivity]|].
  destruct (unpack_pack (Z.of_nat (List.length (fs filepath))))
    as [size [Hp2 [Hl2 Hu2]]]; [lia|].
  exists hint, size. repeat split; try assumption.
  rewrite send_file_frames by exact Hsize. unfold framed.
  rewrite pack_q_small in Hp1 by (split; [lia | reflexivity]).
  rewrite pack_q_small in Hp2 by lia.
  injection Hp1 as <-. injection Hp2 as <-. reflexivity.
Qed.

(** X4: [upload_file] sends nothing unless the receiver opens with
    "next"; once granted it sends the remote path and the framed file, and
    its result is 1 exactly when the receiver's answer is "stop".  A
    message that has not come leaves it waiting. *)
Theorem upload_file_handshake (filepath full_remote_path : string)
    (ch : Protocol.channels) :
  Z.of_nat (List.length (fs filepath)) < 2 ^ 63 ->
  let sent :=
    Protocol.mkChannels [] (Protocol.ws_out ch ++ [full_remote_path])
                        (Protocol.tcp_out ch ++ framed (fs filepath)) in
  Protocol.upload_file fs filepath full_remote_path ch
  = match Protocol.ws_in ch with
    | [] => (Protocol.Waiting, ch)
    | granted :: later =>
        if String.eqb granted "next" then
          match later with
          | [] => (Protocol.Waiting, sent)
          | answer :: rest =>
              (Protocol.Returned (if String.eqb answer "stop" then 1 else 0),
               Protocol.mkChannels rest (Protocol.ws_out sent)
                                   (Protocol.tcp_out sent))
          end
        else
          (Protocol.Returned 0,
           Protocol.mkChannels later (Protocol.ws_out ch) (Protocol.tcp_out ch))
    end.
Proof.
  intros Hsize sent. subst sent. unfold Protocol.upload_file.
  unfold Protocol.bind at 1. unfold Protocol.ws_recv at 1.
  destruct ch as [incoming out data]. cbn [Protocol.ws_in Protocol.ws_out Protocol.tcp_out].
  destruct incoming as [|granted later]; [reflexivity|].
  destruct (String.eqb granted "next"); cbn [negb]; [|reflexivity].
  unfold Protocol.bind at 1. unfold Protocol.ws_send at 1.
  unfold Protocol.bind at 1. rewrite send_file_frames by exact Hsize.
  prun. destruct later as [|answer rest]; [reflexivity|].
  destruct (String.eqb answer "stop"); reflexivity.
Qed.

End Sending.

(** ** The directory push *)

Lemma last_char_none (s : string) : Protocol.last_char s = None -> s = "".
Proof.
  induction s as [|c rest IH]; [reflexivity|].
  cbn [Protocol.last_char]. destruct rest as [|c' rest']; [discriminate|].
  intros H. specialize (IH H). discriminate IH.
Qed.

Lemma replace_empty (a b : ascii) (s : string) :
  Str.replace a b s = "" -> s = "".
Proof. destruct s; [reflexivity | discriminate]. Qed.

Section Pushing.

Variable fs : string -> list byte.
Variable os_walk : string -> list (string * list string * list string).

(** [send_file] either sends the whole frame, or raises [struct.error]
    after the first header field. *)
Lemma send_file_cases (filepath : string) (ch : Protocol.channels) :
  Protocol.send_file fs filepath ch
  = (Protocol.Returned tt,
     Protocol.mkChannels (Protocol.ws_in ch) (Protocol.ws_out ch)
                         (Protocol.tcp_out ch ++ framed (fs filepath)))
  \/ Protocol.send_file fs filepath ch
     = (Protocol.Raised Protocol.StructError,
        Protocol.mkChannels (Protocol.ws_in ch) (Protocol.ws_out ch)
                            (Protocol.tcp_out ch ++ Struct.be_bytes 8 8192)).
Proof.
  destruct (Z.lt_ge_cases (Z.of_nat (List.length (fs filepath))) (2 ^ 63))
    as [Hsmall | Hbig].
  - left. apply send_file_frames. exact Hsmall.
  - right. unfold Protocol.send_file. unfold Protocol.pack at 1.
    rewrite (pack_q_small 8192) by (split; [lia | reflexivity]).
    unfold Protocol.pack, Struct.pack_q.
    assert (Hout : (- 2 ^ 63 <=? Z.of_nat (List.length (fs filepath)))
                   && (Z.of_nat (List.length (fs filepath)) <? 2 ^ 63) = false).
    { apply andb_false_iff. right. apply Z.ltb_ge. exact Hbig. }
    rewrite Hout. prun. reflexivity.
Qed.

Lemma is_prefix_nil {A : Type} (l : list A) : is_prefix [] l.
Proof. exists l. reflexivity. Qed.

Lemma is_prefix_refl {A : Type} (l : list A) : is_prefix l l.
Proof. exists []. symmetry. apply app_nil_r. Qed.

Lemma is_prefix_app {A : Type} (a l full : list A) :
  is_prefix l full -> is_prefix (a ++ l) (a ++ full).
Proof. intros [rest ->]. exists rest. apply app_assoc. Qed.

Lemma is_prefix_grow {A : Type} (l a b : list A) :
  is_prefix l a -> is_prefix l (a ++ b).
Proof. intros [rest ->]. exists (rest ++ b). symmetry. apply app_assoc. Qed.

Lemma framed_starts (file : list byte) :
  is_prefix (Struct.be_bytes 8 8192) (framed file).
Proof. unfold framed. eexists. reflexivity. Qed.

(** The loop over the files of a directory, whatever the receiver says:
    what it sends is the start of the names and of the frames, and all of
    them when the loop completes. *)
Lemma upload_folder_files_sends (dir_path : string) (filenames : list string) :
  forall (ch ch' : Protocol.channels) (out : Protocol.outcome bool),
    Protocol.upload_folder_files fs dir_path filenames ch = (out, ch') ->
    exists names data,
      Protocol.ws_out ch' = Protocol.ws_out ch ++ names
      /\ Protocol.tcp_out ch' = Protocol.tcp_out ch ++ data
      /\ is_prefix names filenames
      /\ is_prefix data (dir_payload fs (dir_path, @nil string, filenames))
      /\ (out = Protocol.Returned true ->
          names = filenames
          /\ data = dir_payload fs (dir_path, @nil string, filenames)).
Proof.
  assert (Hnothing : forall (ch : Protocol.channels) (later : list string)
                            (out : Protocol.outcome bool) (files : list string),
             out <> Protocol.Returned true ->
             exists names data,
               Protocol.ws_out (Protocol.mkChannels later (Protocol.ws_out ch)
                                                    (Protocol.tcp_out ch))
               = Protocol.ws_out ch ++ names
               /\ Protocol.tcp_out (Protocol.mkChannels later (Protocol.ws_out ch)
                                                        (Protocol.tcp_out ch))
                  = Protocol.tcp_out ch ++ data
               /\ is_prefix names files
               /\ is_prefix data (dir_payload fs (dir_path, @nil string, files))
               /\ (out = Protocol.Returned true ->
                   names = files
                   /\ data = dir_payload fs (dir_path, @nil string, files))).
  { intros ch later out files Hout. exists [], [].
    cbn [Protocol.ws_out Protocol.tcp_out]. rewrite !app_nil_r.
    split; [reflexivity|]. split; [reflexivity|].
    split; [apply is_prefix_nil|]. split; [apply is_prefix_nil|].
    intros H. contradiction. }
  induction filenames as [|fi rest IH]; intros ch ch' out Hrun.
  - cbn in Hrun. injection Hrun as <- <-. exists [], [].
    rewrite !app_nil_r.
    split; [reflexivity|]. split; [reflexivity|].
    split; [apply is_prefix_nil|]. split; [apply is_prefix_nil|].
    intros _. split; reflexivity.
  - cbn [Protocol.upload_folder_files] in Hrun.
    unfold Protocol.bind at 1 in Hrun. unfold Protocol.ws_recv at 1 in Hrun.
    destruct ch as [incoming sent data0].
    cbn [Protocol.ws_in Protocol.ws_out Protocol.tcp_out] in *.
    destruct incoming as [|granted later].
    + injection Hrun as <- <-.
      apply (Hnothing (Protocol.mkChannels [] sent data0) []). discriminate.
    + destruct (String.eqb granted "next"); cbn [negb] in Hrun.
      * unfold Protocol.bind at 1 in Hrun. unfold Protocol.ws_send at 1 in Hrun.
        unfold Protocol.bind at 1 in Hrun.
        cbn [Protocol.ws_in Protocol.ws_out Protocol.tcp_out] in Hrun.
        match type of Hrun with
        | context [Protocol.send_file fs ?p ?c] =>
            destruct (send_file_cases p c) as [Hsent | Hsent];
            rewrite Hsent in Hrun
        end; cbn [Protocol.ws_in Protocol.ws_out Protocol.tcp_out] in Hrun.
        -- destruct (IH _ _ _ Hrun) as [names [data [Hws [Htcp [Hpn [Hpd Hall]]]]]].
           cbn [Protocol.ws_out Protocol.tcp_out] in Hws, Htcp.
           exists (fi :: names), (framed (fs (dir_path +++ "/" +++ fi)) ++ data).
           rewrite Hws, Htcp, <- !app_assoc.
           cbn [app dir_payload map List.concat].
           split; [reflexivity|]. split; [reflexivity|].
           split; [apply (is_prefix_app [fi]); exact Hpn|].
           split; [apply is_prefix_app; exact Hpd|].
           intros Hdone. destruct (Hall Hdone) as [-> ->]. split; reflexivity.
        -- injection Hrun as <- <-.
           exists [fi], (Struct.be_bytes 8 8192).
           cbn [Protocol.ws_out Protocol.tcp_out dir_payload map List.concat].
           split; [reflexivity|]. split; [reflexivity|].
           split; [exists rest; reflexivity|].
           split; [apply is_prefix_grow, framed_starts|].
           discriminate.
      * injection Hrun as <- <-.
        apply (Hnothing (Protocol.mkChannels [] sent data0) later). discriminate.
Qed.

(** The loop over the directories. *)
Lemma upload_folder_dirs_sends (base_path : string) (recursive : bool)
    (walk : list (string * list string * list string)) :
  forall (ch ch' : Protocol.channels) (out : Protocol.outcome unit),
    Protocol.upload_folder_dirs fs base_path recursive walk ch = (out, ch') ->
    exists messages data,
      Protocol.ws_out ch' = Protocol.ws_out ch ++ messages
      /\ Protocol.tcp_out ch' = Protocol.tcp_out ch ++ data
      /\ is_prefix messages (transcript base_path (walked walk recursive))
      /\ is_prefix data (payload fs (walked walk recursive)).
Proof.
  induction walk as [|[[dir_path folders] filenames] rest IH];
    intros ch ch' out Hrun.
  - cbn in Hrun. injection Hrun as <- <-. exists [], [].
    rewrite !app_nil_r. repeat split; apply is_prefix_nil.
  - assert (Hwalked : exists more,
               walked ((dir_path, folders, filenames) :: rest) recursive
               = (dir_path, folders, filenames) :: more
               /\ (recursive = true -> more = walked rest true)).
    { unfold walked. destruct recursive; [exists rest | exists []]; split;
        try reflexivity; discriminate. }
    destruct Hwalked as [more [Hw Hmore]]. rewrite Hw.
    unfold transcript, payload.
    cbn [flat_map map List.concat dir_messages].
    cbn [Protocol.upload_folder_dirs] in Hrun.
    unfold Protocol.bind at 1 in Hrun. unfold Protocol.ws_recv at 1 in Hrun.
    destruct ch as [incoming sent data0].
    cbn [Protocol.ws_in Protocol.ws_out Protocol.tcp_out] in *.
    destruct incoming as [|granted later].
    + injection Hrun as <- <-. exists [], [].
      cbn [Protocol.ws_out Protocol.tcp_out]. rewrite !app_nil_r.
      repeat split; apply is_prefix_nil.
    + destruct (String.eqb granted "next"); cbn [negb] in Hrun.
      * unfold Protocol.bind at 1 in Hrun. unfold Protocol.ws_send at 1 in Hrun.
        unfold Protocol.bind at 1 in Hrun. unfold Protocol.ws_send at 1 in Hrun.
        unfold Protocol.bind at 1 in Hrun.
        cbn [Protocol.ws_in Protocol.ws_out Protocol.tcp_out] in Hrun.
        match type of Hrun with
        | context [Protocol.upload_folder_files fs dir_path filenames ?c] =>
            destruct (Protocol.upload_folder_files fs dir_path filenames c)
              as [o1 ch1] eqn:Hfiles
        end.
        destruct (upload_folder_files_sends _ _ _ _ _ Hfiles)
          as [names [data [Hws [Htcp [Hpn [Hpd Hall]]]]]].
        cbn [Protocol.ws_out Protocol.tcp_out] in Hws, Htcp.
        assert (Hstop : exists messages data1,
                   Protocol.ws_out ch1 = sent ++ messages
                   /\ Protocol.tcp_out ch1 = data0 ++ data1
                   /\ is_prefix messages
                        ((remove_prefix
                            (Str.replace Str.backslash Str.slash dir_path)
                            (base_path +++ "/")
                          :: Str.str (N.of_nat (List.length filenames))
                          :: filenames)
                         ++ flat_map (dir_messages base_path) more)
                   /\ is_prefix data1
                        (dir_payload fs (dir_path, folders, filenames)
                         ++ List.concat (map (dir_payload fs) more))).
        { eexists (_ :: _ :: names), data.
          rewrite Hws, Htcp, <- !app_assoc. cbn [app].
          split; [reflexivity|]. split; [reflexivity|]. split.
          - destruct Hpn as [r ->].
            exists (r ++ flat_map (dir_messages base_path) more).
            rewrite <- app_assoc. reflexivity.
          - apply is_prefix_grow. exact Hpd. }
        destruct o1 as [completed| |e];
          [|injection Hrun as <- <-; exact Hstop
           |injection Hrun as <- <-; exact Hstop].
        destruct completed; cbn [negb] in Hrun;
          [|injection Hrun as <- <-; exact Hstop].
        destruct recursive; cbn [negb] in Hrun;
          [|injection Hrun as <- <-; exact Hstop].
        destruct (Hall eq_refl) as [-> ->].
        destruct (IH _ _ _ Hrun) as [messages [data' [Hws' [Htcp' [Hpm Hpd']]]]].
        rewrite (Hmore eq_refl).
        eexists (_ :: _ :: filenames ++ messages),
                (dir_payload fs (dir_path, @nil string, filenames) ++ data').
        rewrite Hws', Htcp', Hws, Htcp, <- !app_assoc. cbn [app].
        split; [reflexivity|]. split; [reflexivity|]. split.
        -- unfold transcript in Hpm. destruct Hpm as [r ->]. exists r.
           cbn [app]. rewrite <- app_assoc. reflexivity.
        -- apply is_prefix_app. exact Hpd'.
      * injection Hrun as <- <-. exists [], [].
        cbn [Protocol.ws_out Protocol.tcp_out]. rewrite !app_nil_r.
        repeat split; apply is_prefix_nil.
Qed.


Hypothesis sizes : forall path, Z.of_nat (List.length (fs path)) < 2 ^ 63.

Lemma upload_folder_files_granted (dir_path : string) (filenames : list string) :
  forall (later sent : list string) (data : list byte),
    Protocol.upload_folder_files fs dir_path filenames
      (Protocol.mkChannels (repeat "next" (List.length filenames) ++ later)
                           sent data)
    = (Protocol.Returned true,
       Protocol.mkChannels later (sent ++ filenames)
         (data ++ dir_payload fs (dir_path, @nil string, filenames))).
Proof.
  induction filenames as [|fi rest IH]; intros later sent data.
  - cbn. rewrite !app_nil_r. reflexivity.
  - cbn [Protocol.upload_folder_files List.length repeat app].
    unfold Protocol.bind at 1. unfold Protocol.ws_recv at 1.
    cbn [Protocol.ws_in Protocol.ws_out Protocol.tcp_out String.eqb Ascii.eqb
         Bool.eqb negb andb].
    unfold Protocol.bind at 1. unfold Protocol.ws_send at 1.
    unfold Protocol.bind at 1.
    rewrite send_file_frames by apply sizes.
    cbn [Protocol.ws_in Protocol.ws_out Protocol.tcp_out].
    rewrite IH. cbn [dir_payload map List.concat].
    rewrite <- !app_assoc. reflexivity.
Qed.

Lemma upload_folder_dirs_granted (base_path : string) (recursive : bool)
    (walk : list (string * list string * list string)) :
  forall (later sent : list string) (data : list byte),
    Protocol.upload_folder_dirs fs base_path recursive walk
      (Protocol.mkChannels
         (repeat "next" (grants_needed (walked walk recursive)) ++ later)
         sent data)
    = (Protocol.Returned tt,
       Protocol.mkChannels later
         (sent ++ transcript base_path (walked walk recursive))
         (data ++ payload fs (walked walk recursive))).
Proof.
  induction walk as [|[[dir_path folders] filenames] rest IH];
    intros later sent data.
  - destruct recursive; cbn; rewrite !app_nil_r; reflexivity.
  - assert (Hwalked : exists more,
               walked ((dir_path, folders, filenames) :: rest) recursive
               = (dir_path, folders, filenames) :: more
               /\ (recursive = true -> more = walked rest true)
               /\ (recursive = false -> more = [])).
    { unfold walked. destruct recursive; [exists rest | exists []];
        repeat split; try reflexivity; discriminate. }
    destruct Hwalked as [more [Hw [Hrec Hnonrec]]]. rewrite Hw.
    unfold transcript, payload.
    cbn [grants_needed fold_right snd flat_map map List.concat dir_messages
         Protocol.upload_folder_dirs repeat app].
    unfold Protocol.bind at 1. unfold Protocol.ws_recv at 1.
    cbn [Protocol.ws_in Protocol.ws_out Protocol.tcp_out String.eqb Ascii.eqb
         Bool.eqb negb andb].
    unfold Protocol.bind at 1. unfold Protocol.ws_send at 1.
    unfold Protocol.bind at 1. unfold Protocol.ws_send at 1.
    unfold Protocol.bind at 1.
    cbn [Protocol.ws_in Protocol.ws_out Protocol.tcp_out].
    rewrite repeat_app, <- app_assoc, upload_folder_files_granted.
    cbn [negb].
    destruct recursive; cbn [negb].
    + rewrite (Hrec eq_refl). fold (grants_needed (walked rest true)).
      rewrite IH. unfold transcript, payload.
      rewrite <- !app_assoc. reflexivity.
    + rewrite (Hnonrec eq_refl). cbn. rewrite !app_nil_r, <- !app_assoc.
      reflexivity.
Qed.

(** X5: when the receiver grants every request, [upload_folder] consumes
    one "next" per directory walked and one per file, announces for each
    directory its relative path and its number of files and then exactly
    that many file names, and puts the frames of the files on the data
    channel in the same order; without [recursive] it does so for the
    first directory only. *)
Theorem upload_folder_all_granted (root_dir base_path : string)
    (recursive : bool) (later sent : list string) (data : list byte) :
  root_dir <> "" ->
  let dirs := walked (os_walk (normal_root root_dir)) recursive in
  let base := Str.replace Str.backslash Str.slash base_path in
  Protocol.upload_folder fs os_walk root_dir base_path recursive
    (Protocol.mkChannels (repeat "next" (grants_needed dirs) ++ later) sent data)
  = (Protocol.Returned tt,
     Protocol.mkChannels later (sent ++ transcript base dirs)
                         (data ++ payload fs dirs)).
Proof.
  intros Hroot dirs base. subst dirs base.
  unfold Protocol.upload_folder, normal_root.
  destruct (Protocol.last_char (Str.replace Str.backslash Str.slash root_dir))
    as [c|] eqn:Hlast.
  - apply upload_folder_dirs_granted.
  - exfalso. apply Hroot.
    apply (replace_empty _ _ _ (last_char_none _ Hlast)).
Qed.

End Pushing.

Section PushingAnyAnswer.

Variable fs : string -> list byte.
Variable os_walk : string -> list (string * list string * list string).

(** X6: whatever the receiver answers, and whatever the sizes of the
    files, what [upload_folder] has sent when it stops (returned, raised,
    or waiting for a message) is a beginning of the full control transcript
    and a beginning of the full data payload: it never sends anything out
    of order or outside them.  An empty [root_dir] raises before anything
    is sent, and a first message that is not "next" ends the call with
    nothing sent. *)
Theorem upload_folder_sends_prefix (root_dir base_path : string)
    (recursive : bool) (ch : Protocol.channels) :
  let dirs := walked (os_walk (normal_root root_dir)) recursive in
  let base := Str.replace Str.backslash Str.slash base_path in
  let run := Protocol.upload_folder fs os_walk root_dir base_path recursive ch in
  (exists messages data,
      Protocol.ws_out (snd run) = Protocol.ws_out ch ++ messages
      /\ Protocol.tcp_out (snd run) = Protocol.tcp_out ch ++ data
      /\ is_prefix messages (transcript base dirs)
      /\ is_prefix data (payload fs dirs))
  /\ (root_dir = "" -> run = (Protocol.Raised Protocol.StringIndexError, ch))
  /\ (forall refusal later,
        root_dir <> "" -> dirs <> [] ->
        Protocol.ws_in ch = refusal :: later -> refusal <> "next" ->
        run = (Protocol.Returned tt,
               Protocol.mkChannels later (Protocol.ws_out ch)
                                   (Protocol.tcp_out ch))).
Proof.
  intros dirs base run. subst dirs base run.
  unfold Protocol.upload_folder, normal_root.
  destruct (Protocol.last_char (Str.replace Str.backslash Str.slash root_dir))
    as [c|] eqn:Hlast.
  - split; [|split].
    + match goal with
      | |- context [Protocol.upload_folder_dirs fs ?b recursive ?w ch] =>
          destruct (Protocol.upload_folder_dirs fs b recursive w ch)
            as [out ch'] eqn:Hrun
      end.
      apply (upload_folder_dirs_sends fs _ _ _ _ _ _ Hrun).
    + intros ->. discriminate Hlast.
    + intros refusal later _ Hdirs Hin Hrefusal.
      destruct ch as [incoming sent data].
      cbn [Protocol.ws_in Protocol.ws_out Protocol.tcp_out] in *. subst incoming.
      match goal with
      | |- context [os_walk ?r] => destruct (os_walk r) as [|[[d fo] fi] rest]
      end.
      * exfalso. apply Hdirs. unfold walked. destruct recursive; reflexivity.
      * cbn [Protocol.upload_folder_dirs]. unfold Protocol.bind at 1.
        unfold Protocol.ws_recv at 1.
        cbn [Protocol.ws_in Protocol.ws_out Protocol.tcp_out].
        apply String.eqb_neq in Hrefusal. rewrite Hrefusal. reflexivity.
  - split; [|split].
    + exists [], []. cbn [snd]. rewrite !app_nil_r.
      repeat split; apply is_prefix_nil.
    + reflexivity.
    + intros refusal later Hroot. exfalso. apply Hroot.
      apply (replace_empty _ _ _ (last_char_none _ Hlast)).
Qed.

End PushingAnyAnswer.

(** ** The receiver loop, whatever it is fed *)

Lemma receive_loop_returned (reads : FileIO.socket) :
  forall written : list (list byte),
    snd (receive_loop reads written) = true <-> Exists is_sentinel reads.
Proof.
  induction reads as [|buf reads IH]; intros written; cbn [receive_loop].
  - cbn [snd]. split; [discriminate | intros H; inversion H].
  - destruct (FileIO.is_empty buf || bytes_eqb buf stop_sentinel) eqn:Htest.
    + cbn [snd]. split; [|reflexivity]. intros _. left.
      apply sentinel_test. exact Htest.
    + rewrite IH. split.
      * intros H. right. exact H.
      * intros H. inversion H as [? ? Hbuf|? ? Hrest]; subst; [|exact Hrest].
        apply sentinel_test in Hbuf. congruence.
Qed.

Lemma glued_not_sentinel (data : list byte) :
  data <> [] -> ~ is_sentinel (data ++ stop_sentinel).
Proof.
  intros Hdata [Hnil | Hstop].
  - apply app_eq_nil in Hnil. destruct Hnil as [_ Hnil]. discriminate Hnil.
  - apply (f_equal (@List.length byte)) in Hstop. rewrite length_app in Hstop.
    destruct data as [|b data]; [congruence|]. cbn in Hstop. lia.
Qed.

(** X7: [receive_file] returns exactly when some [recv] gives an empty
    buffer or a buffer that is the four bytes "stop" and nothing else.
    Fed buffers none of which is such a one, it writes them all and is
    still waiting; in particular a "stop" that arrives in the same buffer
    as data before it is written to the file with that data and does not
    end the loop. *)
Theorem receive_file_returns_iff_sentinel (reads : FileIO.socket)
    (old : list byte) (filemode : FileIO.filemode) :
  (snd (receive_file reads old filemode) = true <-> Exists is_sentinel reads)
  /\ (Forall (fun b => ~ is_sentinel b) reads ->
      receive_file reads old FileIO.WB = (List.concat reads, false)
      /\ receive_file reads old FileIO.AB = (old ++ List.concat reads, false))
  /\ (forall data : list byte,
        data <> [] ->
        receive_file (reads ++ [data ++ stop_sentinel]) old FileIO.WB
        = (let (written, returned) := receive_loop reads [] in
           if returned then (List.concat written, true)
           else (List.concat written ++ data ++ stop_sentinel, false))).
Proof.
  split; [|split].
  - unfold receive_file. rewrite <- (receive_loop_returned reads []).
    destruct (receive_loop reads []) as [written returned]. reflexivity.
  - intros Hall. unfold receive_file.
    rewrite (receive_loop_waits reads [] Hall). split; reflexivity.
  - intros data Hdata. unfold receive_file.
    assert (Hglued : forall pre written,
               receive_loop (pre ++ [data ++ stop_sentinel]) written
               = (let (w, returned) := receive_loop pre written in
                  if returned then (w, true)
                  else (w ++ [data ++ stop_sentinel], false))).
    { induction pre as [|b pre IH]; intros written; cbn [app receive_loop].
      - destruct (FileIO.is_empty (data ++ stop_sentinel)
                  || bytes_eqb (data ++ stop_sentinel) stop_sentinel) eqn:Htest.
        + apply sentinel_test in Htest.
          exfalso. exact (glued_not_sentinel data Hdata Htest).
        + reflexivity.
      - destruct (FileIO.is_empty b || bytes_eqb b stop_sentinel);
          [reflexivity | apply IH]. }
    rewrite Hglued. destruct (receive_loop reads []) as [written returned].
    destruct returned; [reflexivity|].
    rewrite concat_app. cbn [List.concat]. rewrite app_nil_r. reflexivity.
Qed.

(** ** Sending and receiving put together *)

Section SendThenReceive.

Variable fs : string -> list byte.

(** X8: [receive_file] does not undo [send_file].  Fed what [send_file]
    put on an empty data channel, cut into buffers in any way that makes
    none of them a sentinel, it writes the sixteen header bytes before the
    content, so the file written is sixteen bytes longer than the file
    sent, and it does not return: [send_file] sends no sentinel. *)
Theorem receive_file_after_send_file (filepath : string)
    (ws_in ws_out : list string) (reads : FileIO.socket) (old : list byte) :
  Z.of_nat (List.length (fs filepath)) < 2 ^ 63 ->
  List.concat reads
  = Protocol.tcp_out
      (snd (Protocol.send_file fs filepath (Protocol.mkChannels ws_in ws_out []))) ->
  Forall (fun b => ~ is_sentinel b) reads ->
  receive_file reads old FileIO.WB = (framed (fs filepath), false)
  /\ List.length (fst (receive_file reads old FileIO.WB))
     = (16 + List.length (fs filepath))%nat.
Proof.
  intros Hsize Hreads Hall.
  rewrite send_file_frames in Hreads by exact Hsize.
  cbn [snd Protocol.tcp_out app] in Hreads.
  unfold receive_file. rewrite (receive_loop_waits reads [] Hall).
  cbn [app fst]. rewrite Hreads. split; [reflexivity|].
  unfold framed. rewrite !length_app, !be_bytes_length. reflexivity.
Qed.

End SendThenReceive.

(** ** Relative paths *)

Lemma prefix_split (p t : string) :
  String.prefix p t = true -> exists rest, t = p +++ rest.
Proof.
  revert t. induction p as [|c p IH]; intros t; cbn [String.prefix].
  - intros _. exists t. reflexivity.
  - destruct t as [|c' t]; cbn [String.prefix]; [discriminate|].
    destruct (ascii_dec c c') as [<-|]; [|discriminate].
    intros H. destruct (IH t H) as [rest ->]. exists rest. reflexivity.
Qed.

Lemma drop_length (n : nat) (s : string) :
  (String.length (Str.drop n s) <= String.length s)%nat.
Proof.
  revert s. induction n as [|n IH]; intros s; destruct s as [|c s]; cbn; try lia.
  specialize (IH s). lia.
Qed.

(** X9: [remove_prefix] takes the prefix off a text that starts with it,
    once, and leaves every other text as it is; what it returns is never
    longer than the text. *)
Theorem remove_prefix_strips_once (text prefix : string) :
  (forall rest, text = prefix +++ rest -> remove_prefix text prefix = rest)
  /\ ((forall rest, text <> prefix +++ rest) -> remove_prefix text prefix = text)
  /\ (exists dropped,
         text = dropped +++ remove_prefix text prefix
         /\ (dropped = prefix \/ dropped = ""))
  /\ remove_prefix (prefix +++ prefix +++ text) prefix = prefix +++ text.
Proof.
  repeat split.
  - intros rest ->. apply remove_prefix_append.
  - intros Hnot. unfold remove_prefix.
    destruct (String.prefix prefix text) eqn:Hp; [|reflexivity].
    destruct (prefix_split _ _ Hp) as [rest ->]. exfalso. exact (Hnot rest eq_refl).
  - unfold remove_prefix. destruct (String.prefix prefix text) eqn:Hp.
    + destruct (prefix_split _ _ Hp) as [rest ->]. exists prefix.
      rewrite drop_append. auto.
    + exists "". auto.
  - apply remove_prefix_append.
Qed.

(** ** Cleaning the scratch workspace *)

Lemma prefix_refl (s : string) : String.prefix s s = true.
Proof.
  induction s as [|c s IH]; cbn [String.prefix]; [reflexivity|].
  destruct (ascii_dec c c); [exact IH | congruence].
Qed.

Lemma contains_refl (s : string) : Workspace.contains s s = true.
Proof.
  destruct s; cbn [Workspace.contains]; rewrite prefix_refl; reflexivity.
Qed.

Section Cleaned.

Variable join : string -> string -> string.
Variable rmtree : string -> option Z.

Lemma clean_folders_spec (temp_dir_name dir_path : string)
    (folders : list string) :
  forall removed : list string,
    let result :=
      Workspace.clean_folders join rmtree temp_dir_name dir_path folders removed in
    exists gone,
      fst result = removed ++ gone
      /\ is_prefix gone (filter (stale_folder temp_dir_name) folders)
      /\ Forall (fun f => rmtree (join dir_path f) = None) gone
      /\ match snd result with
         | Ok _ => gone = filter (stale_folder temp_dir_name) folders
         | Raise e =>
             exists folder errno,
               e = OSError errno
               /\ rmtree (join dir_path folder) = Some errno
               /\ is_prefix (gone ++ [folder])
                            (filter (stale_folder temp_dir_name) folders)
         end.
Proof.
  induction folders as [|folder rest IH]; intros removed;
    cbn [Workspace.clean_folders filter].
  - exists []. cbn. rewrite app_nil_r.
    repeat split; [apply is_prefix_nil | constructor].
  - fold (stale_folder temp_dir_name folder).
    destruct (stale_folder temp_dir_name folder).
    + destruct (rmtree (join dir_path folder)) as [errno|] eqn:Hrm.
      * exists []. cbn [fst snd]. rewrite app_nil_r.
        repeat split; [apply is_prefix_nil | constructor |].
        exists folder, errno. repeat split; [exact Hrm|].
        exists (filter (stale_folder temp_dir_name) rest). reflexivity.
      * destruct (IH (removed ++ [folder])) as [gone [Hfst [Hpre [Hall Hsnd]]]].
        exists (folder :: gone). rewrite Hfst, <- app_assoc.
        repeat split.
        -- destruct Hpre as [more ->]. exists more. reflexivity.
        -- constructor; assumption.
        -- destruct (snd (Workspace.clean_folders join rmtree temp_dir_name
                            dir_path rest (removed ++ [folder]))) as [u|e].
           ++ rewrite Hsnd. reflexivity.
           ++ destruct Hsnd as [f [errno [He [Hrmf [more Hmore]]]]].
              exists f, errno. repeat split; [exact He | exact Hrmf |].
              exists more. cbn [app]. rewrite Hmore. reflexivity.
    + destruct (IH removed) as [gone [Hfst [Hpre [Hall Hsnd]]]].
      exists gone. repeat split; assumption.
Qed.

(** X10: [clean_temp_dir] looks at the folders of the first item of the
    walk only and removes, in their order, those whose name contains the
    prefix "Seaweed_Cloud_Storage_" and does not contain the base name of
    this run's own scratch directory, which is therefore never removed.
    It stops at the first removal that fails, with that error and the
    later folders left in place; with no failure every such folder is
    removed.  An empty walk raises [StopIteration] with nothing
    removed. *)
Theorem clean_temp_dir_removes_stale (temp_dir_name dir_path : string)
    (folders : list string) (files : list string)
    (deeper : list (string * list string * list string)) :
  let own := Workspace.basename temp_dir_name in
  let result :=
    Workspace.clean_temp_dir join rmtree temp_dir_name
                             ((dir_path, folders, files) :: deeper) in
  let wanted := filter (stale_folder temp_dir_name) folders in
  is_prefix (fst result) wanted
  /\ ~ In own (fst result)
  /\ Forall (fun folder => rmtree (join dir_path folder) = None) (fst result)
  /\ (snd result = Ok tt <-> fst result = wanted)
  /\ (forall e, snd result = Raise e ->
        exists folder errno,
          e = OSError errno
          /\ rmtree (join dir_path folder) = Some errno
          /\ is_prefix (fst result ++ [folder]) wanted)
  /\ Workspace.clean_temp_dir join rmtree temp_dir_name []
     = ([], Raise StopIteration).
Proof.
  intros own result wanted. subst result. cbn [Workspace.clean_temp_dir].
  destruct (clean_folders_spec temp_dir_name dir_path folders [])
    as [gone [Hfst [Hpre [Hall Hsnd]]]].
  cbn [app] in Hfst. rewrite Hfst.
  fold wanted in Hpre, Hsnd.
  assert (Hwanted : forall f, In f wanted ->
             Workspace.contains own f = false).
  { intros f Hin. apply filter_In in Hin. destruct Hin as [_ Hin].
    unfold stale_folder in Hin. apply andb_true_iff in Hin. destruct Hin as [_ Hin].
    apply negb_true_iff in Hin. exact Hin. }
  repeat split.
  - exact Hpre.
  - intros Hin. destruct Hpre as [more Hmore].
    assert (Hw : In own wanted) by (rewrite Hmore; apply in_or_app; auto).
    apply Hwanted in Hw. rewrite contains_refl in Hw. discriminate Hw.
  - exact Hall.
  - intros Hok. rewrite Hok in Hsnd. exact Hsnd.
  - intros Hgone.
    destruct (snd (Workspace.clean_folders join rmtree temp_dir_name dir_path
                     folders [])) as [[]|e]; [reflexivity|].
    destruct Hsnd as [f [errno [_ [_ [more Hmore]]]]].
    rewrite Hgone, <- app_assoc in Hmore.
    apply (f_equal (@List.length string)) in Hmore.
    rewrite !length_app in Hmore. cbn in Hmore. lia.
  - intros e He. rewrite He in Hsnd. exact Hsnd.
Qed.

End Cleaned.

(** ** More on the engine *)

Section EngineErrors.

Context {W : Type} (C : Collaborators W).

(** X11: on the download path, once the patch has written the new file
    beside the old one, the old one is removed and the new one renamed
    over it.  A removal that fails because the file is not there
    ([ENOENT]) is passed over and the rename happens; a removal that fails
    with any other error raises it, and the last thing done is that
    removal: there is no rename, and the patched file stays beside the
    old one. *)
Theorem download_stops_at_failed_remove (filepath remote_path : string)
    (st : state W) (errno : Z) :
  let sig_path := temp_dir_name C +++ "/" +++ remote_path +++ ".sig" in
  let signed := rdiff_signature C filepath sig_path (world st) in
  let answer := ws_download_new_file_version C sig_path remote_path (snd signed) in
  let patched :=
    rdiff_patch C filepath (snd (fst answer)) (filepath +++ "_2") (snd answer) in
  let run := _sync_both_file_download C filepath remote_path st in
  fst (fst answer) = 200 ->
  fst patched = 0 ->
  fst (os_remove C filepath (snd patched)) = Some errno ->
  (errno = ENOENT ->
   fst run = Ok 1
   /\ exists before,
        trace (snd run)
        = EvRenames (filepath +++ "_2") filepath :: EvRemove filepath :: before)
  /\ (errno <> ENOENT ->
      fst run = Raise (OSError errno)
      /\ exists before,
           trace (snd run)
           = EvRemove filepath
             :: EvPatch filepath (snd (fst answer)) (filepath +++ "_2") 0
             :: before).
Proof.
  intros sig_path signed answer patched run Hok Hpatch Hrm.
  subst run patched answer signed sig_path.
  unfold _sync_both_file_download, silent_remove. run.
  destruct (rdiff_signature C filepath _ (world st)) as [s w1]. run.
  cbn [fst snd] in *.
  destruct (ws_download_new_file_version C _ remote_path w1)
    as [[r delta_path] w2]. run.
  cbn [fst snd] in *. subst r. cbn [Z.eqb Pos.eqb negb]. run.
  destruct (rdiff_patch C filepath delta_path _ w2) as [status w3]. run.
  cbn [fst snd] in *. subst status. cbn [Z.eqb negb]. run.
  destruct (os_remove C filepath w3) as [err w4]. run.
  cbn [fst] in Hrm. subst err. split.
  - intros ->. cbn [Z.eqb ENOENT Pos.eqb]. run. split; [reflexivity | eauto].
  - intros Hother. apply Z.eqb_neq in Hother. rewrite Hother. run.
    split; [reflexivity | eauto].
Qed.

(** X12: the entry [sync_both_file] hands back is the entry it was given
    with one change at most: where the entry had no whole-file digest and
    the store held a tag, the tag is written into the entry's [Md5].  The
    digest it computes and stores as the tag itself is not written into
    the entry. *)
Theorem sync_both_file_entry (filepath remote_path : string)
    (remote_meta : RemoteEntry) (st : state W)
    (result : outcome) (remote_meta' : RemoteEntry) :
  fst (sync_both_file C filepath remote_path remote_meta st)
  = Ok (result, remote_meta') ->
  let tag := fst (filer_get_file_md5_tag C remote_path (world st)) in
  remote_meta'
  = match known_digest remote_meta tag with
    | Some digest => set_Md5 remote_meta digest
    | None => remote_meta
    end.
Proof.
  unfold sync_both_file, known_digest.
  unfold bind at 1. unfold emit at 1. unfold bind at 1.
  unfold resolve_remote_md5.
  assert (Hrest : forall (entry : RemoteEntry) (none : bool) (st1 : state W),
             fst ((file <- observe (file_bytes C filepath) ;;
                   '(synced, gen) <- compare_files file entry none
                                       (md5_file_generator file default_size) ;;
                   if synced then
                     call_ (filer_remove_file_tags C remote_path)
                           (EvRemoveTags remote_path) ;;;
                     update_remote_md5 C none remote_path gen ;;;
                     ret (AlreadySynced, entry)
                   else
                     update_remote_md5 C none remote_path gen ;;;
                     result <- transfer C filepath remote_path entry ;;
                     ret (result, entry)) st1)
             = Ok (result, remote_meta') ->
             remote_meta' = entry).
  { intros entry none st1. unfold bind at 1. unfold observe at 1.
    unfold bind at 1.
    destruct (compare_files _ entry none _ st1) as [[[synced gen]|e] st2];
      [|discriminate].
    destruct synced.
    - unfold bind at 1. unfold call_ at 1. unfold bind at 1.
      destruct (update_remote_md5 C none remote_path gen _) as [[gen'|e] st3];
        [|discriminate].
      unfold ret. cbn [fst]. congruence.
    - unfold bind at 1.
      destruct (update_remote_md5 C none remote_path gen _) as [[gen'|e] st3];
        [|discriminate].
      unfold bind at 1.
      destruct (transfer C filepath remote_path entry st3) as [[o|e] st4];
        [|discriminate].
      unfold ret. cbn [fst]. congruence. }
  destruct (String.eqb (Md5 remote_meta) "None") eqn:Hnone.
  - unfold bind at 1. unfold call at 1. cbn [world trace heap].
    destruct (filer_get_file_md5_tag C remote_path (world st)) as [tag w1].
    cbn [fst].
    destruct (String.eqb tag ""); cbn [negb]; unfold ret at 1; apply Hrest.
  - unfold ret at 1. intros H. apply Hrest in H. subst remote_meta'.
    destruct remote_meta. reflexivity.
Qed.

(** X13: an entry without chunks whose size is not the local file's makes
    [sync_both_file] raise [IndexError] when it comes to choose the
    direction, before any step of a transfer. *)
Theorem sync_both_file_without_chunks_raises (filepath remote_path : string)
    (remote_meta : RemoteEntry) (st : state W) :
  let answer := filer_get_file_md5_tag C remote_path (world st) in
  let file :=
    file_bytes C filepath
      (if String.eqb (Md5 remote_meta) "None" then snd answer else world st) in
  let run := sync_both_file C filepath remote_path remote_meta st in
  chunks remote_meta = [] ->
  Z.of_nat (List.length file) <> FileSize remote_meta ->
  fst run = Raise IndexError
  /\ exists evs,
       trace (snd run) = evs ++ trace st
       /\ Forall (fun ev => ~ transfer_event ev) evs.
Proof.
  intros answer file run Hchunks Hsize. subst run file answer.
  unfold sync_both_file, resolve_remote_md5, compare_files, update_remote_md5,
    transfer, choose_direction.
  run.
  destruct (String.eqb (Md5 remote_meta) "None") eqn:Hnone; run.
  - destruct (filer_get_file_md5_tag C remote_path (world st)) as [tag w1].
    cbn [fst snd] in *. run.
    apply Z.eqb_neq in Hsize.
    destruct (String.eqb tag ""); cbn [negb]; run; cbn [set_Md5 FileSize chunks];
      rewrite Hsize; run.
    + rewrite md5_file_generator_spec.
      destruct (map Hashlib.md5 _ ++ [_]) as [|value gen'] eqn:Hgen.
      { apply app_eq_nil in Hgen. destruct Hgen as [_ Hgen]. discriminate Hgen. }
      run. rewrite Hchunks. run. split; [reflexivity|].
      eexists [_; _; _]. split; [reflexivity|].
      repeat constructor; intros [].
    + rewrite Hchunks. run. split; [reflexivity|].
      eexists [_; _]. split; [reflexivity|].
      repeat constructor; intros [].
  - cbn [negb]. apply Z.eqb_neq in Hsize. rewrite Hsize. run.
    rewrite Hchunks. run. split; [reflexivity|].
    eexists [_]. split; [reflexivity|].
    repeat constructor; intros [].
Qed.

End EngineErrors.

(** ** What a call leaves in the trace *)

(** Discharges the side conditions of [emits] lemmas for predicates that
    are negations of event classes. *)
Ltac emits_not :=
  repeat first
    [ apply emits_bind; [| intros ?]
    | apply emits_if
    | match goal with
      | |- emits _ (match ?x with _ => _ end) => destruct x
      end
    | apply emits_call; intros ?
    | apply emits_call_
    | apply emits_emit ];
  auto with emits;
  try (intros; cbn; first [exact I | tauto | congruence | intuition congruence]).

Section TraceContents.

Context {W : Type} (C : Collaborators W).

Variable P : event -> Prop.

Lemma emits_chunks_md5s_equals (remote_chunks : list Chunk) :
  forall gen : generator, emits P (@chunks_md5s_equals W remote_chunks gen).
Proof.
  induction remote_chunks as [|c rest IH]; intros gen; cbn [chunks_md5s_equals].
  - auto with emits.
  - emits_not.
Qed.

Lemma emits_compare_files (file : list byte) (remote_meta : RemoteEntry)
    (none : bool) (gen : generator) :
  emits P (@compare_files W file remote_meta none gen).
Proof.
  unfold compare_files. emits_not. apply emits_chunks_md5s_equals.
Qed.

Lemma emits_bind_ret {A B : Type} (a : A) (k : A -> M W B) :
  emits P (k a) -> emits P (bind (ret a) k).
Proof. intros H st. exact (H st). Qed.

Hypothesis transfers : forall ev, transfer_event ev -> P ev.
Hypothesis prints : forall text, P (EvPrint text).

Lemma emits_transfer (filepath remote_path : string) (remote_meta : RemoteEntry) :
  emits P (transfer C filepath remote_path remote_meta).
Proof.
  unfold transfer, _sync_make_version_delta, _sync_both_file_upload,
    _sync_both_file_download, silent_remove.
  emits_not; try (intros; apply transfers; exact I); try apply prints.
Qed.

End TraceContents.

Section TagTraffic.

Context {W : Type} (C : Collaborators W).

(** X14: with a whole-file digest in the entry, [sync_both_file] neither
    reads nor writes the content-hash tag in the store. *)
Theorem known_digest_no_tag_traffic (filepath remote_path : string)
    (remote_meta : RemoteEntry) (st : state W) :
  Md5 remote_meta <> "None" ->
  exists evs,
    trace (snd (sync_both_file C filepath remote_path remote_meta st))
    = evs ++ trace st
    /\ Forall (fun ev => ~ tag_event ev) evs.
Proof.
  intros Hknown. apply String.eqb_neq in Hknown.
  assert (Hm : emits (fun ev => ~ tag_event ev)
                     (sync_both_file C filepath remote_path remote_meta)).
  { unfold sync_both_file, resolve_remote_md5. rewrite Hknown.
    apply emits_bind; [apply emits_emit; intros [] | intros _].
    apply emits_bind_ret.
    apply emits_bind; [apply emits_observe | intros file].
    apply emits_bind; [apply emits_compare_files | intros [synced gen]].
    unfold update_remote_md5.
    destruct synced.
    - apply emits_bind; [apply emits_call_; intros [] | intros _].
      apply emits_bind; [apply emits_ret | intros _]. apply emits_ret.
    - apply emits_bind; [apply emits_ret | intros _].
      apply emits_bind; [| intros o; apply emits_ret].
      apply emits_transfer.
      + intros [] Hev; cbn in *; tauto.
      + intros text []. }
  exact (Hm st).
Qed.

(** X15: [sync_both_file] removes the entry's tags exactly when it
    returns through the already-synced exit, and then it has taken no
    step of a transfer. *)
Theorem remove_tags_iff_already_synced (filepath remote_path : string)
    (remote_meta : RemoteEntry) (st : state W)
    (result : outcome) (remote_meta' : RemoteEntry) :
  fst (sync_both_file C filepath remote_path remote_meta st)
  = Ok (result, remote_meta') ->
  exists evs,
    trace (snd (sync_both_file C filepath remote_path remote_meta st))
    = evs ++ trace st
    /\ (In (EvRemoveTags remote_path) evs <-> result = AlreadySynced)
    /\ (result = AlreadySynced -> Forall (fun ev => ~ transfer_event ev) evs).
Proof.
  set (calm := fun ev => ~ transfer_event ev /\ ev <> EvRemoveTags remote_path).
  destruct (sync_both_file C filepath remote_path remote_meta st)
    as [r st'] eqn:Hrun.
  cbn [fst snd]. intros ->. revert Hrun.
  unfold sync_both_file.
  unfold bind at 1. unfold emit at 1. unfold bind at 1.
  assert (Hresolve : emits calm (resolve_remote_md5 C remote_path remote_meta)).
  { unfold resolve_remote_md5, calm. emits_not. }
  match goal with
  | |- context [resolve_remote_md5 C remote_path remote_meta ?s] =>
      destruct (Hresolve s) as [evs1 [Ht1 Hall1]];
      destruct (resolve_remote_md5 C remote_path remote_meta s)
        as [[[entry none]|e] st1]; [|discriminate]
  end.
  cbn [snd trace] in Ht1.
  unfold bind at 1. unfold observe at 1. unfold bind at 1.
  pose proof (emits_compare_files calm
                (file_bytes C filepath (world st1)) entry none
                (md5_file_generator (file_bytes C filepath (world st1))
                                    default_size) st1) as [evs2 [Ht2 Hall2]].
  destruct (compare_files _ entry none _ st1) as [[[synced gen]|e] st2];
    [|discriminate].
  cbn [snd] in Ht2.
  assert (Hupdate : forall s, exists evs,
             trace (snd (update_remote_md5 C none remote_path gen s))
             = evs ++ trace s /\ Forall calm evs).
  { assert (H : emits calm (update_remote_md5 C none remote_path gen)).
    { unfold update_remote_md5, calm. emits_not. }
    exact H. }
  assert (Hcalm : forall evs, Forall calm evs ->
             Forall (fun ev => ~ transfer_event ev) evs
             /\ ~ In (EvRemoveTags remote_path) evs).
  { intros evs Hall. split.
    - eapply Forall_impl; [|exact Hall]. intros ev [H _]. exact H.
    - intros Hin. rewrite Forall_forall in Hall. apply Hall in Hin.
      destruct Hin as [_ Hin]. congruence. }
  destruct synced.
  - unfold bind at 1. unfold call_ at 1. unfold bind at 1.
    match goal with
    | |- context [update_remote_md5 C none remote_path gen ?s] =>
        destruct (Hupdate s) as [evs3 [Ht3 Hall3]];
        destruct (update_remote_md5 C none remote_path gen s) as [[gen'|e] st3];
          [|discriminate]
    end.
    cbn [snd trace] in Ht3. unfold ret. intros Hrun.
    injection Hrun as <- <- <-.
    exists (evs3 ++ EvRemoveTags remote_path :: evs2
            ++ evs1 ++ [EvSyncBothFile filepath remote_path]).
    rewrite Ht3, Ht2, Ht1. repeat split.
    + rewrite <- !app_assoc. cbn [app]. rewrite <- !app_assoc. reflexivity.
    + intros _. apply in_or_app. right. left. reflexivity.
    + intros _. apply Forall_app. split; [apply Hcalm, Hall3|].
      constructor; [intros [] |].
      apply Forall_app. split; [apply Hcalm, Hall2|].
      apply Forall_app. split; [apply Hcalm, Hall1|].
      repeat constructor. intros [].
  - unfold bind at 1.
    destruct (Hupdate st2) as [evs3 [Ht3 Hall3]].
    destruct (update_remote_md5 C none remote_path gen st2) as [[gen'|e] st3];
      [|discriminate].
    cbn [snd] in Ht3. unfold bind at 1.
    pose proof (transfer_outcome C filepath remote_path entry st3) as Hnot.
    assert (Htransfer : emits (fun ev => ev <> EvRemoveTags remote_path)
                              (transfer C filepath remote_path entry)).
    { apply emits_transfer.
      - intros ev Hev ->. exact Hev.
      - intros text. discriminate. }
    destruct (Htransfer st3) as [evs4 [Ht4 Hall4]].
    destruct (transfer C filepath remote_path entry st3) as [[o|e] st4];
      [|discriminate].
    cbn [snd fst] in *. unfold ret. intros Hrun.
    injection Hrun as <- <- <-.
    exists (evs4 ++ evs3 ++ evs2 ++ evs1 ++ [EvSyncBothFile filepath remote_path]).
    rewrite Ht4, Ht3, Ht2, Ht1. repeat split.
    + rewrite <- !app_assoc. reflexivity.
    + intros Hin. exfalso.
      rewrite !in_app_iff in Hin.
      destruct Hin as [Hin | [Hin | [Hin | [Hin | [Hin | []]]]]].
      * rewrite Forall_forall in Hall4. apply Hall4 in Hin. congruence.
      * apply (proj2 (Hcalm _ Hall3) Hin).
      * apply (proj2 (Hcalm _ Hall2) Hin).
      * apply (proj2 (Hcalm _ Hall1) Hin).
      * discriminate Hin.
    + intros ->. congruence.
    + intros ->. congruence.
Qed.

End TagTraffic.

(** ** The pass over [both] and the driver *)

Lemma subseq_refl_nil {A : Type} (full : list A) : subseq [] full.
Proof. induction full; constructor; assumption. Qed.

Section Passes.

Context {W : Type} (C : Collaborators W).

Lemma sync_both_files_subseq (base_path : string) (both : list (string * nat)) :
  forall (repeat repeat' : list (string * nat)) (st : state W),
    fst (sync_both_files C base_path both repeat st) = Ok repeat' ->
    exists added, repeat' = repeat ++ added /\ subseq added both.
Proof.
  induction both as [|[remote_path ref] rest IH]; intros repeat repeat' st;
    cbn [sync_both_files].
  - run. intros [= <-]. exists []. split; [symmetry; apply app_nil_r | constructor].
  - unfold bind at 1. unfold call at 1.
    destruct (filer_get_file_lock C remote_path (world st)) as [held w1].
    assert (Hdefer : forall st1,
               fst (sync_both_files C base_path rest
                      (repeat ++ [(remote_path, ref)]) st1) = Ok repeat' ->
               exists added,
                 repeat' = repeat ++ added
                 /\ subseq added ((remote_path, ref) :: rest)).
    { intros st1 H. apply IH in H. destruct H as [added [-> Hsub]].
      exists ((remote_path, ref) :: added). rewrite <- app_assoc.
      split; [reflexivity | constructor; exact Hsub]. }
    assert (Hdone : forall st1,
               fst (sync_both_files C base_path rest repeat st1) = Ok repeat' ->
               exists added,
                 repeat' = repeat ++ added
                 /\ subseq added ((remote_path, ref) :: rest)).
    { intros st1 H. apply IH in H. destruct H as [added [-> Hsub]].
      exists added. split; [reflexivity | constructor; exact Hsub]. }
    destruct (negb (String.eqb held "")); [apply Hdefer|].
    unfold bind at 1. unfold call_ at 1. unfold bind at 1. unfold call at 1.
    cbn [world trace heap].
    destruct (filer_get_file_lock C remote_path _) as [lock w3].
    destruct (String.eqb lock (client_id C)); [|apply Hdefer].
    unfold bind at 1. unfold heap_get at 1. unfold bind at 1.
    destruct (sync_both_file C _ remote_path _ _) as [[[result meta']|e] st4];
      [|discriminate].
    unfold bind at 1. unfold heap_set at 1.
    destruct (ret_code result =? 0); [apply Hdefer | apply Hdone].
Qed.

(** X16: a pass over [both] leaves the retry queue it was given in place
    and appends to it files of [both], each at most once and in the order
    of [both]; it never reorders, drops or repeats. *)
Theorem sync_both_files_defers_in_order (base_path : string)
    (both repeat repeat' : list (string * nat)) (st : state W) :
  fst (sync_both_files C base_path both repeat st) = Ok repeat' ->
  exists added,
    repeat' = repeat ++ added
    /\ subseq added both
    /\ (List.length repeat <= List.length repeat'
        <= List.length repeat + List.length both)%nat.
Proof.
  intros H. apply sync_both_files_subseq in H.
  destruct H as [added [-> Hsub]]. exists added.
  repeat split; [exact Hsub | rewrite length_app; lia |].
  rewrite length_app.
  assert (Hlen : (List.length added <= List.length both)%nat).
  { clear - Hsub. induction Hsub; cbn; lia. }
  lia.
Qed.

(** X17: when the listing is refused (a status of 300 or more),
    [sync_folder] returns 0 having done nothing else: the listing request
    is its only call, the local tree is not walked over for a transfer,
    no lock is asked for and no entry is kept. *)
Theorem sync_folder_refused_listing (fuel : nat)
    (full_folder_path base_path : string) (recursive : bool)
    (repeat_time : Z) (st : state W) :
  let rel_path :=
    remove_prefix (Str.replace Str.backslash Str.slash full_folder_path)
                  (Str.replace Str.backslash Str.slash base_path +++ "/") in
  let answer := filer_get_folder_listing C rel_path recursive (world st) in
  300 <= fst (fst answer) ->
  sync_folder C fuel full_folder_path base_path recursive repeat_time st
  = (Ok (Some 0),
     mkState (snd answer)
             (EvGetFolderListing rel_path recursive (fst (fst answer)) :: trace st)
             (heap st)).
Proof.
  intros rel_path answer Hrefused. subst answer rel_path.
  unfold sync_folder, sync_folder_listing. run.
  destruct (filer_get_folder_listing C _ recursive (world st)) as [[r listing] w1].
  cbn [fst snd] in *. apply Z.leb_le in Hrefused. run. rewrite Hrefused. run.
  rewrite Hrefused. reflexivity.
Qed.

End Passes.

Section Driver.

Context {W : Type} (C : Collaborators W).

Lemma awake_sync_both_file (filepath remote_path : string)
    (remote_meta : RemoteEntry) :
  emits awake (sync_both_file C filepath remote_path remote_meta).
Proof.
  unfold sync_both_file.
  apply emits_bind; [apply emits_emit; discriminate | intros _].
  apply emits_bind; [unfold resolve_remote_md5; emits_not; try discriminate |].
  intros [entry none].
  apply emits_bind; [apply emits_observe | intros file].
  apply emits_bind; [apply emits_compare_files | intros [synced gen]].
  assert (Hupdate : forall g, emits awake (update_remote_md5 C none remote_path g)).
  { intros g. unfold update_remote_md5. emits_not; try discriminate. }
  destruct synced.
  - apply emits_bind; [apply emits_call_; discriminate | intros _].
    apply emits_bind; [apply Hupdate | intros _]. apply emits_ret.
  - apply emits_bind; [apply Hupdate | intros _].
    apply emits_bind; [| intros o; apply emits_ret].
    apply emits_transfer.
    + intros [] Hev; try contradiction; discriminate.
    + discriminate.
Qed.

Lemma awake_sync_both_files (base_path : string) (both : list (string * nat)) :
  forall repeat, emits awake (sync_both_files C base_path both repeat).
Proof.
  induction both as [|[remote_path ref] rest IH]; intros repeat;
    cbn [sync_both_files].
  - apply emits_ret.
  - apply emits_bind; [apply emits_call; discriminate | intros held].
    apply emits_if; [apply IH|].
    apply emits_bind; [apply emits_call_; discriminate | intros _].
    apply emits_bind; [apply emits_call; discriminate | intros lock].
    apply emits_if; [|apply IH].
    apply emits_bind; [apply emits_heap_get | intros remote_meta].
    apply emits_bind; [apply awake_sync_both_file | intros [result meta']].
    apply emits_bind; [apply emits_heap_set | intros _].
    apply emits_if; apply IH.
Qed.

Lemma awake_sync_folder_listing (full_folder_path base_path : string)
    (recursive : bool) :
  emits awake (sync_folder_listing C full_folder_path base_path recursive).
Proof.
  unfold sync_folder_listing.
  apply emits_bind; [apply emits_call; discriminate | intros [r listing]].
  apply emits_if; [apply emits_ret|].
  apply emits_bind; [| intros refs].
  - intros st. exists []. split; [reflexivity | constructor].
  - apply emits_bind; [apply emits_observe | intros walk]. apply emits_ret.
Qed.

(** X18: whenever [sync_folder] returns, it returns 0 or 1 and has not
    slept: the retry loop, once entered with a file waiting, is never left
    through the return, so a returned 1 means the first pass deferred
    nothing. *)
Theorem sync_folder_returns_without_retry (fuel : nat)
    (full_folder_path base_path : string) (recursive : bool)
    (repeat_time : Z) (st : state W) (code : Z) :
  fst (sync_folder C fuel full_folder_path base_path recursive repeat_time st)
  = Ok (Some code) ->
  (code = 0 \/ code = 1)
  /\ exists evs,
       trace (snd (sync_folder C fuel full_folder_path base_path recursive
                               repeat_time st))
       = evs ++ trace st
       /\ Forall awake evs.
Proof.
  destruct (sync_folder C fuel full_folder_path base_path recursive
                        repeat_time st) as [r st'] eqn:Hrun.
  cbn [fst snd]. intros ->. revert Hrun.
  unfold sync_folder. unfold bind at 1.
  destruct (awake_sync_folder_listing full_folder_path base_path recursive st)
    as [evs1 [Ht1 Hall1]].
  destruct (sync_folder_listing C full_folder_path base_path recursive st)
    as [[[[[r local] remote_only] both]|e] st1]; [|discriminate].
  cbn [snd] in Ht1.
  destruct (300 <=? r).
  - unfold ret. intros Hrun. injection Hrun as <- <-.
    split; [left; reflexivity|]. exists evs1. split; assumption.
  - destruct local as [[base local_only]|]; [|discriminate].
    unfold bind at 1. unfold call_ at 1. unfold bind at 1.
    match goal with
    | |- context [sync_both_files C base both [] ?s] =>
        destruct (awake_sync_both_files base both [] s) as [evs2 [Ht2 Hall2]];
        destruct (sync_both_files C base both [] s) as [[repeat|e] st2];
          [|discriminate]
    end.
    cbn [snd trace] in Ht2.
    destruct repeat as [|b repeat].
    + destruct fuel; cbn [retry_loop]; unfold ret; intros Hrun;
        injection Hrun as <- <-;
        (split; [right; reflexivity|]);
        exists (evs2 ++ EvBulkTransfer base local_only remote_only :: evs1);
        (split; [rewrite Ht2, Ht1, <- app_assoc; reflexivity|]);
        (apply Forall_app; split; [exact Hall2|]);
        (constructor; [discriminate | exact Hall1]).
    + intros Hrun. exfalso.
      apply (retry_loop_never_returns C base repeat_time fuel (b :: repeat) st2 code);
        [discriminate|].
      rewrite Hrun. reflexivity.
Qed.

End Driver.

(** ** The direction decision, continued *)

(** X19: the direction decision fails only for want of a first chunk, with
    [IndexError]: the digits of a chunk's mtime always spell a number, so
    the conversion never fails.  The decision looks at the first chunk
    only. *)
Theorem choose_direction_fails_only_without_chunks (getmtime : Q)
    (remote_meta : RemoteEntry) :
  (choose_direction getmtime remote_meta = Raise IndexError
   <-> chunks remote_meta = [])
  /\ (forall e, choose_direction getmtime remote_meta = Raise e -> e = IndexError)
  /\ (chunks remote_meta <> []
      <-> exists d, choose_direction getmtime remote_meta = Ok d)
  /\ (forall other : RemoteEntry,
        hd_error (chunks other) = hd_error (chunks remote_meta) ->
        choose_direction getmtime other = choose_direction getmtime remote_meta).
Proof.
  unfold choose_direction.
  destruct (chunks remote_meta) as [|chunk0 rest] eqn:Hchunks.
  - split; [split; reflexivity|].
    split; [intros e [= <-]; reflexivity|].
    split.
    + split; [intros H; exfalso; apply H; reflexivity
             | intros [d H]; discriminate H].
    + intros other Hhd. destruct (chunks other); [reflexivity | discriminate].
  - rewrite float_str_prefix.
    split; [split; [destruct (_ <? _); discriminate | discriminate]|].
    split; [intros e H; destruct (_ <? _); discriminate H|].
    split.
    + split; [intros _; destruct (_ <? _); eauto | discriminate].
    + intros other Hhd. destruct (chunks other) as [|c r]; [discriminate|].
      injection Hhd as ->. rewrite float_str_prefix. reflexivity.
Qed.

(** ** The entries behind [both] *)

Lemma dict_set_In {V : Type} (d : list (string * V)) (k' : string) (v' : V) :
  NoDup (keys d) ->
  forall (k : string) (v : V),
    In (k, v) (dict_set d k' v') ->
    (k = k' /\ v = v') \/ (k <> k' /\ In (k, v) d).
Proof.
  induction d as [|[k1 v1] d IH]; intros Hd k v; cbn [dict_set].
  - intros [[= <- <-] | []]. left. auto.
  - inversion Hd as [|? ? Hnotin Hrest]; subst.
    destruct (String.eqb_spec k1 k') as [-> | Hne].
    + intros [[= <- <-] | Hin]; [left; auto|].
      right. split; [|right; exact Hin].
      intros ->. apply Hnotin. unfold keys. apply in_map_iff.
      exists (k', v). auto.
    + intros [[= <- <-] | Hin]; [right; split; [exact Hne | left; reflexivity]|].
      destruct (IH Hrest k v Hin) as [Hnew | [Hk Hold]]; [left; exact Hnew|].
      right. split; [exact Hk | right; exact Hold].
Qed.

Section BothEntries.

Context {W : Type} (C : Collaborators W).

Lemma remote_files_of_entries (listing : list RemoteEntry) :
  forall (n : nat) (acc : list (string * nat)),
    NoDup (keys acc) ->
    forall (k : string) (v : nat),
      In (k, v)
         (fold_left
            (fun remote_files '(ref, entry) =>
               if Mode entry <=? 9999
               then dict_set remote_files (remote_rel_path C entry) ref
               else remote_files)
            (combine (seq n (List.length listing)) listing) acc) ->
      (In (k, v) acc
       /\ forall j e, nth_error listing j = Some e -> Mode e <= 9999 ->
                      remote_rel_path C e <> k)
      \/ exists i entry, v = (n + i)%nat /\ last_file_entry C listing k i entry.
Proof.
  induction listing as [|e0 l IH]; intros n acc Hacc k v;
    cbn [List.length seq combine fold_left].
  - intros Hin. left. split; [exact Hin|]. intros [|j] e H; discriminate H.
  - intros Hin. apply IH in Hin.
    + destruct Hin as [[Hin Hnone] | [i [entry [-> Hlast]]]].
      * destruct (Mode e0 <=? 9999) eqn:Hmode.
        -- apply Z.leb_le in Hmode.
           destruct (dict_set_In acc _ n Hacc k v Hin) as [[-> ->] | [Hk Hold]].
           ++ right. exists 0%nat, e0. split; [lia|].
              repeat split; [exact Hmode|].
              intros [|j] e Hj Hnth; [lia|]. apply (Hnone j e Hnth).
           ++ left. split; [exact Hold|].
              intros [|j] e Hnth He.
              ** injection Hnth as <-. congruence.
              ** apply (Hnone j e Hnth He).
        -- apply Z.leb_gt in Hmode. left. split; [exact Hin|].
           intros [|j] e Hnth He.
           ++ injection Hnth as <-. lia.
           ++ apply (Hnone j e Hnth He).
      * right. exists (S i), entry. split; [lia|].
        destruct Hlast as [Hnth [Hmode [Hpath Hlater]]].
        repeat split; try assumption.
        intros [|j] e Hj Hnth' He; [lia|].
        apply (Hlater j e); [lia | exact Hnth' | exact He].
    + destruct (Mode e0 <=? 9999); [|exact Hacc].
      apply keys_dict_set_NoDup. exact Hacc.
Qed.

(** X20: when the listing is accepted, its entries are put on the heap in
    their order, and every file of [both] is paired with the reference of
    the last file entry listed under its relative path: where the listing
    names a path twice, the later entry is the one compared and the
    earlier is never looked at. *)
Theorem both_names_last_listed_entry
    (full_folder_path base_path : string) (recursive : bool) (st : state W) :
  let rel_path :=
    remove_prefix (Str.replace Str.backslash Str.slash full_folder_path)
                  (Str.replace Str.backslash Str.slash base_path +++ "/") in
  let answer := filer_get_folder_listing C rel_path recursive (world st) in
  let listing := snd (fst answer) in
  let run := sync_folder_listing C full_folder_path base_path recursive st in
  (fst (fst answer) < 300 -> heap (snd run) = heap st ++ listing)
  /\ (300 <= fst (fst answer) -> heap (snd run) = heap st)
  /\ forall status local remote_only both path ref,
       fst run = Ok (status, local, remote_only, both) ->
       In (path, ref) both ->
       exists i entry,
         ref = (List.length (heap st) + i)%nat
         /\ last_file_entry C listing path i entry
         /\ nth_error (heap (snd run)) ref = Some entry.
Proof.
  intros rel_path answer listing run. subst run listing answer rel_path.
  unfold sync_folder_listing. run.
  destruct (filer_get_folder_listing C _ recursive (world st)) as [[r listing] w1].
  cbn [fst snd]. run.
  destruct (300 <=? r) eqn:Hr; run.
  - apply Z.leb_le in Hr. split; [lia|]. split; [reflexivity|].
    intros status local remote_only both path ref [= <- <- <- <-] [].
  - apply Z.leb_gt in Hr. unfold alloc. run.
    split; [reflexivity|]. split; [lia|].
    intros status local remote_only both path ref [= <- <- <- <-] Hin.
    apply filter_In in Hin. destruct Hin as [Hin _].
    unfold remote_files_of in Hin.
    apply (remote_files_of_entries listing (List.length (heap st)) []) in Hin;
      [|constructor].
    destruct Hin as [[[] _] | [i [entry [-> Hlast]]]].
    exists i, entry. repeat split; try apply Hlast.
    rewrite nth_error_app2 by lia.
    replace (List.length (heap st) + i - List.length (heap st))%nat with i by lia.
    apply Hlast.
Qed.

End BothEntries.

(** ** The upload path *)

Section UploadPath.

Context {W : Type} (C : Collaborators W).


End UploadPath.

(** ** Tags written and read back *)

(** Arithmetic on [N] with divisions by constants. *)
Ltac n_arith := zify; Z.to_euclidean_division_equations; lia.

Section Base64RoundTrip.

Import Base64.
Local Open Scope N_scope.

Lemma b64_char_checks :
  forallb
    (fun v =>
       let c := N_of_ascii (b64_char v) in
       negb (127 <? c) && negb (c =? 13) && negb (c =? 10) && negb (c =? 32)
       && negb (c =? 61)
       && match b64_value c with Some v' => v' =? v | None => false end)
    (map N.of_nat (seq 0 64))
  = true.
Proof. vm_compute. reflexivity. Qed.

Lemma b64_char_value (v : N) :
  v < 64 ->
  let c := N_of_ascii (b64_char v) in
  (127 <? c) = false /\ (c =? 13) = false /\ (c =? 10) = false
  /\ (c =? 32) = false /\ (c =? 61) = false /\ b64_value c = Some v.
Proof.
  intros Hv c.
  pose proof b64_char_checks as Hall. rewrite forallb_forall in Hall.
  specialize (Hall v).
  assert (Hin : In v (map N.of_nat (seq 0 64))).
  { apply in_map_iff. exists (N.to_nat v). split; [apply N2Nat.id|].
    apply in_seq. lia. }
  apply Hall in Hin. fold c in Hin.
  rewrite !andb_true_iff, !negb_true_iff in Hin.
  destruct Hin as [[[[[H1 H2] H3] H4] H5] H6].
  repeat split; try assumption.
  destruct (b64_value c) as [v'|]; [|discriminate].
  apply N.eqb_eq in H6. congruence.
Qed.

(** One alphabet character through the decoder. *)
Lemma a2b_char (v : N) (rest : list N) (quad_pos leftchar leftbits : N)
    (out : list byte) :
  v < 64 ->
  a2b_base64 (N_of_ascii (b64_char v) :: rest) quad_pos leftchar leftbits out
  = if 8 <=? leftbits + 6
    then a2b_base64 rest ((quad_pos + 1) mod 4)
           ((leftchar * 64 + v) mod 2 ^ (leftbits + 6 - 8)) (leftbits + 6 - 8)
           (out_byte ((leftchar * 64 + v) / 2 ^ (leftbits + 6 - 8)) :: out)
    else a2b_base64 rest ((quad_pos + 1) mod 4) (leftchar * 64 + v)
           (leftbits + 6) out.
Proof.
  intros Hv. destruct (b64_char_value v Hv) as [H1 [H2 [H3 [H4 [H5 H6]]]]].
  cbn [a2b_base64]. rewrite H1, H2, H3, H4, H5, H6. reflexivity.
Qed.

Lemma out_byte_to_N (b : byte) (n : N) :
  n mod 256 = Byte.to_N b -> out_byte n = b.
Proof. intros H. unfold out_byte. rewrite H, Byte.of_to_N. reflexivity. Qed.

Lemma list_ind3 {A : Type} (P : list A -> Prop) :
  P [] -> (forall a, P [a]) -> (forall a b, P [a; b]) ->
  (forall a b c l, P l -> P (a :: b :: c :: l)) ->
  forall l, P l.
Proof.
  intros H0 H1 H2 H3.
  fix IH 1.
  intros [|a [|b [|c l]]]; [exact H0 | apply H1 | apply H2 | apply H3; apply IH].
Qed.

Lemma a2b_pad_two (rest : list N) (leftchar leftbits : N) (out : list byte) :
  a2b_base64 (61 :: 61 :: rest) 2 leftchar leftbits out = Some (rev out).
Proof. reflexivity. Qed.

Lemma a2b_pad_one (rest : list N) (leftchar leftbits : N) (out : list byte) :
  a2b_base64 (61 :: rest) 3 leftchar leftbits out = Some (rev out).
Proof. reflexivity. Qed.

Lemma a2b_b64encode (data : list byte) :
  forall out : list byte,
    a2b_base64 (codes (b64encode data)) 0 0 0 out = Some (rev out ++ data).
Proof.
  induction data as [|b0|b0 b1|b0 b1 b2 rest IH] using list_ind3; intros out.
  - cbn. rewrite app_nil_r. reflexivity.
  - pose proof (Byte.to_N_bounded b0) as Hb0.
    cbn [b64encode codes].
    rewrite a2b_char by n_arith.
    change (8 <=? 0 + 6) with false. cbv iota.
    rewrite a2b_char by n_arith.
    change (8 <=? 0 + 6 + 6) with true. cbv iota.
    change ((0 + 1) mod 4) with 1. change ((1 + 1) mod 4) with 2.
    change (0 + 6 + 6 - 8) with 4. change (2 ^ 4) with 16.
    change (N_of_ascii pad) with 61.
    rewrite a2b_pad_two. cbn [rev]. do 3 f_equal. apply out_byte_to_N.
    n_arith.
  - pose proof (Byte.to_N_bounded b0) as Hb0.
    pose proof (Byte.to_N_bounded b1) as Hb1.
    cbn [b64encode codes].
    set (n := to_N b0 * 256 + to_N b1).
    rewrite a2b_char by (subst n; n_arith).
    change (8 <=? 0 + 6) with false. cbv iota.
    rewrite a2b_char by (subst n; n_arith).
    change (8 <=? 0 + 6 + 6) with true. cbv iota.
    change ((0 + 1) mod 4) with 1. change ((1 + 1) mod 4) with 2.
    change (0 + 6 + 6 - 8) with 4. change (2 ^ 4) with 16.
    rewrite a2b_char by (subst n; n_arith).
    change (8 <=? 4 + 6) with true. cbv iota.
    change ((2 + 1) mod 4) with 3.
    change (4 + 6 - 8) with 2. change (2 ^ 2) with 4.
    change (N_of_ascii pad) with 61.
    rewrite a2b_pad_one. cbn [rev]. rewrite <- app_assoc. cbn [app].
    do 2 f_equal. f_equal; [|f_equal]; apply out_byte_to_N; subst n; n_arith.
  - pose proof (Byte.to_N_bounded b0) as Hb0.
    pose proof (Byte.to_N_bounded b1) as Hb1.
    pose proof (Byte.to_N_bounded b2) as Hb2.
    cbn [b64encode codes].
    set (n := (to_N b0 * 256 + to_N b1) * 256 + to_N b2).
    rewrite a2b_char by (subst n; n_arith).
    change (8 <=? 0 + 6) with false. cbv iota.
    rewrite a2b_char by (subst n; n_arith).
    change (8 <=? 0 + 6 + 6) with true. cbv iota.
    change ((0 + 1) mod 4) with 1. change ((1 + 1) mod 4) with 2.
    change (0 + 6 + 6 - 8) with 4. change (2 ^ 4) with 16.
    rewrite a2b_char by (subst n; n_arith).
    change (8 <=? 4 + 6) with true. cbv iota.
    change ((2 + 1) mod 4) with 3.
    change (4 + 6 - 8) with 2. change (2 ^ 2) with 4.
    rewrite a2b_char by (subst n; n_arith).
    change (8 <=? 2 + 6) with true. cbv iota.
    change ((3 + 1) mod 4) with 0.
    change (2 + 6 - 8) with 0. change (2 ^ 0) with 1.
    rewrite N.mod_1_r, IH. cbn [rev]. rewrite <- !app_assoc. cbn [app].
    do 2 f_equal. f_equal; [|f_equal; [|f_equal]];
      apply out_byte_to_N; subst n; n_arith.
Qed.

(** Decoding undoes encoding. *)
Lemma b64decode_b64encode (data : list byte) :
  b64decode (b64encode data) = Some data.
Proof.
  unfold b64decode.
  assert (Hascii : forallb (fun c => c <=? 127) (codes (b64encode data)) = true).
  { induction data as [|b0|b0 b1|b0 b1 b2 rest IH] using list_ind3;
      cbn [b64encode codes forallb]; [reflexivity | | |].
    - pose proof (Byte.to_N_bounded b0) as Hb0.
      rewrite !andb_true_iff. repeat split;
        first [reflexivity | apply N.leb_le, N.lt_le_incl, N.ltb_ge; fail | idtac].
      all: apply N.leb_le, N.ltb_ge; apply b64_char_value; n_arith.
    - pose proof (Byte.to_N_bounded b0) as Hb0.
      pose proof (Byte.to_N_bounded b1) as Hb1.
      rewrite !andb_true_iff. repeat split; try reflexivity.
      all: apply N.leb_le, N.ltb_ge; apply b64_char_value; n_arith.
    - pose proof (Byte.to_N_bounded b0) as Hb0.
      pose proof (Byte.to_N_bounded b1) as Hb1.
      pose proof (Byte.to_N_bounded b2) as Hb2.
      rewrite !andb_true_iff. repeat split; try exact IH.
      all: apply N.leb_le, N.ltb_ge; apply b64_char_value; n_arith. }
  cbv zeta. rewrite Hascii. apply (a2b_b64encode data []).
Qed.

End Base64RoundTrip.

Lemma b64encode_empty (data : list byte) :
  Base64.b64encode data = "" -> data = [].
Proof. destruct data as [|b0 [|b1 [|b2 rest]]]; [reflexivity | | |]; discriminate. Qed.

Lemma md5_nonempty (data : list byte) : Hashlib.md5 data <> [].
Proof. unfold Hashlib.md5. cbv zeta. cbn [Hashlib.le_bytes app]. discriminate. Qed.

Lemma skipn_cons_nth {A : Type} (n : nat) :
  forall (l : list A) (value : A) (rest : list A) (d : A),
    skipn n l = value :: rest -> nth n l d = value /\ (n < List.length l)%nat.
Proof.
  induction n as [|n IH]; intros [|x l] value rest d; cbn [skipn nth List.length];
    try discriminate.
  - intros [= -> ->]. split; [reflexivity | lia].
  - intros H. destruct (IH l value rest d H). split; [assumption | lia].
Qed.

Section StoredTag.

Context {W : Type} (C : Collaborators W).

(** A comparison of chunks that answers [True] has taken one value of the
    generator for each remote chunk. *)
Lemma chunks_md5s_equals_consumes (remote_chunks : list Chunk) :
  forall (gen gen' : generator) (st : state W),
    fst (chunks_md5s_equals remote_chunks gen st) = Ok (true, gen') ->
    gen' = skipn (List.length remote_chunks) gen.
Proof.
  induction remote_chunks as [|c rest IH]; intros gen gen' st;
    cbn [chunks_md5s_equals List.length skipn].
  - unfold ret. cbn [fst]. congruence.
  - destruct (Base64.b64decode (e_tag c)) as [remote|]; [|discriminate].
    destruct gen as [|mine gen1]; [discriminate|].
    run. destruct (negb (bytes_eqb remote mine)); [discriminate|].
    apply IH.
Qed.

(** X22: where the entry has no whole-file digest and the store holds no
    tag, a call that ends already synced has stored as the tag the value
    of the generator that follows those the comparison took, one for each
    remote chunk: the whole-file digest when the entry has as many chunks
    as the file has ranges of 1 MiB, and the digest of the next local
    range when it has fewer. *)
Theorem stored_tag_follows_comparison (filepath remote_path : string)
    (remote_meta remote_meta' : RemoteEntry) (st : state W) :
  let answer := filer_get_file_md5_tag C remote_path (world st) in
  let file := file_bytes C filepath (snd answer) in
  let run := sync_both_file C filepath remote_path remote_meta st in
  let n := List.length (chunks remote_meta) in
  let locals := FileIO.read_chunks default_size file in
  let tag :=
    Base64.b64encode (nth n (md5_file_generator file default_size) []) in
  Md5 remote_meta = "None" ->
  fst answer = "" ->
  fst run = Ok (AlreadySynced, remote_meta') ->
  (n <= List.length locals)%nat
  /\ trace (snd run)
     = EvSetMd5Tag remote_path tag :: EvRemoveTags remote_path
       :: EvGetMd5Tag remote_path "" :: EvSyncBothFile filepath remote_path
       :: trace st
  /\ (n = List.length locals -> tag = Base64.b64encode (Hashlib.md5 file))
  /\ ((n < List.length locals)%nat ->
      tag = Base64.b64encode (Hashlib.md5 (byte_range file default_size n))).
Proof.
  intros answer file run n locals tag Hmd5 Htag.
  subst tag run. subst file answer.
  destruct (sync_both_file C filepath remote_path remote_meta st)
    as [r st'] eqn:Hrun.
  cbn [fst snd]. intros ->. revert Hrun.
  unfold sync_both_file, resolve_remote_md5.
  rewrite Hmd5. cbn [String.eqb Ascii.eqb Bool.eqb andb].
  unfold bind at 1. unfold emit at 1. unfold bind at 1. unfold bind at 1.
  unfold call at 1. cbn [world trace heap].
  destruct (filer_get_file_md5_tag C remote_path (world st)) as [t w1].
  cbn [fst snd] in *. subst t. cbn [String.eqb negb]. unfold ret at 1.
  unfold bind at 1. unfold observe at 1. cbn [world].
  set (file := file_bytes C filepath w1) in *.
  unfold bind at 1. unfold compare_files. cbn [negb].
  set (st1 := {| world := w1; trace := _; heap := _ |}).
  destruct (Z.of_nat (List.length file) =? FileSize remote_meta).
  - pose proof (fun gen' =>
                  chunks_md5s_equals_consumes (chunks remote_meta)
                    (md5_file_generator file default_size) gen' st1) as Hskip.
    pose proof (chunks_md5s_equals_state (chunks remote_meta)
                  (md5_file_generator file default_size) st1) as Hst.
    destruct (chunks_md5s_equals (chunks remote_meta)
                (md5_file_generator file default_size) st1)
      as [[[synced gen']|e] st2]; [|discriminate].
    cbn [snd] in Hst. subst st2.
    destruct synced.
    + cbn [fst] in Hskip. specialize (Hskip gen' eq_refl). fold n in Hskip.
      unfold update_remote_md5. run.
      destruct gen' as [|value gen'']; [discriminate|].
      run. intros Hrun. injection Hrun as <- <-.
      symmetry in Hskip.
      destruct (skipn_cons_nth n _ value gen'' [] Hskip) as [Hnth Hlen].
      rewrite Hnth.
      rewrite md5_file_generator_spec in Hlen, Hnth. fold locals in Hlen, Hnth.
      rewrite length_app, length_map in Hlen. cbn [List.length] in Hlen.
      subst st1. cbn [trace].
      split; [lia|]. split; [reflexivity|]. split.
      * intros Hn. f_equal. rewrite <- Hnth.
        rewrite app_nth2 by (rewrite length_map; lia).
        rewrite length_map, Hn, Nat.sub_diag. cbn [nth].
        unfold locals. rewrite read_chunks_concat by discriminate. reflexivity.
      * intros Hn. f_equal. rewrite <- Hnth.
        rewrite app_nth1 by (rewrite length_map; lia).
        rewrite (nth_indep _ [] (Hashlib.md5 [])) by (rewrite length_map; lia).
        rewrite map_nth. f_equal.
        assert (Hrange : nth_error locals n = Some (nth n locals [])).
        { apply nth_error_nth'. exact Hn. }
        apply read_chunks_nth in Hrange; [|reflexivity].
        apply Hrange.
    + intros Hrun. apply (f_equal fst) in Hrun. cbn [fst] in Hrun. exfalso.
      revert Hrun.
      apply (not_synced_branch C filepath remote_path true gen' remote_meta
               remote_meta' st1).
  - unfold ret at 1. intros Hrun. apply (f_equal fst) in Hrun.
    cbn [fst] in Hrun. exfalso. revert Hrun.
    apply (not_synced_branch C filepath remote_path true _ remote_meta
             remote_meta' st1).
Qed.

(** X23: a whole-file digest written by [b64encode] is read back by
    [b64decode] as it was.  So when the digest the comparison knows (the
    entry's, or else the store's tag) is the encoded MD5 of the local file
    and the sizes agree, the call ends already synced: it compares no
    chunk, writes no tag and takes no step of a transfer. *)
Theorem encoded_digest_is_recognised (filepath remote_path : string)
    (remote_meta : RemoteEntry) (st : state W) :
  let answer := filer_get_file_md5_tag C remote_path (world st) in
  let tag := fst answer in
  let unset := String.eqb (Md5 remote_meta) "None" in
  let file := file_bytes C filepath (if unset then snd answer else world st) in
  let digest := Base64.b64encode (Hashlib.md5 file) in
  let run := sync_both_file C filepath remote_path remote_meta st in
  known_digest remote_meta tag = Some digest ->
  Z.of_nat (List.length file) = FileSize remote_meta ->
  Base64.b64decode digest = Some (Hashlib.md5 file)
  /\ fst run = Ok (AlreadySynced, set_Md5 remote_meta digest)
  /\ trace (snd run)
     = EvRemoveTags remote_path
       :: (if unset then [EvGetMd5Tag remote_path tag] else [])
       ++ EvSyncBothFile filepath remote_path :: trace st.
Proof.
  intros answer tag unset file digest run Hknown Hsize.
  split; [apply b64decode_b64encode|].
  subst run digest file unset tag answer. revert Hknown Hsize.
  unfold known_digest, sync_both_file, resolve_remote_md5, compare_files,
    update_remote_md5.
  destruct (String.eqb (Md5 remote_meta) "None") eqn:Hnone.
  - run. destruct (filer_get_file_md5_tag C remote_path (world st)) as [tag w1].
    cbn [fst snd]. destruct (String.eqb tag "") eqn:Htag; [discriminate|].
    intros Hknown Hsize.
    assert (Htageq := f_equal (fun o => match o with Some x => x | None => tag end)
                              Hknown).
    cbv beta iota in Htageq. clear Hknown.
    cbn [negb]. run.
    cbn [set_Md5 FileSize Md5]. apply Z.eqb_eq in Hsize. rewrite Hsize.
    cbn [negb]. rewrite md5_whole_file_bytes.
    subst tag. rewrite b64decode_b64encode.
    run. rewrite bytes_eqb_refl. run. split; reflexivity.
  - intros Hknown Hsize.
    assert (Hmd5 := f_equal (fun o => match o with
                                      | Some x => x
                                      | None => Md5 remote_meta
                                      end) Hknown).
    cbv beta iota in Hmd5. clear Hknown.
    run. cbn [negb].
    apply Z.eqb_eq in Hsize. rewrite Hsize.
    rewrite md5_whole_file_bytes, Hmd5, b64decode_b64encode.
    run. rewrite bytes_eqb_refl. run.
    split; [|reflexivity].
    rewrite <- Hmd5. destruct remote_meta. reflexivity.
Qed.

End StoredTag.

(** ** The direction decision and the local clock *)

Lemma py_round_monotone (x y : Q) : (x <= y)%Q -> py_round x <= py_round y.
Proof.
  intros Hxy.
  destruct (py_round_nearest x) as [Hx1 [Hx2 Hx3]].
  destruct (py_round_nearest y) as [Hy1 [Hy2 Hy3]].
  destruct (Z_le_gt_dec (py_round x) (py_round y)) as [Hle | Hgt]; [exact Hle|].
  exfalso.
  assert (Hstep : (inject_Z (py_round y) + 1 <= inject_Z (py_round x))%Q).
  { change 1%Q with (inject_Z 1). rewrite <- inject_Z_plus, <- Zle_Qle. lia. }
  assert (Hx : (x == inject_Z (py_round x) - (1 # 2))%Q) by lra.
  assert (Hy : (y == inject_Z (py_round y) + (1 # 2))%Q) by lra.
  assert (Hab : (inject_Z (py_round x) == inject_Z (py_round y + 1))%Q).
  { rewrite inject_Z_plus. change (inject_Z 1) with 1%Q. lra. }
  unfold Qeq in Hab. cbn [inject_Z Qnum Qden] in Hab.
  assert (Hab' : py_round x = py_round y + 1) by lia. clear Hab.
  pose proof (Hx3 (or_intror Hx)) as Hevx.
  pose proof (Hy3 (or_introl Hy)) as Hevy.
  rewrite Hab', Z.even_add, Hevy in Hevx. discriminate Hevx.
Qed.

(** X24: the decision follows the local clock one way only: if a local
    mtime makes it upload, so does every later one, and if a local mtime
    makes it download, so does every earlier one. *)
Theorem choose_direction_monotone (earlier later : Q) (remote_meta : RemoteEntry) :
  (earlier <= later)%Q ->
  (choose_direction earlier remote_meta = Ok Upload ->
   choose_direction later remote_meta = Ok Upload)
  /\ (choose_direction later remote_meta = Ok Download ->
      choose_direction earlier remote_meta = Ok Download).
Proof.
  intros Hle. apply py_round_monotone in Hle. unfold choose_direction.
  destruct (chunks remote_meta) as [|chunk0 rest]; [split; discriminate|].
  rewrite float_str_prefix.
  set (remote := Z.of_N (mtime chunk0) / _) in *.
  destruct (remote + 50 <? py_round earlier) eqn:He;
    destruct (remote + 50 <? py_round later) eqn:Hl;
    split; intros H; try reflexivity; try discriminate H.
  - apply Z.ltb_lt in He. apply Z.ltb_ge in Hl. lia.
  - apply Z.ltb_lt in He. apply Z.ltb_ge in Hl. lia.
Qed.

(** ** The properties at concrete inputs *)

Lemma send_file_wire_format_witness :
  exists hint size,
    Protocol.send_file Cases.files "root/a.txt" Cases.idle
    = (Protocol.Returned tt,
       Protocol.mkChannels [] []
         ([] ++ hint ++ size ++ Cases.files "root/a.txt"))
    /\ List.length hint = 8%nat /\ List.length size = 8%nat
    /\ Struct.unpack_q hint = Some 8192
    /\ Struct.unpack_q size
       = Some (Z.of_nat (List.length (Cases.files "root/a.txt"))).
Proof.
  apply (send_file_wire_format Cases.files "root/a.txt" Cases.idle).
  vm_compute. reflexivity.
Defined.

Lemma upload_file_handshake_witness :
  Protocol.upload_file Cases.files "root/a.txt" "u/a.txt"
                       (Protocol.mkChannels ["next"; "stop"] [] [])
  = (Protocol.Returned 1,
     Protocol.mkChannels [] ["u/a.txt"] (framed (bytes_of_string "abc"))).
Proof.
  apply (upload_file_handshake Cases.files "root/a.txt" "u/a.txt"
           (Protocol.mkChannels ["next"; "stop"] [] [])).
  vm_compute. reflexivity.
Defined.

Lemma upload_folder_all_granted_witness :
  Protocol.upload_folder Cases.files Cases.tree "root\" "root" true
    (Protocol.mkChannels (repeat "next" 4 ++ ["late"]) [] [])
  = (Protocol.Returned tt,
     Protocol.mkChannels ["late"]
       ([] ++ transcript "root" (Cases.tree "root"))
       ([] ++ payload Cases.files (Cases.tree "root"))).
Proof.
  apply (upload_folder_all_granted Cases.files Cases.tree).
  - intros path. unfold Cases.files.
    destruct (String.eqb path "root/a.txt");
      [|destruct (String.eqb path "root/sub/b.txt")]; vm_compute; reflexivity.
  - discriminate.
Defined.

Lemma receive_file_after_send_file_witness :
  receive_file Cases.reads_of_b (bytes_of_string "old") FileIO.WB
  = (framed (bytes_of_string "stop"), false)
  /\ List.length (fst (receive_file Cases.reads_of_b (bytes_of_string "old")
                                    FileIO.WB))
     = 20%nat.
Proof.
  apply (receive_file_after_send_file Cases.files "root/sub/b.txt" [] []
           Cases.reads_of_b (bytes_of_string "old")).
  - vm_compute. reflexivity.
  - vm_compute. reflexivity.
  - repeat constructor; intros [H | H]; discriminate H.
Defined.

Lemma download_stops_at_failed_remove_witness :
  fst (_sync_both_file_download Runs.collab "base/docs/f" "docs/f"
                                Cases.remove_denied)
  = Raise (OSError 13)
  /\ exists before,
       trace (snd (_sync_both_file_download Runs.collab "base/docs/f" "docs/f"
                                            Cases.remove_denied))
       = EvRemove "base/docs/f"
         :: EvPatch "base/docs/f" "/tmp/scratch/docs/f.sig.delta"
                    "base/docs/f_2" 0
         :: before.
Proof.
  apply (download_stops_at_failed_remove Runs.collab "base/docs/f" "docs/f"
           Cases.remove_denied 13); try reflexivity.
  discriminate.
Defined.

Lemma sync_both_file_entry_witness :
  fst (sync_both_file Runs.collab "base/docs/f" "docs/f"
                      (Runs.entry_one_chunk Runs.a_md5) Cases.tagged)
  = Ok (AlreadySynced, set_Md5 (Runs.entry_one_chunk Runs.a_md5) Runs.abc_md5)
  /\ set_Md5 (Runs.entry_one_chunk Runs.a_md5) Runs.abc_md5
     = match known_digest (Runs.entry_one_chunk Runs.a_md5) Runs.abc_md5 with
       | Some digest => set_Md5 (Runs.entry_one_chunk Runs.a_md5) digest
       | None => Runs.entry_one_chunk Runs.a_md5
       end.
Proof.
  assert (Hrun : fst (sync_both_file Runs.collab "base/docs/f" "docs/f"
                        (Runs.entry_one_chunk Runs.a_md5) Cases.tagged)
                 = Ok (AlreadySynced,
                       set_Md5 (Runs.entry_one_chunk Runs.a_md5) Runs.abc_md5))
    by (vm_compute; reflexivity).
  split; [exact Hrun|].
  exact (sync_both_file_entry Runs.collab "base/docs/f" "docs/f"
           (Runs.entry_one_chunk Runs.a_md5) Cases.tagged AlreadySynced _ Hrun).
Defined.

Lemma sync_both_file_without_chunks_raises_witness :
  fst (sync_both_file Runs.collab "base/docs/f" "docs/f"
                      Cases.entry_wrong_size Runs.no_chunks)
  = Raise IndexError
  /\ exists evs,
       trace (snd (sync_both_file Runs.collab "base/docs/f" "docs/f"
                                  Cases.entry_wrong_size Runs.no_chunks))
       = evs ++ trace Runs.no_chunks
       /\ Forall (fun ev => ~ transfer_event ev) evs.
Proof.
  apply (sync_both_file_without_chunks_raises Runs.collab "base/docs/f" "docs/f"
           Cases.entry_wrong_size Runs.no_chunks).
  - reflexivity.
  - vm_compute. discriminate.
Defined.

Lemma known_digest_no_tag_traffic_witness :
  exists evs,
    trace (snd (sync_both_file Runs.collab "base/docs/f" "docs/f"
                               Runs.entry_abc Runs.one_chunk))
    = evs ++ trace Runs.one_chunk
    /\ Forall (fun ev => ~ tag_event ev) evs.
Proof.
  apply (known_digest_no_tag_traffic Runs.collab "base/docs/f" "docs/f"
           Runs.entry_abc Runs.one_chunk).
  discriminate.
Defined.

Lemma remove_tags_iff_already_synced_witness :
  exists evs,
    trace (snd (sync_both_file Runs.collab "base/docs/f" "docs/f"
                               (Runs.entry_one_chunk Runs.abc_md5)
                               Runs.one_chunk))
    = evs ++ trace Runs.one_chunk
    /\ (In (EvRemoveTags "docs/f") evs <-> AlreadySynced = AlreadySynced)
    /\ (AlreadySynced = AlreadySynced ->
        Forall (fun ev => ~ transfer_event ev) evs).
Proof.
  apply (remove_tags_iff_already_synced Runs.collab "base/docs/f" "docs/f"
           (Runs.entry_one_chunk Runs.abc_md5) Runs.one_chunk AlreadySynced
           (Runs.entry_one_chunk Runs.abc_md5)).
  vm_compute. reflexivity.
Defined.

Lemma sync_both_files_defers_in_order_witness :
  let both := [("a", 0%nat); ("b", 1%nat); ("c", 2%nat)] in
  exists added,
    [("a", 0%nat); ("b", 1%nat)] = [] ++ added
    /\ subseq added both
    /\ (List.length (@nil (string * nat)) <= 2
        <= List.length (@nil (string * nat)) + List.length both)%nat.
Proof.
  intros both.
  apply (sync_both_files_defers_in_order Runs.collab "base" both []
           [("a", 0%nat); ("b", 1%nat)] Runs.three_files).
  vm_compute. reflexivity.
Defined.

Lemma sync_folder_refused_listing_witness :
  sync_folder Runs.collab 3 "base/docs" "base" true 60
              (Sim.start Runs.listing_refused)
  = (Ok (Some 0),
     mkState Runs.listing_refused [EvGetFolderListing "docs" true 404] []).
Proof.
  apply (sync_folder_refused_listing Runs.collab 3 "base/docs" "base" true 60
           (Sim.start Runs.listing_refused)).
  vm_compute. discriminate.
Defined.

Lemma sync_folder_returns_without_retry_witness :
  (1 = 0 \/ 1 = 1)
  /\ exists evs,
       trace (snd (sync_folder Runs.collab 3 "base/docs" "base" true 60
                               (Sim.start Cases.in_sync)))
       = evs ++ trace (Sim.start Cases.in_sync)
       /\ Forall awake evs.
Proof.
  apply (sync_folder_returns_without_retry Runs.collab 3 "base/docs" "base"
           true 60 (Sim.start Cases.in_sync) 1).
  vm_compute. reflexivity.
Defined.


Lemma stored_tag_follows_comparison_witness :
  trace (snd (sync_both_file Runs.collab "base/docs/f" "docs/f"
                             (Runs.entry_one_chunk Runs.abc_md5) Runs.one_chunk))
  = [EvSetMd5Tag "docs/f"
       (Base64.b64encode
          (nth 1 (md5_file_generator (bytes_of_string "abc") default_size) []));
     EvRemoveTags "docs/f"; EvGetMd5Tag "docs/f" "";
     EvSyncBothFile "base/docs/f" "docs/f"].
Proof.
  refine (proj1 (proj2 (stored_tag_follows_comparison Runs.collab
                          "base/docs/f" "docs/f"
                          (Runs.entry_one_chunk Runs.abc_md5)
                          (Runs.entry_one_chunk Runs.abc_md5)
                          Runs.one_chunk _ _ _))).
  - reflexivity.
  - reflexivity.
  - vm_compute. reflexivity.
Defined.

Lemma encoded_digest_is_recognised_witness :
  fst (sync_both_file Runs.collab "base/docs/f" "docs/f"
                      (Runs.entry_one_chunk Runs.a_md5) Cases.tagged)
  = Ok (AlreadySynced,
        set_Md5 (Runs.entry_one_chunk Runs.a_md5)
                (Base64.b64encode (Hashlib.md5 (bytes_of_string "abc")))).
Proof.
  refine (proj1 (proj2 (encoded_digest_is_recognised Runs.collab
                          "base/docs/f" "docs/f"
                          (Runs.entry_one_chunk Runs.a_md5) Cases.tagged _ _))).
  - vm_compute. reflexivity.
  - reflexivity.
Defined.

Lemma choose_direction_monotone_witness :
  (choose_direction 1617000100 Runs.entry_abc = Ok Upload ->
   choose_direction 1617000200 Runs.entry_abc = Ok Upload)
  /\ (choose_direction 1617000200 Runs.entry_abc = Ok Download ->
      choose_direction 1617000100 Runs.entry_abc = Ok Download).
Proof.
  apply (choose_direction_monotone 1617000100 1617000200 Runs.entry_abc).
  vm_compute. discriminate.
Defined.
